(** * apidiff: the markdown API diff of two library snapshots

    A shallow embedding of [java/markdowndiff.py] and
    [android/markdowndiff.py], and the properties of their classifier,
    snapshot parser, diff engine, name simplifier and markdown renderer.

    Python 2 [str] values are byte strings: they are modelled as [list ascii].
    Dictionaries are [gmap]s, exceptions are an explicit [result] type, and
    the regular expressions of the source are abstract syntax trees run by a
    backtracking matcher that follows the search order of Python's [re]. *)

From Stdlib Require Import Ascii String.
From stdpp Require Import gmap strings list sorting.

Local Open Scope list_scope.

(** ** Byte strings *)

Abbreviation str := (list ascii).

(** A Python string literal. *)
Definition bytes (s : string) : str := list_ascii_of_string s.

Definition LF : ascii := ascii_of_nat 10.

(** [c.isspace()] for a byte of a Python 2 [str], and [\s] of [re] without
    flags: space, [\t], [\n], [\v], [\f], [\r]. *)
Definition is_space (a : ascii) : bool :=
  let n := nat_of_ascii a in (n =? 32) || ((9 <=? n) && (n <=? 13)).

(** [s.lstrip()], [s.rstrip()] and [s.strip()]. *)
Fixpoint lstrip (s : str) : str :=
  match s with
  | a :: s' => if is_space a then lstrip s' else s
  | [] => []
  end.

Definition rstrip (s : str) : str := rev (lstrip (rev s)).

Definition strip (s : str) : str := rstrip (lstrip s).

(** [s[:-1]]: all but the last character; the empty string stays empty. *)
Definition drop_last (s : str) : str := take (length s - 1) s.

(** [sep.join(l)]. *)
Fixpoint join (sep : str) (l : list str) : str :=
  match l with
  | [] => []
  | [x] => x
  | x :: l' => x ++ sep ++ join sep l'
  end.

(** [s.rfind(c)] for a one-character [c], as Python returns it: the index
    of the last occurrence, or -1. *)
Fixpoint rfind_from (c : ascii) (s : str) (i : Z) (last : Z) : Z :=
  match s with
  | [] => last
  | a :: s' => rfind_from c s' (i + 1)%Z (if Ascii.eqb a c then i else last)
  end.

Definition rfind (c : ascii) (s : str) : Z := rfind_from c s 0%Z (-1)%Z.

(** ** Exceptions *)

Inductive exn : Type :=
| CouldNotParse (text : str)
    (** [Exception('Could not parse %s' % full_definition)] *)
| AttributeError (attribute : str)
    (** reading a field that a namedtuple does not have *)
| KlassUnbound.
    (** a symbol recorded while [klass] is still [None]; the loop cannot
        reach it, see [symbols_loop_klass_bound] *)

Inductive result (A : Type) : Type :=
| Ok (a : A)
| Raise (e : exn).
Arguments Ok {A} a.
Arguments Raise {A} e.

#[global] Instance result_ret : MRet result := λ A a, Ok a.
#[global] Instance result_bind : MBind result := λ A B f r,
  match r with
  | Ok a => f a
  | Raise e => Raise e
  end.

(** ** Regular expressions

    The fragment of [re] syntax the two programs use.  A pattern string is
    written as its syntax tree; [Group i r] is the [i]-th capturing
    parenthesis. *)

Inductive regex : Type :=
| Lit (l : str)                  (** literal text *)
| Cls (p : ascii → bool)         (** one character of a class *)
| Seq (r1 r2 : regex)            (** [r1 r2] *)
| Alt (r1 r2 : regex)            (** [r1|r2] *)
| Star (r : regex)               (** [r*], greedy *)
| LazyStar (r : regex)           (** [r*?] *)
| Group (i : nat) (r : regex).   (** [(r)] *)

Infix "·" := Seq (at level 41, right associativity).

(** [r+] and [r+?]; only used on bodies without groups. *)
Definition Plus (r : regex) : regex := r · Star r.
Definition LazyPlus (r : regex) : regex := r · LazyStar r.

(** [\s], [\S] and [.] (any character but a newline). *)
Definition ws : regex := Cls is_space.
Definition nws : regex := Cls (λ a, negb (is_space a)).
Definition dot : regex := Cls (λ a, negb (Ascii.eqb a LF)).
Definition chr (a : ascii) : regex := Cls (Ascii.eqb a).

(** [r1|r2|...|rn]. *)
Fixpoint alts (rs : list regex) : regex :=
  match rs with
  | [] => Cls (λ _, false)
  | [r] => r
  | r :: rs' => Alt r (alts rs')
  end.

(** The captured groups, most recent first. *)
Definition caps : Type := list (nat * str).

(** [match.group(i)]; every group of the patterns below takes part in
    every match of its pattern. *)
Fixpoint group (c : caps) (i : nat) : str :=
  match c with
  | [] => []
  | (j, v) :: c' => if j =? i then v else group c' i
  end.

(** [strip_prefix l s]: [s] without its prefix [l], when it has it. *)
Fixpoint strip_prefix (l s : str) : option str :=
  match l, s with
  | [], _ => Some s
  | a :: l', b :: s' => if Ascii.eqb a b then strip_prefix l' s' else None
  | _ :: _, [] => None
  end.

Section matcher.
Context {R : Type}.

(** A continuation receives the rest of the input and the groups so far. *)
Definition cont : Type := str → caps → option R.

(** Greedy repetition: one more round of the body is tried before leaving
    the loop.  The bodies of all loops in the patterns consume a
    character, so [length s] rounds are never exceeded. *)
Fixpoint star_loop (step : str → caps → cont → option R) (k : cont)
    (n : nat) (s : str) (c : caps) : option R :=
  match n with
  | 0 => k s c
  | S n' =>
      match step s c (star_loop step k n') with
      | Some x => Some x
      | None => k s c
      end
  end.

(** Lazy repetition: leaving the loop is tried first. *)
Fixpoint lazy_loop (step : str → caps → cont → option R) (k : cont)
    (n : nat) (s : str) (c : caps) : option R :=
  match n with
  | 0 => k s c
  | S n' =>
      match k s c with
      | Some x => Some x
      | None => step s c (lazy_loop step k n')
      end
  end.

(** The backtracking search of [re]: alternatives left to right, greedy
    loops longest first, lazy loops shortest first; the first complete
    match found is the answer. *)
Fixpoint rmatch (r : regex) (s : str) (c : caps) (k : cont) : option R :=
  match r with
  | Lit l =>
      match strip_prefix l s with
      | Some s' => k s' c
      | None => None
      end
  | Cls p =>
      match s with
      | a :: s' => if p a then k s' c else None
      | [] => None
      end
  | Seq r1 r2 => rmatch r1 s c (λ s' c', rmatch r2 s' c' k)
  | Alt r1 r2 =>
      match rmatch r1 s c k with
      | Some x => Some x
      | None => rmatch r2 s c k
      end
  | Star r' => star_loop (rmatch r') k (length s) s c
  | LazyStar r' => lazy_loop (rmatch r') k (length s) s c
  | Group i r' =>
      rmatch r' s c
        (λ s' c', k s' ((i, take (length s - length s') s) :: c'))
  end.
End matcher.

(** [re.match(pattern, s)]: anchored at the start, not at the end. *)
Definition re_match (r : regex) (s : str) : option caps :=
  rmatch r s [] (λ _ c, Some c).

(** ** Data model *)

(** [class Kind: KLASS, CONSTRUCTOR, FIELD, METHOD = range(1, 5)] *)
Inductive Kind : Type := KLASS | CONSTRUCTOR | FIELD | METHOD.

Definition kind_value (k : Kind) : nat :=
  match k with KLASS => 1 | CONSTRUCTOR => 2 | FIELD => 3 | METHOD => 4 end.

(** [SymbolId = namedtuple('SymbolId', 'klass kind signature')] *)
Record SymbolId : Type := mkSymbolId {
  klass : str;
  kind : Kind;
  signature : str
}.

(** ** The patterns shared by both classifiers *)

Definition modifier_words : list string :=
  ["public"; "protected"; "private"; "static"; "abstract"; "final";
   "native"; "strictfp"; "synchronized"; "transient"; "volatile"]%string.

(** ['(?:public\s+|protected\s+|...|volatile\s+)+'] *)
Definition one_modifier : regex :=
  alts (map (λ w, Lit (bytes w) · Plus ws) modifier_words).
Definition modifiers : regex := Plus one_modifier.

(** ['.+?\s+'], ['.*'], ['.*'] *)
Definition object_type : regex := LazyPlus dot · Plus ws.
Definition throws : regex := Star dot.
Definition extends_implements : regex := Star dot.

(** ['\S+\(.*\)'] *)
Definition name_and_parameters : regex :=
  Plus nws · chr "(" · Star dot · chr ")".

Module Java.

(** [Definition = namedtuple('Definition', 'full short kind_description')] *)
Record Definition_ : Type := mkDefinition {
  full : str;
  short : str;
  kind_description : str
}.

(** ['(?:class|interface|enum)'] *)
Definition klass_type : regex :=
  alts [Lit (bytes "class"); Lit (bytes "interface"); Lit (bytes "enum")].

(** ['%s(%s)\s+(\S+)(%s)' % (modifiers, klass_type, extends_implements)] *)
Definition klass_pattern : regex :=
  modifiers · Group 1 klass_type · Plus ws · Group 2 (Plus nws)
    · Group 3 extends_implements.

(** ['%s(%s(\S+\(.*\)))%s' % (modifiers, object_type, throws)] *)
Definition method_pattern : regex :=
  modifiers · Group 1 (object_type · Group 2 name_and_parameters) · throws.

(** ['%s(\S+\(.*\))%s' % (modifiers, throws)] *)
Definition constructor_pattern : regex :=
  modifiers · Group 1 name_and_parameters · throws.

(** ['%s(%s(\S+))' % (modifiers, object_type)] *)
Definition field_pattern : regex :=
  modifiers · Group 1 (object_type · Group 2 (Plus nws)).

Definition annotation_clause : str :=
  bytes " extends java.lang.annotation.Annotation".

Definition _parse_full_definition (full_definition : str)
    : result (Kind * str * str * str) :=
  match re_match klass_pattern full_definition with
  | Some m =>
      let kind_description := group m 1 in
      let signature := group m 2 in
      let short_definition := signature in
      let extends := group m 3 in
      if bool_decide (kind_description = bytes "interface")
         && bool_decide (extends = annotation_clause)
      then Ok (KLASS, signature, bytes "@" ++ signature, bytes "annotation")
      else Ok (KLASS, signature, short_definition, kind_description)
  | None =>
  match re_match method_pattern full_definition with
  | Some m => Ok (METHOD, group m 2, group m 1, bytes "method")
  | None =>
  match re_match constructor_pattern full_definition with
  | Some m => Ok (CONSTRUCTOR, group m 1, group m 1, bytes "constructor")
  | None =>
  match re_match field_pattern full_definition with
  | Some m => Ok (FIELD, group m 2, group m 1, bytes "field")
  | None => Raise (CouldNotParse full_definition)
  end end end end.

End Java.

Module Android.

(** ['%sclass\s+(\S+)%s' % (modifiers, extends_implements)] *)
Definition klass_pattern : regex :=
  modifiers · Lit (bytes "class") · Plus ws · Group 1 (Plus nws)
    · extends_implements.

(** ['%s%s(\S+\(.*\))%s' % (modifiers, object_type, throws)] *)
Definition method_pattern : regex :=
  modifiers · object_type · Group 1 name_and_parameters · throws.

(** ['%s(\S+\(.*\))%s' % (modifiers, throws)] *)
Definition constructor_pattern : regex :=
  modifiers · Group 1 name_and_parameters · throws.

(** ['%s%s(\S+)' % (modifiers, object_type)] *)
Definition field_pattern : regex :=
  modifiers · object_type · Group 1 (Plus nws).

Definition _kind_and_signature_for_definition (definition : str)
    : result (Kind * str) :=
  match re_match klass_pattern definition with
  | Some m => Ok (KLASS, group m 1)
  | None =>
  match re_match method_pattern definition with
  | Some m => Ok (METHOD, group m 1)
  | None =>
  match re_match constructor_pattern definition with
  | Some m => Ok (CONSTRUCTOR, group m 1)
  | None =>
  match re_match field_pattern definition with
  | Some m => Ok (FIELD, group m 1)
  | None => Raise (CouldNotParse definition)
  end end end end.

End Android.


(** ** The order of [sorted]

    Python 2 compares [str] values byte by byte and tuples component by
    component; a namedtuple compares as the tuple of its fields. *)

Fixpoint str_compare (s t : str) : comparison :=
  match s, t with
  | [], [] => Eq
  | [], _ :: _ => Lt
  | _ :: _, [] => Gt
  | a :: s', b :: t' =>
      match Nat.compare (nat_of_ascii a) (nat_of_ascii b) with
      | Eq => str_compare s' t'
      | o => o
      end
  end.

Definition symbol_id_compare (x y : SymbolId) : comparison :=
  match str_compare (klass x) (klass y) with
  | Eq =>
      match Nat.compare (kind_value (kind x)) (kind_value (kind y)) with
      | Eq => str_compare (signature x) (signature y)
      | o => o
      end
  | o => o
  end.

Definition str_le (s t : str) : Prop := str_compare s t ≠ Gt.
Definition symbol_id_le (x y : SymbolId) : Prop := symbol_id_compare x y ≠ Gt.

#[global] Instance str_le_dec : RelDecision str_le.
Proof. intros s t. unfold str_le. apply _. Defined.
#[global] Instance symbol_id_le_dec : RelDecision symbol_id_le.
Proof. intros s t. unfold symbol_id_le. apply _. Defined.

#[global] Instance Kind_eq_dec : EqDecision Kind.
Proof. solve_decision. Defined.
#[global] Instance SymbolId_eq_dec : EqDecision SymbolId.
Proof. solve_decision. Defined.

Definition kind_of_value (n : nat) : Kind :=
  match n with 1 => KLASS | 2 => CONSTRUCTOR | 3 => FIELD | _ => METHOD end.

#[global] Instance Kind_countable : Countable Kind.
Proof.
  apply (inj_countable' kind_value kind_of_value). by intros [].
Defined.
#[global] Instance SymbolId_countable : Countable SymbolId.
Proof.
  apply (inj_countable' (λ x, (klass x, kind x, signature x))
           (λ t, mkSymbolId t.1.1 t.1.2 t.2)).
  by intros [].
Defined.

(** [sorted(ids)] for a list of [SymbolId]s, and [sorted(d.iteritems())]
    for a dictionary with [str] keys: the keys of a dictionary differ, so
    the values are never compared. *)
Definition sorted_ids (l : list SymbolId) : list SymbolId :=
  merge_sort symbol_id_le l.

Definition item_le {V} (x y : str * V) : Prop := str_le x.1 y.1.
#[global] Instance item_le_dec {V} : RelDecision (@item_le V).
Proof. intros x y. unfold item_le. apply _. Defined.

Definition sorted_items {V} (d : gmap str V) : list (str * V) :=
  merge_sort item_le (map_to_list d).

(** ** Snapshot parser *)

(** [f.readlines()]: the lines of a file, each with its newline. *)
Fixpoint readlines_from (cur : str) (s : str) : list str :=
  match s with
  | [] => match cur with [] => [] | _ => [cur] end
  | a :: s' =>
      if Ascii.eqb a LF then (cur ++ [a]) :: readlines_from [] s'
      else readlines_from (cur ++ [a]) s'
  end.

Definition readlines (content : str) : list str := readlines_from [] content.

(** [line.strip()[:-1].strip()] *)
Definition definition_text (line : str) : str :=
  strip (drop_last (strip line)).

Section SnapshotParser.
(** The two programs differ in the classifier they call and in what they
    store for a symbol; [classify] gives, for a definition text, the kind,
    the signature and the value stored. *)
Context {D : Type}.
Variable classify : str → result (Kind * str * D).

(** The loop of [_symbols_for_klass] over [enumerate(lines)]; [n] is
    [len(lines)]. *)
Fixpoint symbols_loop (n index : nat) (lines : list str)
    (symbols : gmap SymbolId D) (klass : option str)
    : result (gmap SymbolId D) :=
  match lines with
  | [] => Ok symbols
  | line :: rest =>
      if index =? n - 1 then
        symbols_loop n (S index) rest symbols klass
      else
        '(kind, signature, d) ← classify (definition_text line);
        let klass := if index =? 0 then Some signature else klass in
        match klass with
        | Some kl =>
            symbols_loop n (S index) rest
              (<[mkSymbolId kl kind signature := d]> symbols) klass
        | None => Raise KlassUnbound
        end
  end.

Definition symbols_for_lines (lines : list str)
    : result (gmap SymbolId D) :=
  symbols_loop (length lines) 0 lines ∅ None.

(** [_symbols_for_klass(file)], on the content of the file. *)
Definition _symbols_for_klass (content : str) : result (gmap SymbolId D) :=
  symbols_for_lines (readlines content).

(** [_symbols_for_library(path)], on the contents of the files under
    [path] in the order [os.walk] yields them; [symbols.update(t)] lets
    the entries of [t] win. *)
Fixpoint library_loop (files : list str) (symbols : gmap SymbolId D)
    : result (gmap SymbolId D) :=
  match files with
  | [] => Ok symbols
  | file :: rest =>
      t ← _symbols_for_klass file;
      library_loop rest (t ∪ symbols)
  end.

Definition _symbols_for_library (files : list str)
    : result (gmap SymbolId D) :=
  library_loop files ∅.
End SnapshotParser.

(** ** Diff engine *)

Section DiffEngine.
Context {D : Type}.
(** The text compared for a symbol present in both tables. *)
Variable full_text : D → str.

Inductive Change : Type :=
| Addition (symbol_id : SymbolId) (definition : D)
| Deletion (symbol_id : SymbolId) (definition : D)
| Modification (symbol_id : SymbolId) (old_definition new_definition : D).

Definition symbol_id_of (c : Change) : SymbolId :=
  match c with
  | Addition i _ | Deletion i _ | Modification i _ _ => i
  end.

(** [changes[k].append(c)] on a [defaultdict(list)]. *)
Definition append_change (changes : gmap str (list Change)) (c : Change)
    : gmap str (list Change) :=
  <[klass (symbol_id_of c) :=
      default [] (changes !! klass (symbol_id_of c)) ++ [c]]> changes.

(** The three loops of [_changes]; [symbols[symbol_id]] cannot raise
    [KeyError], the identities being keys of the table read. *)
Definition additions (new_symbols : gmap SymbolId D)
    (added : list SymbolId) : list Change :=
  omap (λ i, Addition i <$> new_symbols !! i) added.

Definition deletions (old_symbols : gmap SymbolId D)
    (deleted : list SymbolId) : list Change :=
  omap (λ i, Deletion i <$> old_symbols !! i) deleted.

Definition modifications (old_symbols new_symbols : gmap SymbolId D)
    (persisted : list SymbolId) : list Change :=
  omap (λ i,
    old_definition ← old_symbols !! i;
    new_definition ← new_symbols !! i;
    if bool_decide (full_text old_definition ≠ full_text new_definition)
    then Some (Modification i old_definition new_definition)
    else None) persisted.

Definition _changes (old_symbols new_symbols : gmap SymbolId D)
    : gmap str (list Change) :=
  let old := dom old_symbols in
  let new := dom new_symbols in
  let added := filter (λ i, i ∉ old) (elements new) in
  let deleted := filter (λ i, i ∉ new) (elements old) in
  let persisted := filter (λ i, i ∈ new) (elements old) in
  let changes := foldl append_change ∅
                   (additions new_symbols (sorted_ids added)) in
  let changes := foldl append_change changes
                   (deletions old_symbols (sorted_ids deleted)) in
  foldl append_change changes
    (modifications old_symbols new_symbols (sorted_ids persisted)).
End DiffEngine.
Arguments Change D : clear implicits.

(** ** Name simplifier *)

(** [re.split(pattern, string)] for a pattern with one group: the pieces
    between the matches, each followed by the text of the group of the
    match that ends it.  A match is looked for at each position from left
    to right; an empty match does not split. *)
Fixpoint split_loop (r : regex) (n : nat) (s : str) (cur : str) : list str :=
  match n, s with
  | S n', a :: s' =>
      match rmatch r s [] (λ s1 c, Some (s1, c)) with
      | Some (s1, c) =>
          if bool_decide (length s1 < length s)
          then cur :: group c 1 :: split_loop r n' s1 []
          else split_loop r n' s' (cur ++ [a])
      | None => split_loop r n' s' (cur ++ [a])
      end
  | _, _ => [cur ++ s]
  end.

Definition re_split (r : regex) (s : str) : list str :=
  split_loop r (length s) s [].

(** [token[token.rfind(delimiter)+1:]] *)
Definition after_last (delimiter : ascii) (token : str) : str :=
  drop (Z.to_nat (rfind delimiter token + 1)) token.

(** [for delimiter in '.', '$': token = token[token.rfind(delimiter)+1:]] *)
Definition _simplify_token (token : str) : str :=
  after_last "$" (after_last "." token).

Definition simplify_with (boundaries : regex) (s : str) : str :=
  concat (map _simplify_token (re_split boundaries s)).

(** ** Markdown renderer *)

(** What a run leaves behind: the text printed, and the exception that
    ended it, if one did. *)
Record outcome : Type := mkOutcome {
  stdout : str;
  raised : option exn
}.

Definition NL : str := [LF].

Module JavaRender.
Import Java.

(** [r'(\(|\)|\s|<|>|,|@)'] *)
Definition boundaries : regex :=
  Group 1 (alts [chr "("; chr ")"; ws; chr "<"; chr ">"; chr ","; chr "@"]).

Definition _simplify (s : str) : str := simplify_with boundaries s.

(** [change.definition]: a [Modification] has no such field. *)
Definition definition_of (change : Change Definition_)
    : result Definition_ :=
  match change with
  | Addition _ d | Deletion _ d => Ok d
  | Modification _ _ _ => Raise (AttributeError (bytes "definition"))
  end.

Definition _markdown_for_kind (change : Change Definition_) : result str :=
  d ← definition_of change; Ok (kind_description d).

Definition _markdown_for_short_definition (change : Change Definition_)
    : result str :=
  d ← definition_of change;
  Ok (bytes "`" ++ _simplify (short d) ++ bytes "`").

Definition _markdown_for_change (change : Change Definition_)
    : result str :=
  match change with
  | Addition _ _ =>
      k ← _markdown_for_kind change;
      s ← _markdown_for_short_definition change;
      Ok (bytes "*new* " ++ k ++ bytes ": " ++ s)
  | Deletion _ _ =>
      k ← _markdown_for_kind change;
      s ← _markdown_for_short_definition change;
      Ok (bytes "*removed* " ++ k ++ bytes ": " ++ s)
  | Modification _ old_definition new_definition =>
      k ← _markdown_for_kind change;
      s ← _markdown_for_short_definition change;
      Ok (join NL
            [bytes "*modified* " ++ k ++ bytes ": " ++ s;
             [];
             bytes "| From: | " ++ _simplify (full old_definition)
               ++ bytes " |";
             bytes "| To: | " ++ _simplify (full new_definition)
               ++ bytes " |"])
  end.

(** [[_markdown_for_change(change) for change in changes]] *)
Fixpoint markdown_for_changes (changes : list (Change Definition_))
    : result (list str) :=
  match changes with
  | [] => Ok []
  | change :: rest =>
      m ← _markdown_for_change change;
      ms ← markdown_for_changes rest;
      Ok (m :: ms)
  end.

(** The loop of [_print_markdown]; [out] is what was printed so far. *)
Fixpoint print_sections (items : list (str * list (Change Definition_)))
    (out : str) : outcome :=
  match items with
  | [] => mkOutcome out None
  | (klass, changes) :: rest =>
      let out := out ++ bytes "## " ++ _simplify klass ++ NL in
      let out := out ++ NL in
      match markdown_for_changes changes with
      | Raise e => mkOutcome out (Some e)
      | Ok ms =>
          let out := out ++ join (NL ++ NL) ms ++ NL in
          let out := out ++ NL in
          let out := out ++ NL in
          print_sections rest out
      end
  end.

Definition _print_markdown (report : gmap str (list (Change Definition_)))
    : outcome :=
  print_sections (sorted_items report) [].

(** The stored value of a symbol: [Definition(full_definition,
    short_definition, kind_description)]. *)
Definition classify (full_definition : str)
    : result (Kind * str * Definition_) :=
  '(kind, signature, short_definition, kind_description) ←
     _parse_full_definition full_definition;
  Ok (kind, signature,
      mkDefinition full_definition short_definition kind_description).

Definition print_api_diff (old_path new_path : list str) : outcome :=
  match _symbols_for_library classify old_path with
  | Raise e => mkOutcome [] (Some e)
  | Ok old_symbols =>
      match _symbols_for_library classify new_path with
      | Raise e => mkOutcome [] (Some e)
      | Ok new_symbols =>
          _print_markdown (_changes full old_symbols new_symbols)
      end
  end.
End JavaRender.

Module AndroidRender.
Import Android.

(** [r'(\(|\)|\s|<|>|,)'] *)
Definition boundaries : regex :=
  Group 1 (alts [chr "("; chr ")"; ws; chr "<"; chr ">"; chr ","]).

Definition _simplify (s : str) : str := simplify_with boundaries s.

Definition _markdown_for_kind (change : Change str) : str :=
  match kind (symbol_id_of change) with
  | KLASS => bytes "class"
  | CONSTRUCTOR => bytes "constructor"
  | FIELD => bytes "field"
  | METHOD => bytes "method"
  end.

Definition _markdown_for_signature (change : Change str) : str :=
  bytes "`" ++ _simplify (signature (symbol_id_of change)) ++ bytes "`".

Definition _markdown_for_change (change : Change str) : str :=
  match change with
  | Addition _ _ =>
      bytes "*new* " ++ _markdown_for_kind change ++ bytes ": "
        ++ _markdown_for_signature change
  | Deletion _ _ =>
      bytes "*removed* " ++ _markdown_for_kind change ++ bytes ": "
        ++ _markdown_for_signature change
  | Modification _ old_definition new_definition =>
      join NL
        [bytes "*modified* " ++ _markdown_for_kind change ++ bytes ": "
           ++ _markdown_for_signature change;
         [];
         bytes "| From: | " ++ _simplify old_definition ++ bytes " |";
         bytes "| To: | " ++ _simplify new_definition ++ bytes " |"]
  end.

(** One round of the loop of [_print_markdown]. *)
Definition section (item : str * list (Change str)) : str :=
  bytes "## " ++ _simplify item.1 ++ NL
    ++ NL
    ++ join (NL ++ NL) (map _markdown_for_change item.2) ++ NL
    ++ NL
    ++ NL.

Definition _print_markdown (report : gmap str (list (Change str))) : str :=
  concat (map section (sorted_items report)).

Definition classify (definition : str) : result (Kind * str * str) :=
  '(kind, signature) ← _kind_and_signature_for_definition definition;
  Ok (kind, signature, definition).

Definition print_api_diff (old_path new_path : list str) : outcome :=
  match _symbols_for_library classify old_path with
  | Raise e => mkOutcome [] (Some e)
  | Ok old_symbols =>
      match _symbols_for_library classify new_path with
      | Raise e => mkOutcome [] (Some e)
      | Ok new_symbols =>
          mkOutcome (_print_markdown (_changes id old_symbols new_symbols))
            None
      end
  end.
End AndroidRender.

(** ** What a report says about one identity *)

Section ReportReading.
Context {D : Type}.

(** The changes recorded for identity [i], read under its class. *)
Definition changes_about (report : gmap str (list (Change D)))
    (i : SymbolId) : list (Change D) :=
  filter (λ c, symbol_id_of c = i) (default [] (report !! klass i)).

(** Every change is filed under the class of its identity. *)
Definition filed_by_class (report : gmap str (list (Change D))) : Prop :=
  ∀ k cs c, report !! k = Some cs → c ∈ cs → klass (symbol_id_of c) = k.

(** What the diff owes identity [i]. *)
Definition expected_changes (full_text : D → str)
    (old_symbols new_symbols : gmap SymbolId D) (i : SymbolId)
    : list (Change D) :=
  match old_symbols !! i, new_symbols !! i with
  | None, Some d => [Addition i d]
  | Some d, None => [Deletion i d]
  | Some od, Some nd =>
      if decide (full_text od = full_text nd) then []
      else [Modification i od nd]
  | None, None => []
  end.

(** The changes of a diff in the order they are appended: the three runs
    of [_changes] one after the other. *)
Definition all_changes (full_text : D → str)
    (old_symbols new_symbols : gmap SymbolId D) : list (Change D) :=
  additions new_symbols
    (sorted_ids (filter (λ i, i ∉ dom old_symbols)
                   (elements (dom new_symbols))))
  ++ deletions old_symbols
       (sorted_ids (filter (λ i, i ∉ dom new_symbols)
                      (elements (dom old_symbols))))
  ++ modifications full_text old_symbols new_symbols
       (sorted_ids (filter (λ i, i ∈ dom new_symbols)
                      (elements (dom old_symbols)))).
End ReportReading.

(** ** Reading a snapshot *)

Section SnapshotReading.
Context {D : Type}.
Variable classify : str → result (Kind * str * D).

(** Two tables give every identity they share the same value. *)
Definition agree (tf tg : gmap SymbolId D) : Prop :=
  ∀ i d d', tf !! i = Some d → tg !! i = Some d' → d = d'.

(** Two files of a snapshot that both define an identity give it the
    same value; in particular when no two files share an identity. *)
Definition consistent (files : list str) : Prop :=
  ∀ f g tf tg,
    f ∈ files → g ∈ files →
    _symbols_for_klass classify f = Ok tf →
    _symbols_for_klass classify g = Ok tg →
    agree tf tg.

(** The same, as a check that computes. *)
Definition agree_at (o : option D) (d : D) : Prop :=
  match o with
  | Some d' => d = d'
  | None => True
  end.

Context `{EqDecision D}.

#[local] Instance agree_at_dec o d : Decision (agree_at o d).
Proof. destruct o; simpl; apply _. Defined.

Definition agreeb (tf tg : gmap SymbolId D) : bool :=
  bool_decide (map_Forall (λ i d, agree_at (tg !! i) d) tf).

Definition consistentb (files : list str) : bool :=
  forallb (λ f,
    forallb (λ g,
      match _symbols_for_klass classify f, _symbols_for_klass classify g with
      | Ok tf, Ok tg => agreeb tf tg
      | _, _ => true
      end) files) files.

(** The classifier raises nothing but its own parse exception. *)
Definition raises_parse_errors_only : Prop :=
  ∀ s e, classify s = Raise e → ∃ t, e = CouldNotParse t.
End SnapshotReading.

(** ** The shape of a type declaration line *)

(** A non-empty run of whitespace, as [\s+] takes it. *)
Definition spaces (sp : str) : Prop :=
  sp ≠ [] ∧ Forall (λ a, is_space a = true) sp.

(** A non-empty run of characters other than whitespace, as [\S+] takes
    it: the identifier of a declaration. *)
Definition word (w : str) : Prop :=
  w ≠ [] ∧ Forall (λ a, is_space a = false) w.

(** One or more modifier keywords, each followed by whitespace. *)
Inductive modifier_run : str → Prop :=
| modifier_run_one w sp :
    w ∈ modifier_words → spaces sp → modifier_run (bytes w ++ sp)
| modifier_run_cons w sp m :
    w ∈ modifier_words → spaces sp → modifier_run m →
    modifier_run (bytes w ++ sp ++ m).

(** What may follow the identifier: nothing, or text set off by
    whitespace. *)
Definition trailing_clause (cl : str) : Prop :=
  match cl with
  | [] => True
  | a :: _ => is_space a = true
  end.

(** [s] does not begin with a character of class [p]. *)
Definition stops (p : ascii → bool) (s : str) : Prop :=
  match s with
  | [] => True
  | a :: _ => p a = false
  end.

(** The text [.*] takes: up to the first newline, if there is one. *)
Fixpoint up_to_newline (s : str) : str :=
  match s with
  | [] => []
  | a :: s' => if Ascii.eqb a LF then [] else a :: up_to_newline s'
  end.

(** The keywords of a type declaration. *)
Definition klass_words : list string := ["class"; "interface"; "enum"]%string.

(** No modifier keyword begins at [s]. *)
Definition blocked {R : Type} (s : str) : Prop :=
  ∀ c (k : cont (R := R)), rmatch one_modifier s c k = None.

(** ** The pieces of a split *)

(** The boundary characters of the two programs: parentheses, whitespace,
    angle brackets and the comma; [java] adds the [@] of annotations. *)
Definition android_boundary (a : ascii) : bool :=
  Ascii.eqb "(" a || Ascii.eqb ")" a || is_space a || Ascii.eqb "<" a
  || Ascii.eqb ">" a || Ascii.eqb "," a.

Definition java_boundary (a : ascii) : bool :=
  android_boundary a || Ascii.eqb "@" a.

(** Splitting at every boundary character: pieces and boundary characters
    alternate, [cur] being the piece under way. *)
Fixpoint pieces (isb : ascii → bool) (s : str) (cur : str) : list str :=
  match s with
  | [] => [cur]
  | a :: s' =>
      if isb a then cur :: [a] :: pieces isb s' [] else pieces isb s' (cur ++ [a])
  end.

(** A piece free of boundary characters, then a boundary character, then a
    piece, and so on up to a last piece. *)
Inductive alternating (isb : ascii → bool) : list str → Prop :=
| alternating_last t :
    Forall (λ a, isb a = false) t → alternating isb [t]
| alternating_more t a l :
    Forall (λ a, isb a = false) t → isb a = true → alternating isb l →
    alternating isb (t :: [a] :: l).

(** [l] with [cur] put before its first piece. *)
Definition push (cur : str) (l : list str) : list str :=
  match l with
  | [] => [cur]
  | t :: l' => (cur ++ t) :: l'
  end.

(** ** Reading a report and a rendering *)

Definition is_addition {D} (c : Change D) : bool :=
  match c with Addition _ _ => true | _ => false end.
Definition is_deletion {D} (c : Change D) : bool :=
  match c with Deletion _ _ => true | _ => false end.
Definition is_modification {D} (c : Change D) : bool :=
  match c with Modification _ _ _ => true | _ => false end.

(** How many changes of a list pass a test. *)
Definition count {D} (test : Change D → bool) (cs : list (Change D)) : nat :=
  length (filter (λ c, test c = true) cs).

(** The classes of a report in the order their sections are printed. *)
Definition section_order {V} (report : gmap str V) : list str :=
  (sorted_items report).*1.

(** A section as it is printed: the heading, an empty line, the entries
    with an empty line between them, and two empty lines. *)
Definition section_text (heading : str) (entries : list str) : str :=
  bytes "## " ++ heading ++ NL
    ++ NL
    ++ join (NL ++ NL) entries ++ NL
    ++ NL
    ++ NL.

(** A report without modifications. *)
Definition modification_free {D} (report : gmap str (list (Change D)))
    : Prop :=
  ∀ k cs, report !! k = Some cs → Forall (λ c, is_modification c = false) cs.

(** The report of a run: the first three statements of [print_api_diff]. *)
Definition java_report (old_path new_path : list str)
    : result (gmap str (list (Change Java.Definition_))) :=
  old_symbols ← _symbols_for_library JavaRender.classify old_path;
  new_symbols ← _symbols_for_library JavaRender.classify new_path;
  Ok (_changes Java.full old_symbols new_symbols).

(** A file with the given lines. *)
Definition file_of_lines (ls : list string) : str :=
  concat (map (λ l, bytes l ++ NL) ls).

(** The snapshots of the example scenario. *)
Definition widget_old : str :=
  file_of_lines ["public class Widget {"; "public Widget();";
                 "public void draw();"; "}"]%string.

Definition widget_new : str :=
  file_of_lines ["public class Widget {"; "public Widget();";
                 "public void draw(int x);"; "public int color;"; "}"]%string.

Definition widget (kd : Kind) (sg : string) : SymbolId :=
  mkSymbolId (bytes "Widget") kd (bytes sg).

Definition java_definition (full short kind_description : string)
    : Java.Definition_ :=
  Java.mkDefinition (bytes full) (bytes short) (bytes kind_description).

(** A report of two classes whose full names and simple names are in
    opposite orders, the second class with two changes; once for each
    program. *)
Definition two_classes_android : gmap str (list (Change str)) :=
  {[ bytes "b.A" :=
       [Addition (mkSymbolId (bytes "b.A") FIELD (bytes "x"))
          (bytes "public int x");
        Deletion (mkSymbolId (bytes "b.A") METHOD (bytes "run()"))
          (bytes "public void run()")];
     bytes "a.Z" :=
       [Addition (mkSymbolId (bytes "a.Z") KLASS (bytes "a.Z"))
          (bytes "public class a.Z")] ]}.

Definition two_classes_java : gmap str (list (Change Java.Definition_)) :=
  {[ bytes "b.A" :=
       [Addition (mkSymbolId (bytes "b.A") FIELD (bytes "x"))
          (java_definition "public int x" "int x" "field");
        Deletion (mkSymbolId (bytes "b.A") METHOD (bytes "run()"))
          (java_definition "public void run()" "void run()" "method")];
     bytes "a.Z" :=
       [Addition (mkSymbolId (bytes "a.Z") KLASS (bytes "a.Z"))
          (java_definition "public class a.Z" "a.Z" "class")] ]}.

#[global] Instance java_definition_eq_dec : EqDecision Java.Definition_.
Proof. solve_decision. Defined.

(** ** Patterns whose loops make progress *)

(** [r] takes at least one character whenever it matches. *)
Fixpoint consuming (r : regex) : bool :=
  match r with
  | Lit l => match l with [] => false | _ :: _ => true end
  | Cls _ => true
  | Seq r1 r2 => consuming r1 || consuming r2
  | Alt r1 r2 => consuming r1 && consuming r2
  | Star _ | LazyStar _ => false
  | Group _ r' => consuming r'
  end.

(** The body of every loop of [r] takes at least one character. *)
Fixpoint loops_consume (r : regex) : bool :=
  match r with
  | Lit _ | Cls _ => true
  | Seq r1 r2 | Alt r1 r2 => loops_consume r1 && loops_consume r2
  | Star r' | LazyStar r' => consuming r' && loops_consume r'
  | Group _ r' => loops_consume r'
  end.

(** Two continuations give the same answer on every rest shorter than
    [n]. *)
Definition agree_below {R : Type} (n : nat) (k1 k2 : cont (R := R)) : Prop :=
  ∀ s' c', length s' < n → k1 s' c' = k2 s' c'.

(** The patterns of the two programs. *)
Definition all_patterns : list regex :=
  [Java.klass_pattern; Java.method_pattern; Java.constructor_pattern;
   Java.field_pattern; Android.klass_pattern; Android.method_pattern;
   Android.constructor_pattern; Android.field_pattern;
   JavaRender.boundaries; AndroidRender.boundaries].

(** ** Further readings *)

(** A change read backwards: what was added is deleted, and the two
    sides of a modification change places. *)
Definition reverse_change {D} (c : Change D) : Change D :=
  match c with
  | Addition i d => Deletion i d
  | Deletion i d => Addition i d
  | Modification i od nd => Modification i nd od
  end.

(** The strict order of identities, and of changes by their identities. *)
Definition symbol_id_lt (x y : SymbolId) : Prop := symbol_id_compare x y = Lt.

Definition change_lt {D} (c1 c2 : Change D) : Prop :=
  symbol_id_lt (symbol_id_of c1) (symbol_id_of c2).

(** [s] begins with a modifier keyword followed by whitespace. *)
Definition starts_with_modifier (s : str) : Prop :=
  ∃ (w : string) a rest,
    w ∈ modifier_words ∧ is_space a = true ∧ s = bytes w ++ a :: rest.

(** The value that the lines of a file give the symbol of kind [kd] and
    signature [sg]: that of the last line, the final one apart, that is
    classified so.  [n] is the number of lines of the file and [index] the
    number of the first of [lines]. *)
Fixpoint last_definition {D} (classify : str → result (Kind * str * D))
    (n index : nat) (lines : list str) (kd : Kind) (sg : str) : option D :=
  match lines with
  | [] => None
  | line :: rest =>
      match last_definition classify n (S index) rest kd sg with
      | Some d => Some d
      | None =>
          if index =? n - 1 then None
          else
            match classify (definition_text line) with
            | Ok (kd', sg', d) =>
                if bool_decide (kd' = kd ∧ sg' = sg) then Some d else None
            | Raise _ => None
            end
      end
  end.

(** The signature classified from the first line of a file of two lines
    or more: the class of its symbols. *)
Definition declaring_klass {D} (classify : str → result (Kind * str * D))
    (lines : list str) : option str :=
  match lines with
  | first :: _ :: _ =>
      match classify (definition_text first) with
      | Ok (_, sg, _) => Some sg
      | Raise _ => None
      end
  | _ => None
  end.

(** ** What a match consumes

    [steps r s c s' c']: the pattern [r] can take a prefix of [s] and leave
    [s'], turning the groups [c] into [c'].  Every match that the search of
    [rmatch] finds is such a derivation. *)
Inductive steps : regex → str → caps → str → caps → Prop :=
| steps_lit l s c : steps (Lit l) (l ++ s) c s c
| steps_cls (p : ascii → bool) a s c :
    p a = true → steps (Cls p) (a :: s) c s c
| steps_seq r1 r2 s c s1 c1 s2 c2 :
    steps r1 s c s1 c1 → steps r2 s1 c1 s2 c2 → steps (r1 · r2) s c s2 c2
| steps_alt_l r1 r2 s c s' c' : steps r1 s c s' c' → steps (Alt r1 r2) s c s' c'
| steps_alt_r r1 r2 s c s' c' : steps r2 s c s' c' → steps (Alt r1 r2) s c s' c'
| steps_star_end r s c : steps (Star r) s c s c
| steps_star_round r s c s1 c1 s2 c2 :
    steps r s c s1 c1 → steps (Star r) s1 c1 s2 c2 → steps (Star r) s c s2 c2
| steps_lazy_end r s c : steps (LazyStar r) s c s c
| steps_lazy_round r s c s1 c1 s2 c2 :
    steps r s c s1 c1 → steps (LazyStar r) s1 c1 s2 c2 →
    steps (LazyStar r) s c s2 c2
| steps_group i r s c s' c' :
    steps r s c s' c' →
    steps (Group i r) s c s' ((i, take (length s - length s') s) :: c').

(** A pattern without groups. *)
Fixpoint group_free (r : regex) : bool :=
  match r with
  | Lit _ | Cls _ => true
  | Seq r1 r2 | Alt r1 r2 => group_free r1 && group_free r2
  | Star r' | LazyStar r' => group_free r'
  | Group _ _ => false
  end.

(** Every line but the last is classified. *)
Definition lines_classified {D} (classify : str → result (Kind * str * D))
    (lines : list str) : bool :=
  forallb (λ line,
             match classify (definition_text line) with
             | Ok _ => true
             | Raise _ => false
             end)
    (take (length lines - 1) lines).

(** The type of a member, as the lines of a class have it: a word that
    is neither a modifier keyword nor one of the keywords of a type
    declaration. *)
Definition member_type (ty : str) : Prop :=
  word ty
  ∧ Forall (λ w : string, ty ≠ bytes w) (modifier_words ++ klass_words).

(** * Properties *)

(** ** The order *)

Lemma str_compare_antisym s t : str_compare t s = CompOpp (str_compare s t).
Proof.
  revert t. induction s as [|a s IH]; intros [|b t]; simpl; try done.
  rewrite (Nat.compare_antisym (nat_of_ascii a) (nat_of_ascii b)).
  destruct (nat_of_ascii a ?= nat_of_ascii b); simpl; auto.
Qed.

Lemma str_compare_refl s : str_compare s s = Eq.
Proof. induction s as [|a s IH]; simpl; [done|]. by rewrite Nat.compare_refl. Qed.

Lemma str_compare_eq s t : str_compare s t = Eq → s = t.
Proof.
  revert t. induction s as [|a s IH]; intros [|b t]; simpl; try done.
  destruct (nat_of_ascii a ?= nat_of_ascii b) eqn:E; try done.
  intros H. apply Nat.compare_eq in E.
  f_equal; [|by apply IH].
  rewrite <- (ascii_nat_embedding a), <- (ascii_nat_embedding b). by rewrite E.
Qed.

Lemma str_compare_trans s t u :
  str_compare s t ≠ Gt → str_compare t u ≠ Gt → str_compare s u ≠ Gt.
Proof.
  revert t u. induction s as [|a s IH]; intros [|b t] [|c u]; simpl; try done.
  destruct (nat_of_ascii a ?= nat_of_ascii b) eqn:E1;
    destruct (nat_of_ascii b ?= nat_of_ascii c) eqn:E2; try done.
  - apply Nat.compare_eq in E1, E2. rewrite E1, E2, Nat.compare_refl. apply IH.
  - apply Nat.compare_eq in E1. rewrite E1, E2. done.
  - apply Nat.compare_eq in E2. rewrite <- E2, E1. done.
  - apply Nat.compare_lt_iff in E1, E2.
    assert ((nat_of_ascii a ?= nat_of_ascii c) = Lt) as ->; [|done].
    apply Nat.compare_lt_iff. lia.
Qed.

#[global] Instance str_le_total : Total str_le.
Proof.
  intros s t. unfold str_le. rewrite (str_compare_antisym s t).
  destruct (str_compare s t); simpl; auto.
Qed.

#[global] Instance str_le_trans : Transitive str_le.
Proof. intros s t u. apply str_compare_trans. Qed.

#[global] Instance str_le_antisym : AntiSymm (=) str_le.
Proof.
  intros s t H1 H2. unfold str_le in *. rewrite (str_compare_antisym s t) in H2.
  apply str_compare_eq. destruct (str_compare s t); simpl in *; done.
Qed.

Lemma str_compare_lt_trans s t u :
  str_compare s t = Lt → str_compare t u = Lt → str_compare s u = Lt.
Proof.
  revert t u. induction s as [|a s IH]; intros [|b t] [|c u]; simpl; try done.
  destruct (nat_of_ascii a ?= nat_of_ascii b) eqn:E1;
    destruct (nat_of_ascii b ?= nat_of_ascii c) eqn:E2; try done.
  - apply Nat.compare_eq in E1, E2. rewrite E1, E2, Nat.compare_refl. apply IH.
  - apply Nat.compare_eq in E1. by rewrite E1, E2.
  - apply Nat.compare_eq in E2. by rewrite <- E2, E1.
  - apply Nat.compare_lt_iff in E1, E2.
    assert ((nat_of_ascii a ?= nat_of_ascii c) = Lt) as ->; [|done].
    apply Nat.compare_lt_iff. lia.
Qed.

Lemma kind_value_inj k1 k2 : kind_value k1 = kind_value k2 → k1 = k2.
Proof. by destruct k1, k2. Qed.

Lemma symbol_id_compare_antisym x y :
  symbol_id_compare y x = CompOpp (symbol_id_compare x y).
Proof.
  unfold symbol_id_compare.
  rewrite (str_compare_antisym (klass x) (klass y)).
  rewrite (Nat.compare_antisym (kind_value (kind x)) (kind_value (kind y))).
  rewrite (str_compare_antisym (signature x) (signature y)).
  destruct (str_compare (klass x) (klass y)); simpl; try done.
  destruct (kind_value (kind x) ?= kind_value (kind y)); done.
Qed.

Lemma symbol_id_compare_eq x y : symbol_id_compare x y = Eq → x = y.
Proof.
  destruct x as [k1 n1 s1], y as [k2 n2 s2]. unfold symbol_id_compare. simpl.
  destruct (str_compare k1 k2) eqn:E1; try done.
  destruct (kind_value n1 ?= kind_value n2) eqn:E2; try done.
  intros E3. apply str_compare_eq in E1, E3.
  apply Nat.compare_eq, kind_value_inj in E2. by subst.
Qed.

Lemma symbol_id_compare_lt_trans x y z :
  symbol_id_compare x y = Lt → symbol_id_compare y z = Lt →
  symbol_id_compare x z = Lt.
Proof.
  destruct x as [k1 n1 s1], y as [k2 n2 s2], z as [k3 n3 s3].
  unfold symbol_id_compare. simpl.
  destruct (str_compare k1 k2) eqn:E1; try done;
    destruct (str_compare k2 k3) eqn:E2; try done.
  - apply str_compare_eq in E1, E2. subst. rewrite str_compare_refl.
    destruct (kind_value n1 ?= kind_value n2) eqn:F1; try done;
      destruct (kind_value n2 ?= kind_value n3) eqn:F2; try done.
    + apply Nat.compare_eq in F1, F2. rewrite F1, F2, Nat.compare_refl.
      apply str_compare_lt_trans.
    + apply Nat.compare_eq in F1. by rewrite F1, F2.
    + apply Nat.compare_eq in F2. by rewrite <- F2, F1.
    + apply Nat.compare_lt_iff in F1, F2.
      assert ((kind_value n1 ?= kind_value n3) = Lt) as ->; [|done].
      apply Nat.compare_lt_iff. lia.
  - apply str_compare_eq in E1. subst. by rewrite E2.
  - apply str_compare_eq in E2. subst. by rewrite E1.
  - by rewrite (str_compare_lt_trans _ _ _ E1 E2).
Qed.

#[global] Instance symbol_id_le_total : Total symbol_id_le.
Proof.
  intros x y. unfold symbol_id_le. rewrite (symbol_id_compare_antisym x y).
  destruct (symbol_id_compare x y); simpl; auto.
Qed.

#[global] Instance symbol_id_le_antisym : AntiSymm (=) symbol_id_le.
Proof.
  intros x y H1 H2. unfold symbol_id_le in *.
  rewrite (symbol_id_compare_antisym x y) in H2.
  apply symbol_id_compare_eq. destruct (symbol_id_compare x y); simpl in *; done.
Qed.

#[global] Instance symbol_id_le_trans : Transitive symbol_id_le.
Proof.
  intros x y z H1 H2. unfold symbol_id_le in *.
  destruct (symbol_id_compare x y) eqn:E1; [|clear H1|done].
  { apply symbol_id_compare_eq in E1. by subst. }
  destruct (symbol_id_compare y z) eqn:E2; [|clear H2|done].
  { apply symbol_id_compare_eq in E2. subst. by rewrite E1. }
  by rewrite (symbol_id_compare_lt_trans _ _ _ E1 E2).
Qed.

(** [sorted] gives the same list whatever the order in which a set or a
    dictionary yields its elements. *)
Lemma sorted_ids_order_independent l1 l2 :
  l1 ≡ₚ l2 → sorted_ids l1 = sorted_ids l2.
Proof.
  intros Hperm. apply (StronglySorted_unique symbol_id_le).
  - apply StronglySorted_merge_sort; apply _.
  - apply StronglySorted_merge_sort; apply _.
  - unfold sorted_ids. by rewrite !merge_sort_Permutation.
Qed.

#[global] Instance item_le_total {V} : Total (@item_le V).
Proof. intros x y. apply str_le_total. Qed.

#[global] Instance item_le_trans {V} : Transitive (@item_le V).
Proof. intros x y z. apply str_le_trans. Qed.

Lemma sorted_items_perm {V} (d : gmap str V) :
  sorted_items d ≡ₚ map_to_list d.
Proof. apply merge_sort_Permutation. Qed.

Lemma sorted_items_sorted {V} (d : gmap str V) :
  StronglySorted item_le (sorted_items d).
Proof. apply StronglySorted_merge_sort; apply _. Qed.

Lemma sorted_items_order_independent {V} (d : gmap str V) l :
  l ≡ₚ map_to_list d → merge_sort item_le l = sorted_items d.
Proof.
  intros Hperm. apply (StronglySorted_unique_strong item_le).
  - intros [k1 v1] [k2 v2] H1 H2 Hle1 Hle2.
    rewrite merge_sort_Permutation, Hperm in H1.
    rewrite sorted_items_perm in H2.
    apply elem_of_map_to_list in H1, H2.
    assert (k1 = k2) as -> by by apply (anti_symm str_le).
    f_equal. congruence.
  - apply StronglySorted_merge_sort; apply _.
  - apply sorted_items_sorted.
  - by rewrite merge_sort_Permutation, sorted_items_perm.
Qed.

Lemma sorted_ids_perm l : sorted_ids l ≡ₚ l.
Proof. apply merge_sort_Permutation. Qed.

(** ** Diff engine *)

Section DiffFacts.
Context {D : Type}.
Variable full_text : D → str.
Implicit Types (report : gmap str (list (Change D))) (c : Change D).

Lemma foldl_append_change_lookup report (l : list (Change D)) k :
  default [] (foldl append_change report l !! k)
  = default [] (report !! k) ++ filter (λ c, klass (symbol_id_of c) = k) l.
Proof.
  revert report. induction l as [|c l IH]; intros report.
  - by rewrite app_nil_r.
  - cbn [foldl]. rewrite IH. unfold append_change at 1.
    rewrite filter_cons.
    destruct (decide (klass (symbol_id_of c) = k)) as [<-|Hne].
    + rewrite lookup_insert_eq. simpl. by rewrite <- app_assoc.
    + by rewrite lookup_insert_ne.
Qed.

Lemma filter_omap_symbol_id (f : SymbolId → option (Change D)) l i :
  NoDup l →
  (∀ j c, f j = Some c → symbol_id_of c = j) →
  filter (λ c, symbol_id_of c = i) (omap f l)
  = if decide (i ∈ l) then option_list (f i) else [].
Proof.
  intros Hnd Hf. induction Hnd as [|j l Hj Hnd IH].
  - by rewrite decide_False by apply not_elem_of_nil.
  - cbn [omap list_omap]. destruct (f j) as [c|] eqn:Hfj.
    + pose proof (Hf _ _ Hfj) as Hc.
      destruct (decide (j = i)) as [->|Hne].
      * rewrite filter_cons_True by done. rewrite IH.
        rewrite decide_False by done.
        rewrite decide_True by left. by rewrite Hfj.
      * rewrite filter_cons_False by congruence. rewrite IH.
        destruct (decide (i ∈ l)) as [Hin|Hin].
        -- by rewrite decide_True by (by right).
        -- rewrite decide_False; [done|].
           intros [->|?]%elem_of_cons; done.
    + rewrite IH. destruct (decide (j = i)) as [->|Hne].
      * rewrite decide_False by done. rewrite decide_True by left.
        by rewrite Hfj.
      * destruct (decide (i ∈ l)) as [Hin|Hin].
        -- by rewrite decide_True by (by right).
        -- rewrite decide_False; [done|].
           intros [->|?]%elem_of_cons; done.
Qed.

Lemma sorted_filter_keys_NoDup (m : gmap SymbolId D) (P : SymbolId → Prop)
    `{!∀ i, Decision (P i)} :
  NoDup (sorted_ids (filter P (elements (dom m)))).
Proof.
  rewrite sorted_ids_perm. apply NoDup_filter, NoDup_elements.
Qed.

Lemma elem_of_sorted_filter_keys (m : gmap SymbolId D) (P : SymbolId → Prop)
    `{!∀ i, Decision (P i)} i :
  i ∈ sorted_ids (filter P (elements (dom m))) ↔ P i ∧ is_Some (m !! i).
Proof.
  rewrite sorted_ids_perm, list_elem_of_filter, elem_of_elements, elem_of_dom.
  done.
Qed.

Lemma changes_as_fold old_symbols new_symbols :
  _changes full_text old_symbols new_symbols
  = foldl append_change ∅ (all_changes full_text old_symbols new_symbols).
Proof. unfold _changes, all_changes. by rewrite !foldl_app. Qed.

Lemma all_changes_about old_symbols new_symbols i :
  filter (λ c, symbol_id_of c = i)
    (all_changes full_text old_symbols new_symbols)
  = expected_changes full_text old_symbols new_symbols i.
Proof.
  unfold all_changes, additions, deletions, modifications.
  rewrite !filter_app.
  rewrite !filter_omap_symbol_id.
  2,4,6: apply sorted_filter_keys_NoDup.
  - unfold expected_changes.
    repeat case_decide;
      repeat match goal with
      | H : _ ∈ sorted_ids _ |- _ =>
          apply elem_of_sorted_filter_keys in H as [? ?]
      | H : ¬ (_ ∈ sorted_ids _) |- _ =>
          rewrite elem_of_sorted_filter_keys in H
      end;
      repeat match goal with
      | H : context [_ ∈ dom _] |- _ => rewrite elem_of_dom in H
      | H : context [_ ∉ dom _] |- _ => rewrite not_elem_of_dom in H
      end;
      destruct (old_symbols !! i) as [od|] eqn:Ho;
      destruct (new_symbols !! i) as [nd|] eqn:Hn; simpl;
      try done; try (exfalso; naive_solver).
    + destruct (decide (full_text od = full_text nd)).
      * by rewrite bool_decide_eq_false_2 by naive_solver.
      * by rewrite bool_decide_eq_true_2.
  - intros j c Hc. destruct (old_symbols !! j); simpl in Hc; [|done].
    destruct (new_symbols !! j); simpl in Hc; [|done].
    case_bool_decide; by simplify_eq.
  - intros j c Hc. destruct (old_symbols !! j); simpl in Hc; by simplify_eq.
  - intros j c Hc. destruct (new_symbols !! j); simpl in Hc; by simplify_eq.
Qed.

Lemma changes_about_spec old_symbols new_symbols i :
  changes_about (_changes full_text old_symbols new_symbols) i
  = expected_changes full_text old_symbols new_symbols i.
Proof.
  unfold changes_about.
  rewrite changes_as_fold, foldl_append_change_lookup, lookup_empty. simpl.
  rewrite <- all_changes_about.
  rewrite list_filter_filter. apply list_filter_iff.
  intros c. split; [by intros [? _] | by intros <-].
Qed.

Lemma changes_filed_by_class old_symbols new_symbols :
  filed_by_class (_changes full_text old_symbols new_symbols).
Proof.
  intros k cs c Hk Hc.
  pose proof (foldl_append_change_lookup ∅
                (all_changes full_text old_symbols new_symbols) k) as H.
  rewrite <- changes_as_fold, Hk, lookup_empty in H. simpl in H. subst cs.
  by apply list_elem_of_filter in Hc as [? _].
Qed.

Lemma all_changes_same symbols :
  all_changes full_text symbols symbols = [].
Proof.
  apply elem_of_nil_inv. intros c Hc.
  assert (c ∈ filter (λ c', symbol_id_of c' = symbol_id_of c)
                (all_changes full_text symbols symbols)) as Hin.
  { by apply list_elem_of_filter. }
  rewrite all_changes_about in Hin. unfold expected_changes in Hin.
  destruct (symbols !! symbol_id_of c); [|by apply elem_of_nil in Hin].
  rewrite decide_True in Hin by done. by apply elem_of_nil in Hin.
Qed.

Lemma changes_same symbols : _changes full_text symbols symbols = ∅.
Proof. by rewrite changes_as_fold, all_changes_same. Qed.
End DiffFacts.

(** ** Snapshot parser *)

Section ParserFacts.
Context {D : Type}.
Variable classify : str → result (Kind * str * D).
Implicit Types (symbols T : gmap SymbolId D) (lines : list str).

Lemma symbols_loop_cons n index line rest symbols klass :
  symbols_loop classify n index (line :: rest) symbols klass
  = if index =? n - 1 then symbols_loop classify n (S index) rest symbols klass
    else
      '(kind, signature, d) ← classify (definition_text line);
      let klass := if index =? 0 then Some signature else klass in
      match klass with
      | Some kl =>
          symbols_loop classify n (S index) rest
            (<[mkSymbolId kl kind signature := d]> symbols) klass
      | None => Raise KlassUnbound
      end.
Proof. done. Qed.

#[local] Arguments symbols_loop : simpl never.

(** Past the first line the class name is fixed: every key added bears
    it, and no key is lost. *)
Lemma symbols_loop_tail n index lines symbols kl T :
  0 < index →
  symbols_loop classify n index lines symbols (Some kl) = Ok T →
  (∀ i, is_Some (symbols !! i) → is_Some (T !! i))
  ∧ (∀ i, is_Some (T !! i) → is_Some (symbols !! i) ∨ klass i = kl).
Proof.
  revert index symbols. induction lines as [|line rest IH];
    intros index symbols Hpos Hloop.
  - injection Hloop as <-. auto.
  - rewrite symbols_loop_cons in Hloop. destruct (index =? n - 1).
    { apply IH in Hloop; [done|lia]. }
    destruct (classify (definition_text line)) as [[[kd sg] d]|e];
      simpl in Hloop; [|done].
    destruct (Nat.eqb_spec index 0) as [->|_]; [lia|].
    apply IH in Hloop as [Hkeep Hnew]; [|lia]. split.
    + intros i Hi. apply Hkeep.
      destruct (decide (mkSymbolId kl kd sg = i)) as [<-|Hne].
      * rewrite lookup_insert_eq. eauto.
      * by rewrite lookup_insert_ne.
    + intros i Hi. apply Hnew in Hi as [Hi|Hi]; [|by right].
      destruct (decide (mkSymbolId kl kd sg = i)) as [<-|Hne].
      * by right.
      * rewrite lookup_insert_ne in Hi by done. by left.
Qed.

(** The class of every key is the signature of the first line, whose own
    entry is in the table. *)
Lemma symbols_for_lines_klass lines T :
  symbols_for_lines classify lines = Ok T →
  (∀ i, is_Some (T !! i) →
     ∃ first rest kd sg d,
       lines = first :: rest
       ∧ classify (definition_text first) = Ok (kd, sg, d)
       ∧ klass i = sg)
  ∧ (∀ first rest kd sg d,
       lines = first :: rest → rest ≠ [] →
       classify (definition_text first) = Ok (kd, sg, d) →
       is_Some (T !! mkSymbolId sg kd sg)).
Proof.
  unfold symbols_for_lines. destruct lines as [|first rest].
  { intros [= <-]. split; [|done]. intros i [? Hi]. by rewrite lookup_empty in Hi. }
  destruct rest as [|second rest].
  { intros [= <-]. split.
    - intros i [? Hi]. by rewrite lookup_empty in Hi.
    - by intros ????? [= <- <-] ?. }
  rewrite symbols_loop_cons.
  change (0 =? length (first :: second :: rest) - 1) with false.
  cbn iota.
  destruct (classify (definition_text first)) as [[[kd sg] d]|e] eqn:Hfirst;
    [|done].
  intros Hloop. simpl in Hloop.
  apply symbols_loop_tail in Hloop as [Hkeep Hnew]; [|lia]. split.
  - intros i Hi. exists first, (second :: rest), kd, sg, d.
    split_and!; [done..|].
    apply Hnew in Hi as [Hi|Hi]; [|done].
    destruct (decide (mkSymbolId sg kd sg = i)) as [<-|Hne]; [done|].
    rewrite lookup_insert_ne, lookup_empty in Hi by done. by destruct Hi.
  - intros f0 r0 kd0 sg0 d0 [= <- <-] _ Hc. rewrite Hfirst in Hc.
    simplify_eq. apply Hkeep. rewrite lookup_insert_eq. eauto.
Qed.

(** A line that is not the last and does not classify ends the loop with
    an exception. *)
Lemma symbols_loop_bad_line n index lines symbols klass m line e :
  lines !! m = Some line →
  index + m ≠ n - 1 →
  classify (definition_text line) = Raise e →
  ∃ e', symbols_loop classify n index lines symbols klass = Raise e'.
Proof.
  revert index symbols klass m.
  induction lines as [|l0 rest IH]; intros index symbols klass m Hm Hne He;
    [done|].
  rewrite symbols_loop_cons. destruct m as [|m]; simpl in Hm.
  - injection Hm as ->.
    rewrite (proj2 (Nat.eqb_neq index (n - 1))) by lia.
    rewrite He. eauto.
  - destruct (index =? n - 1).
    { apply (IH _ _ _ m); [done|lia|done]. }
    destruct (classify (definition_text l0)) as [[[kd sg] d]|e0];
      simpl; [|eauto].
    destruct (if index =? 0 then Some sg else klass); [|eauto].
    apply (IH _ _ _ m); [done|lia|done].
Qed.

Lemma symbols_for_lines_bad_line lines m line e :
  lines !! m = Some line →
  m ≠ length lines - 1 →
  classify (definition_text line) = Raise e →
  ∃ e', symbols_for_lines classify lines = Raise e'.
Proof. intros. by eapply symbols_loop_bad_line. Qed.

Hypothesis classify_raises : raises_parse_errors_only classify.

(** [KlassUnbound] is never raised: the first line classified binds
    [klass]. *)
Lemma symbols_loop_klass_bound n index lines symbols klass e :
  n = index + length lines →
  index = 0 ∨ is_Some klass →
  symbols_loop classify n index lines symbols klass = Raise e →
  ∃ t, e = CouldNotParse t.
Proof.
  revert index symbols klass. induction lines as [|line rest IH];
    intros index symbols klass Hn Hk; [done|].
  rewrite symbols_loop_cons. simpl in Hn.
  destruct (Nat.eqb_spec index (n - 1)) as [Hlast|Hlast].
  { destruct rest as [|l2 rest]; [done|]. simpl in Hn. lia. }
  destruct (classify (definition_text line)) as [[[kd sg] d]|e0] eqn:Hc;
    simpl.
  - destruct (Nat.eqb_spec index 0) as [->|Hne].
    + apply IH; [lia|]. right. eauto.
    + destruct Hk as [?|[kl ->]]; [done|].
      apply IH; [lia|]. right. eauto.
  - intros [= <-]. by eapply classify_raises.
Qed.

Lemma symbols_for_klass_raises content e :
  _symbols_for_klass classify content = Raise e → ∃ t, e = CouldNotParse t.
Proof. apply symbols_loop_klass_bound; [done|by left]. Qed.

(** *** The library loop *)

Lemma library_loop_cons file rest symbols :
  library_loop classify (file :: rest) symbols
  = t ← _symbols_for_klass classify file;
    library_loop classify rest (t ∪ symbols).
Proof. done. Qed.

Lemma library_loop_raises files symbols e :
  library_loop classify files symbols = Raise e →
  ∃ f, f ∈ files ∧ _symbols_for_klass classify f = Raise e.
Proof.
  revert symbols. induction files as [|file rest IH]; intros symbols; [done|].
  rewrite library_loop_cons.
  destruct (_symbols_for_klass classify file) as [t|e0] eqn:Hf; simpl.
  - intros (f & ? & ?)%IH. exists f. split; [by right|done].
  - intros [= <-]. exists file. split; [left|done].
Qed.

Lemma library_loop_bad_file files symbols f e :
  f ∈ files → _symbols_for_klass classify f = Raise e →
  ∃ e', library_loop classify files symbols = Raise e'.
Proof.
  revert symbols. induction files as [|file rest IH]; intros symbols Hf He.
  { by apply elem_of_nil in Hf. }
  rewrite library_loop_cons.
  destruct (_symbols_for_klass classify file) as [t|e0] eqn:Hfile; simpl;
    [|eauto].
  apply elem_of_cons in Hf as [->|Hf]; [congruence|]. by apply IH.
Qed.

(** Where an entry of the library table comes from. *)
Lemma library_loop_lookup files symbols T i d :
  library_loop classify files symbols = Ok T →
  T !! i = Some d →
  symbols !! i = Some d
  ∨ ∃ f t, f ∈ files ∧ _symbols_for_klass classify f = Ok t
           ∧ t !! i = Some d.
Proof.
  revert symbols. induction files as [|file rest IH]; intros symbols.
  { intros [= <-]. auto. }
  rewrite library_loop_cons.
  destruct (_symbols_for_klass classify file) as [t|e0] eqn:Hfile; simpl;
    [|done].
  intros Hloop Hi. destruct (IH _ Hloop Hi) as [Hu|(f & t' & ? & ? & ?)].
  - apply lookup_union_Some_raw in Hu as [Hu|[_ Hu]]; [|by left].
    right. exists file, t. split; [left|done].
  - right. exists f, t'. split; [by right|done].
Qed.

(** When all files agree on [i], any file that defines it decides the
    entry of the table. *)
Lemma library_loop_lookup_agreed files symbols T i d :
  library_loop classify files symbols = Ok T →
  (∀ f t d', f ∈ files → _symbols_for_klass classify f = Ok t →
             t !! i = Some d' → d' = d) →
  (symbols !! i = Some d
   ∨ ∃ f t, f ∈ files ∧ _symbols_for_klass classify f = Ok t
            ∧ t !! i = Some d) →
  T !! i = Some d.
Proof.
  revert symbols. induction files as [|file rest IH]; intros symbols.
  { intros [= <-] _ [?|(f & ? & Hf & _)]; [done|by apply elem_of_nil in Hf]. }
  rewrite library_loop_cons.
  destruct (_symbols_for_klass classify file) as [t|e0] eqn:Hfile; simpl;
    [|done].
  intros Hloop Hagree Hsrc. apply (IH _ Hloop).
  { intros f t' d' Hf. apply Hagree. by right. }
  destruct Hsrc as [Hs|(f & t' & Hf & Hparse & Hi)].
  - left. apply lookup_union_Some_raw.
    destruct (t !! i) as [d'|] eqn:Ht; [|by right].
    left. f_equal. apply (Hagree file t); [left|done..].
  - apply elem_of_cons in Hf as [->|Hf].
    + left. apply lookup_union_Some_raw. left. congruence.
    + right. eauto.
Qed.

(** The table of a snapshot does not depend on the order of its files
    when they are consistent. *)
Lemma symbols_for_library_perm files1 files2 T1 T2 :
  files1 ≡ₚ files2 → consistent classify files1 →
  _symbols_for_library classify files1 = Ok T1 →
  _symbols_for_library classify files2 = Ok T2 →
  T1 = T2.
Proof.
  intros Hperm Hcons H1 H2.
  assert (∀ i d, T1 !! i = Some d → T2 !! i = Some d) as H12.
  { intros i d Hi.
    destruct (library_loop_lookup _ _ _ _ _ H1 Hi) as [Hi'|(f & t & Hf & Ht & Hd)].
    { by rewrite lookup_empty in Hi'. }
    apply (library_loop_lookup_agreed _ _ _ _ _ H2).
    - intros g tg d' Hg Htg Hd'. rewrite <- Hperm in Hg.
      by apply (Hcons g f tg t Hg Hf Htg Ht i d' d).
    - right. exists f, t. by rewrite <- Hperm. }
  assert (∀ i d, T2 !! i = Some d → T1 !! i = Some d) as H21.
  { intros i d Hi.
    destruct (library_loop_lookup _ _ _ _ _ H2 Hi) as [Hi'|(f & t & Hf & Ht & Hd)].
    { by rewrite lookup_empty in Hi'. }
    rewrite <- Hperm in Hf.
    apply (library_loop_lookup_agreed _ _ _ _ _ H1).
    - intros g tg d' Hg Htg Hd'.
      by apply (Hcons g f tg t Hg Hf Htg Ht i d' d).
    - right. by exists f, t. }
  apply map_eq. intros i.
  destruct (T1 !! i) as [d|] eqn:E1.
  - symmetry. by apply H12.
  - destruct (T2 !! i) as [d|] eqn:E2; [|done].
    apply H21 in E2. congruence.
Qed.

Lemma symbols_for_library_perm_raises files1 files2 e :
  files1 ≡ₚ files2 →
  _symbols_for_library classify files1 = Raise e →
  ∃ e', _symbols_for_library classify files2 = Raise e'.
Proof.
  intros Hperm (f & Hf & He)%library_loop_raises.
  rewrite Hperm in Hf. by eapply library_loop_bad_file.
Qed.
End ParserFacts.

(** ** The matcher on the shapes the patterns meet *)

Lemma strip_prefix_app l s : strip_prefix l (l ++ s) = Some s.
Proof.
  induction l as [|a l IH]; simpl; [done|]. by rewrite Ascii.eqb_refl.
Qed.

Lemma take_consumed (a b : str) : take (length (a ++ b) - length b) (a ++ b) = a.
Proof.
  rewrite length_app, Nat.add_sub. by rewrite take_app_length.
Qed.

Section MatcherFacts.
Context {R : Type}.
Implicit Types (k : cont (R := R)) (c : caps) (s w : str).

Lemma rmatch_lit_app l s c k : rmatch (Lit l) (l ++ s) c k = k s c.
Proof. simpl. by rewrite strip_prefix_app. Qed.

Lemma rmatch_group i r s c k :
  rmatch (Group i r) s c k
  = rmatch r s c (λ s' c', k s' ((i, take (length s - length s') s) :: c')).
Proof. done. Qed.

Lemma rmatch_seq r1 r2 s c k :
  rmatch (r1 · r2) s c k = rmatch r1 s c (λ s' c', rmatch r2 s' c' k).
Proof. done. Qed.

(** A greedy loop over a character class runs to the end of the run of
    the class; when the rest of the pattern matches there, that is the
    match. *)
Lemma star_loop_cls p w s c k n x :
  Forall (λ a, p a = true) w → stops p s → length w ≤ n →
  k s c = Some x →
  star_loop (rmatch (Cls p)) k n (w ++ s) c = Some x.
Proof.
  intros Hw Hs. revert n. induction Hw as [|a w Ha Hw IH]; intros n Hn Hk.
  - destruct n as [|n]; simpl; [done|].
    destruct s as [|b s]; [done|]. simpl in Hs. by rewrite Hs.
  - destruct n as [|n]; simpl in *; [lia|].
    rewrite Ha, IH; [done|lia|done].
Qed.

Lemma rmatch_star_cls p w s c k x :
  Forall (λ a, p a = true) w → stops p s → k s c = Some x →
  rmatch (Star (Cls p)) (w ++ s) c k = Some x.
Proof.
  intros. simpl. apply star_loop_cls; [done..| |done].
  rewrite length_app. lia.
Qed.

Lemma rmatch_plus_cls p w s c k x :
  w ≠ [] → Forall (λ a, p a = true) w → stops p s → k s c = Some x →
  rmatch (Plus (Cls p)) (w ++ s) c k = Some x.
Proof.
  intros Hne Hw Hs Hk. destruct Hw as [|a w Ha Hw]; [done|].
  unfold Plus. rewrite rmatch_seq. cbn [rmatch app]. rewrite Ha.
  by apply (rmatch_star_cls p w s c k x).
Qed.

Lemma rmatch_spaces sp s c k x :
  spaces sp → stops is_space s → k s c = Some x →
  rmatch (Plus ws) (sp ++ s) c k = Some x.
Proof. intros [? ?]. by apply rmatch_plus_cls. Qed.

Lemma rmatch_word_group i w s c k x :
  word w → trailing_clause s → k s ((i, w) :: c) = Some x →
  rmatch (Group i (Plus nws)) (w ++ s) c k = Some x.
Proof.
  intros [Hne Hw] Hs Hk. rewrite rmatch_group.
  apply rmatch_plus_cls; [done| | |by rewrite take_consumed].
  - eapply Forall_impl; [exact Hw|]. by intros a ->.
  - destruct s as [|a s]; [done|]. simpl in *. by rewrite Hs.
Qed.

(** *** Modifiers *)

Lemma rmatch_one_modifier (m : string) sp s c k x :
  m ∈ modifier_words → spaces sp → stops is_space s →
  k s c = Some x →
  rmatch one_modifier (bytes m ++ sp ++ s) c k = Some x.
Proof.
  intros Hw Hsp Hs Hk.
  assert (rmatch (Plus ws) (sp ++ s) c k = Some x) as Hrun
    by by apply rmatch_spaces.
  unfold one_modifier, modifier_words in *. cbn [map alts].
  revert Hrun. generalize (Plus ws). intros pw Hrun.
  repeat (apply elem_of_cons in Hw as [->|Hw]; [cbn; by rewrite Hrun|]).
  by apply elem_of_nil in Hw.
Qed.

Lemma modifier_word_stops (m : string) s :
  m ∈ modifier_words → stops is_space (bytes m ++ s).
Proof.
  intros Hw. unfold modifier_words in Hw.
  repeat (apply elem_of_cons in Hw as [->|Hw]; [done|]).
  by apply elem_of_nil in Hw.
Qed.

Lemma modifier_run_stops m s : modifier_run m → stops is_space (m ++ s).
Proof.
  intros [w sp Hw _|w sp m' Hw _ _]; rewrite <- app_assoc;
    by apply modifier_word_stops.
Qed.

Lemma star_loop_blocked s c k n x :
  blocked (R := R) s → k s c = Some x →
  star_loop (rmatch one_modifier) k n s c = Some x.
Proof. intros Hb Hk. destruct n; cbn [star_loop]; [done|]. by rewrite Hb. Qed.

Lemma star_loop_modifiers m s c k n x :
  modifier_run m → blocked (R := R) s → stops is_space s → length m ≤ n →
  k s c = Some x →
  star_loop (rmatch one_modifier) k n (m ++ s) c = Some x.
Proof.
  intros Hm Hb Hs. revert n.
  induction Hm as [w sp Hw Hsp|w sp m' Hw Hsp Hm IH]; intros n Hn Hk.
  - destruct n as [|n]; [rewrite length_app in Hn; destruct Hsp as [? _];
                         destruct sp; simpl in *; [done|lia]|].
    cbn [star_loop]. rewrite <- app_assoc.
    rewrite (rmatch_one_modifier w sp s c _ x); auto.
    by apply star_loop_blocked.
  - destruct n as [|n]; [rewrite length_app in Hn; destruct Hsp as [? _];
                         destruct sp; simpl in *; [done|lia]|].
    cbn [star_loop]. rewrite <- !app_assoc.
    rewrite (rmatch_one_modifier w sp (m' ++ s) c _ x); auto.
    + by apply modifier_run_stops.
    + apply IH; [|done]. rewrite !length_app in Hn.
      assert (0 < length sp); [|lia].
      destruct Hsp as [? _]. destruct sp; simpl; [done|lia].
Qed.

(** The modifiers of a line are taken in full when no further modifier
    follows them and the rest of the pattern matches what does. *)
Lemma rmatch_modifiers m s c k x :
  modifier_run m → blocked (R := R) s → stops is_space s →
  k s c = Some x →
  rmatch modifiers (m ++ s) c k = Some x.
Proof.
  intros Hm Hb Hs Hk. unfold modifiers, Plus. rewrite rmatch_seq.
  destruct Hm as [w sp Hw Hsp|w sp m' Hw Hsp Hm].
  - rewrite <- app_assoc. apply rmatch_one_modifier; auto.
    cbn [rmatch]. by apply star_loop_blocked.
  - rewrite <- !app_assoc. apply rmatch_one_modifier; auto.
    + by apply modifier_run_stops.
    + cbn [rmatch]. apply star_loop_modifiers; auto.
      rewrite length_app. lia.
Qed.

Lemma klass_word_blocked (kw : string) s :
  kw ∈ klass_words →
  blocked (R := R) (bytes kw ++ s) ∧ stops is_space (bytes kw ++ s).
Proof.
  intros Hw. unfold klass_words in Hw.
  repeat (apply elem_of_cons in Hw as [->|Hw]; [by split|]).
  by apply elem_of_nil in Hw.
Qed.

Lemma up_to_newline_split s :
  ∃ rest, s = up_to_newline s ++ rest
          ∧ Forall (λ a, negb (Ascii.eqb a LF) = true) (up_to_newline s)
          ∧ stops (λ a, negb (Ascii.eqb a LF)) rest.
Proof.
  induction s as [|a s (rest & Hs & Hall & Hstop)]; simpl.
  - by exists [].
  - destruct (Ascii.eqb a LF) eqn:Ha.
    + exists (a :: s). split_and!; [done|done|]. simpl. by rewrite Ha.
    + exists rest. split_and!; [simpl; by f_equal| |done].
      constructor; [by rewrite Ha|done].
Qed.

(** A greedy run of [.] takes the text up to the first newline. *)
Lemma rmatch_rest_of_line_group i s c k x :
  (∀ s', k s' ((i, up_to_newline s) :: c) = Some x) →
  rmatch (Group i (Star dot)) s c k = Some x.
Proof.
  intros Hk. rewrite rmatch_group.
  destruct (up_to_newline_split s) as (rest & Hs & Hall & Hstop).
  remember (up_to_newline s) as u eqn:Hu. clear Hu. subst s.
  apply rmatch_star_cls; [done..|]. by rewrite take_consumed.
Qed.

Lemma rmatch_rest_of_line s c k x :
  (∀ s', k s' c = Some x) → rmatch (Star dot) s c k = Some x.
Proof.
  intros Hk.
  destruct (up_to_newline_split s) as (rest & Hs & Hall & Hstop).
  rewrite Hs. by apply rmatch_star_cls.
Qed.
End MatcherFacts.

Lemma up_to_newline_id s : LF ∉ s → up_to_newline s = s.
Proof.
  induction s as [|a s IH]; simpl; [done|]. intros Hs.
  destruct (Ascii.eqb_spec a LF) as [->|_].
  - exfalso. apply Hs. left.
  - f_equal. apply IH. intros ?. apply Hs. by right.
Qed.

(** ** The loops of the matcher never lack rounds

    [rmatch] runs a loop for at most as many rounds as the input has
    characters.  When the body of a loop takes a character in each round
    this bound is never felt: the loop then satisfies the equation of
    backtracking repetition, one more round first for [r*], the rest of the
    pattern first for [r*?]. *)

Lemma strip_prefix_length l s s' :
  strip_prefix l s = Some s' → length s = length l + length s'.
Proof.
  revert s. induction l as [|a l IH]; intros s; simpl.
  - by intros [= ->].
  - destruct s as [|b s]; [done|]. destruct (Ascii.eqb a b); [|done].
    intros H. apply IH in H. simpl. lia.
Qed.

Section MatcherAdequacy.
Context {R : Type}.
Implicit Types (k : cont (R := R)) (c : caps) (s : str).

Lemma star_loop_local (step : str → caps → cont (R := R) → option R) k1 k2 n s c :
  (∀ s c k1 k2, agree_below (length s) k1 k2 → step s c k1 = step s c k2) →
  agree_below (length s + 1) k1 k2 →
  star_loop step k1 n s c = star_loop step k2 n s c.
Proof.
  intros Hstep. revert s c. induction n as [|n IH]; intros s c Hk; simpl.
  - apply Hk. lia.
  - rewrite (Hstep s c (star_loop step k1 n) (star_loop step k2 n)).
    + rewrite (Hk s c) by lia. done.
    + intros s' c' Hs'. apply IH. intros s'' c'' Hs''. apply Hk. lia.
Qed.

Lemma lazy_loop_local (step : str → caps → cont (R := R) → option R) k1 k2 n s c :
  (∀ s c k1 k2, agree_below (length s) k1 k2 → step s c k1 = step s c k2) →
  agree_below (length s + 1) k1 k2 →
  lazy_loop step k1 n s c = lazy_loop step k2 n s c.
Proof.
  intros Hstep. revert s c. induction n as [|n IH]; intros s c Hk; simpl.
  - apply Hk. lia.
  - rewrite (Hstep s c (lazy_loop step k1 n) (lazy_loop step k2 n)).
    + rewrite (Hk s c) by lia. done.
    + intros s' c' Hs'. apply IH. intros s'' c'' Hs''. apply Hk. lia.
Qed.

(** A pattern calls its continuation on rests no longer than its input,
    and shorter when the pattern is consuming. *)
Lemma rmatch_local r :
  loops_consume r = true →
  ∀ s c k1 k2,
    agree_below (length s + (if consuming r then 0 else 1)) k1 k2 →
    rmatch r s c k1 = rmatch r s c k2.
Proof.
  induction r as [l|p|r1 IH1 r2 IH2|r1 IH1 r2 IH2|r IH|r IH|i r IH];
    intros Hwf s c k1 k2 Hk; cbn [rmatch].
  - destruct (strip_prefix l s) as [s'|] eqn:Hl; [|done].
    apply strip_prefix_length in Hl. apply Hk.
    simpl. destruct l; simpl in *; lia.
  - destruct s as [|a s]; [done|]. destruct (p a); [|done].
    apply Hk. simpl. lia.
  - simpl in Hwf, Hk. apply andb_true_iff in Hwf as [Hwf1 Hwf2].
    apply IH1; [done|]. intros s' c' Hs'. apply IH2; [done|].
    intros s'' c'' Hs''. apply Hk.
    destruct (consuming r1), (consuming r2); simpl in *; lia.
  - simpl in Hwf, Hk. apply andb_true_iff in Hwf as [Hwf1 Hwf2].
    rewrite (IH1 Hwf1 s c k1 k2), (IH2 Hwf2 s c k1 k2); [done|..];
      intros s' c' Hs'; apply Hk;
      destruct (consuming r1), (consuming r2); simpl in *; lia.
  - simpl in Hwf, Hk. apply andb_true_iff in Hwf as [Hc Hwf].
    apply star_loop_local; [|done].
    intros s0 c0 k3 k4 Hk34. apply IH; [done|]. rewrite Hc.
    by rewrite Nat.add_0_r.
  - simpl in Hwf, Hk. apply andb_true_iff in Hwf as [Hc Hwf].
    apply lazy_loop_local; [|done].
    intros s0 c0 k3 k4 Hk34. apply IH; [done|]. rewrite Hc.
    by rewrite Nat.add_0_r.
  - simpl in Hwf, Hk. apply IH; [done|].
    intros s' c' Hs'. by apply Hk.
Qed.

Lemma rmatch_none r s c k :
  (∀ s' c', k s' c' = None) → rmatch r s c k = None.
Proof.
  revert s c k.
  induction r as [l|p|r1 IH1 r2 IH2|r1 IH1 r2 IH2|r IH|r IH|i r IH];
    intros s c k Hk; cbn [rmatch].
  - by destruct (strip_prefix l s).
  - destruct s as [|a s]; [done|]. by destruct (p a).
  - apply IH1. intros s' c'. by apply IH2.
  - by rewrite IH1, IH2.
  - generalize (length s). intros n. revert s c.
    induction n as [|n IHn]; intros s c; simpl; [done|].
    by rewrite IH, Hk.
  - generalize (length s). intros n. revert s c.
    induction n as [|n IHn]; intros s c; simpl; [done|].
    rewrite Hk. by apply IH.
  - apply IH. intros s' c'. apply Hk.
Qed.

Lemma rmatch_empty_consuming r c k :
  loops_consume r = true → consuming r = true → rmatch r [] c k = None.
Proof.
  intros Hwf Hc.
  rewrite (rmatch_local r Hwf [] c k (λ _ _, None)).
  - by apply rmatch_none.
  - rewrite Hc. intros s' c' Hs'. simpl in Hs'. lia.
Qed.

(** More rounds than the input has characters change nothing. *)
Lemma star_loop_rounds r k n m s c :
  loops_consume r = true → consuming r = true →
  length s ≤ n → length s ≤ m →
  star_loop (rmatch r) k n s c = star_loop (rmatch r) k m s c.
Proof.
  intros Hwf Hc. revert m s c.
  induction n as [|n IH]; intros m s c Hn Hm.
  - destruct s; [|simpl in Hn; lia].
    destruct m as [|m]; simpl; [done|].
    by rewrite rmatch_empty_consuming.
  - destruct m as [|m].
    + destruct s; [|simpl in Hm; lia]. simpl.
      by rewrite rmatch_empty_consuming.
    + simpl.
      rewrite (rmatch_local r Hwf s c (star_loop (rmatch r) k n)
                 (star_loop (rmatch r) k m)); [done|].
      rewrite Hc. intros s' c' Hs'. apply IH; lia.
Qed.

Lemma lazy_loop_rounds r k n m s c :
  loops_consume r = true → consuming r = true →
  length s ≤ n → length s ≤ m →
  lazy_loop (rmatch r) k n s c = lazy_loop (rmatch r) k m s c.
Proof.
  intros Hwf Hc. revert m s c.
  induction n as [|n IH]; intros m s c Hn Hm.
  - destruct s; [|simpl in Hn; lia].
    destruct m as [|m]; simpl; [done|].
    rewrite rmatch_empty_consuming by done. by destruct (k [] c).
  - destruct m as [|m].
    + destruct s; [|simpl in Hm; lia]. simpl.
      rewrite rmatch_empty_consuming by done. by destruct (k [] c).
    + simpl.
      rewrite (rmatch_local r Hwf s c (lazy_loop (rmatch r) k n)
                 (lazy_loop (rmatch r) k m)); [done|].
      rewrite Hc. intros s' c' Hs'. apply IH; lia.
Qed.

(** Greedy repetition: one more round of the body, then the loop again;
    failing that, the rest of the pattern. *)
Lemma rmatch_star_unroll r s c k :
  loops_consume r = true → consuming r = true →
  rmatch (Star r) s c k
  = match rmatch r s c (λ s' c', rmatch (Star r) s' c' k) with
    | Some x => Some x
    | None => k s c
    end.
Proof.
  intros Hwf Hc. cbn [rmatch]. destruct s as [|a s].
  - simpl. by rewrite rmatch_empty_consuming.
  - cbn [length star_loop].
    rewrite (rmatch_local r Hwf (a :: s) c
               (star_loop (rmatch r) k (length s))
               (λ s' c', star_loop (rmatch r) k (length s') s' c')); [done|].
    rewrite Hc. intros s' c' Hs'. simpl in Hs'.
    apply star_loop_rounds; [done..|lia|lia].
Qed.

(** Lazy repetition: the rest of the pattern; failing that, one more
    round of the body, then the loop again. *)
Lemma rmatch_lazy_star_unroll r s c k :
  loops_consume r = true → consuming r = true →
  rmatch (LazyStar r) s c k
  = match k s c with
    | Some x => Some x
    | None => rmatch r s c (λ s' c', rmatch (LazyStar r) s' c' k)
    end.
Proof.
  intros Hwf Hc. cbn [rmatch]. destruct s as [|a s].
  - simpl. rewrite rmatch_empty_consuming by done. by destruct (k [] c).
  - cbn [length lazy_loop].
    rewrite (rmatch_local r Hwf (a :: s) c
               (lazy_loop (rmatch r) k (length s))
               (λ s' c', lazy_loop (rmatch r) k (length s') s' c')); [done|].
    rewrite Hc. intros s' c' Hs'. simpl in Hs'.
    apply lazy_loop_rounds; [done..|lia|lia].
Qed.
End MatcherAdequacy.

(** Every loop of every pattern of the two programs takes a character in
    each round. *)
Lemma all_patterns_loops_consume :
  Forall (λ r, loops_consume r = true) all_patterns.
Proof. by repeat constructor. Qed.

(** ** Classifier: type declarations *)

Lemma java_klass_type_group (kw : string) s c (k : cont (R := caps)) x :
  kw ∈ klass_words → k s ((1, bytes kw) :: c) = Some x →
  rmatch (Group 1 Java.klass_type) (bytes kw ++ s) c k = Some x.
Proof.
  intros Hw Hk. rewrite rmatch_group.
  assert (∀ k' : cont (R := caps), k' s c = Some x →
            rmatch Java.klass_type (bytes kw ++ s) c k' = Some x) as Haux.
  { intros k' Hk'. unfold klass_words in Hw.
    repeat (apply elem_of_cons in Hw as [->|Hw]; [cbn; by rewrite Hk'|]).
    by apply elem_of_nil in Hw. }
  apply Haux. by rewrite take_consumed.
Qed.

Lemma java_klass_pattern_match m (kw : string) sp w cl :
  modifier_run m → kw ∈ klass_words → spaces sp → word w →
  trailing_clause cl →
  re_match Java.klass_pattern (m ++ bytes kw ++ sp ++ w ++ cl)
  = Some [(3, up_to_newline cl); (2, w); (1, bytes kw)].
Proof.
  intros Hm Hkw Hsp Hw Hcl. unfold re_match, Java.klass_pattern.
  destruct (klass_word_blocked (R := caps) kw (sp ++ w ++ cl) Hkw) as [Hb Hs].
  assert (stops is_space (w ++ cl)) as Hstop.
  { destruct Hw as [Hne Hall]. by destruct Hall. }
  rewrite rmatch_seq. apply rmatch_modifiers; [done..|]. cbv beta.
  rewrite rmatch_seq. apply java_klass_type_group; [done|]. cbv beta.
  rewrite rmatch_seq. apply rmatch_spaces; [done..|]. cbv beta.
  rewrite rmatch_seq. apply rmatch_word_group; [done..|]. cbv beta.
  by apply rmatch_rest_of_line_group.
Qed.

Lemma android_klass_pattern_match m sp w cl :
  modifier_run m → spaces sp → word w → trailing_clause cl →
  re_match Android.klass_pattern (m ++ bytes "class" ++ sp ++ w ++ cl)
  = Some [(1, w)].
Proof.
  intros Hm Hsp Hw Hcl. unfold re_match, Android.klass_pattern.
  assert ("class"%string ∈ klass_words) as Hkw by (unfold klass_words; set_solver).
  destruct (klass_word_blocked (R := caps) _ (sp ++ w ++ cl) Hkw) as [Hb Hs].
  assert (stops is_space (w ++ cl)) as Hstop.
  { destruct Hw as [Hne Hall]. by destruct Hall. }
  rewrite rmatch_seq. apply rmatch_modifiers; [done..|]. cbv beta.
  rewrite rmatch_seq, rmatch_lit_app.
  rewrite rmatch_seq. apply rmatch_spaces; [done..|]. cbv beta.
  rewrite rmatch_seq. apply rmatch_word_group; [done..|]. cbv beta.
  by apply rmatch_rest_of_line.
Qed.

(** ** Name simplifier *)

Lemma rfind_from_absent c s i last : c ∉ s → rfind_from c s i last = last.
Proof.
  revert i last. induction s as [|a s IH]; intros i last Hc; simpl; [done|].
  destruct (Ascii.eqb_spec a c) as [->|_].
  - exfalso. apply Hc. left.
  - apply IH. intros ?. apply Hc. by right.
Qed.

Lemma rfind_from_last c s1 s2 i last :
  c ∉ s2 → rfind_from c (s1 ++ c :: s2) i last = (i + Z.of_nat (length s1))%Z.
Proof.
  intros Hc. revert i last. induction s1 as [|a s1 IH]; intros i last; simpl.
  - rewrite Ascii.eqb_refl, rfind_from_absent by done. lia.
  - rewrite IH. lia.
Qed.

Lemma after_last_absent c t : c ∉ t → after_last c t = t.
Proof.
  intros Hc. unfold after_last, rfind. by rewrite rfind_from_absent.
Qed.

(** [after_last c t] is what follows the last [c] of [t]. *)
Lemma after_last_split c t1 t2 : c ∉ t2 → after_last c (t1 ++ c :: t2) = t2.
Proof.
  intros Hc. unfold after_last, rfind. rewrite rfind_from_last by done.
  replace (Z.to_nat (0 + Z.of_nat (length t1) + 1)) with (length t1 + 1) by lia.
  rewrite <- drop_drop, drop_app_length. done.
Qed.

Lemma after_last_suffix c t :
  (c ∉ after_last c t) ∧ ∃ pre, t = pre ++ after_last c t.
Proof.
  destruct (decide (c ∈ t)) as [Hin|Hout].
  - apply list_elem_of_split_r in Hin as (t1 & t2 & -> & Hc).
    rewrite after_last_split by done. split; [done|].
    exists (t1 ++ [c]). by rewrite <- app_assoc.
  - rewrite after_last_absent by done. split; [done|]. by exists [].
Qed.

Lemma simplify_token_suffix t :
  ("."%char ∉ _simplify_token t) ∧ ("$"%char ∉ _simplify_token t)
  ∧ ∃ pre, t = pre ++ _simplify_token t.
Proof.
  unfold _simplify_token.
  destruct (after_last_suffix "." t) as [Hdot [p1 H1]].
  destruct (after_last_suffix "$" (after_last "." t)) as [Hdollar [p2 H2]].
  split_and!; [|done|].
  - intros Hin. apply Hdot. rewrite H2. apply elem_of_app. by right.
  - exists (p1 ++ p2). rewrite <- app_assoc, <- H2. done.
Qed.

Lemma simplify_token_idemp t :
  _simplify_token (_simplify_token t) = _simplify_token t.
Proof.
  destruct (simplify_token_suffix t) as (Hdot & Hdollar & _).
  unfold _simplify_token at 1.
  by rewrite (after_last_absent "."), (after_last_absent "$").
Qed.

Lemma simplify_token_boundary a :
  a ≠ "."%char → a ≠ "$"%char → _simplify_token [a] = [a].
Proof.
  intros Hdot Hdollar. unfold _simplify_token.
  rewrite (after_last_absent "."), (after_last_absent "$"); [done|..];
    intros Hx%list_elem_of_singleton; congruence.
Qed.

Section SimplifierFacts.
Variable boundaries : regex.
Variable isb : ascii → bool.
Hypothesis boundaries_match : ∀ a s,
  rmatch boundaries (a :: s) [] (λ s1 c, Some (s1, c))
  = if isb a then Some (s, [(1, [a])]) else None.
Hypothesis dot_inside : isb "." = false.
Hypothesis dollar_inside : isb "$" = false.

Lemma split_loop_pieces n s cur :
  length s ≤ n → split_loop boundaries n s cur = pieces isb s cur.
Proof.
  revert n cur. induction s as [|a s IH]; intros n cur Hn.
  - destruct n; simpl; by rewrite app_nil_r.
  - destruct n as [|n]; simpl in Hn; [lia|].
    cbn [split_loop pieces]. rewrite boundaries_match.
    destruct (isb a).
    + rewrite bool_decide_eq_true_2 by (simpl; lia).
      cbn [group]. rewrite Nat.eqb_refl. by rewrite IH by lia.
    + apply IH. lia.
Qed.

Lemma re_split_pieces s : re_split boundaries s = pieces isb s [].
Proof. by apply split_loop_pieces. Qed.

Lemma concat_pieces s cur : concat (pieces isb s cur) = cur ++ s.
Proof.
  revert cur. induction s as [|a s IH]; intros cur; simpl.
  - done.
  - destruct (isb a); simpl.
    + by rewrite IH.
    + rewrite IH. by rewrite <- app_assoc.
Qed.

Lemma pieces_alternating s cur :
  Forall (λ a, isb a = false) cur → alternating isb (pieces isb s cur).
Proof.
  revert cur. induction s as [|a s IH]; intros cur Hcur; simpl.
  - by constructor.
  - destruct (isb a) eqn:Ha.
    + constructor; [done..|]. by apply IH.
    + apply IH. apply Forall_app. split; [done|]. by constructor.
Qed.

Lemma pieces_inside t s cur :
  Forall (λ a, isb a = false) t →
  pieces isb (t ++ s) cur = pieces isb s (cur ++ t).
Proof.
  intros Ht. revert cur. induction Ht as [|a t Ha Ht IH]; intros cur; simpl.
  - by rewrite app_nil_r.
  - rewrite Ha, IH. by rewrite <- app_assoc.
Qed.

(** Splitting what was joined gives the pieces back. *)
Lemma pieces_concat l cur :
  alternating isb l → pieces isb (concat l) cur = push cur l.
Proof.
  intros Hl. revert cur. induction Hl as [t Ht|t a l Ht Ha Hl IH]; intros cur.
  - simpl. rewrite app_nil_r. rewrite <- (app_nil_r t) at 1.
    by rewrite pieces_inside.
  - cbn [concat push]. rewrite pieces_inside by done.
    cbn [app pieces]. rewrite Ha, IH.
    destruct Hl; done.
Qed.

Lemma simplify_token_inside t :
  Forall (λ a, isb a = false) t →
  Forall (λ a, isb a = false) (_simplify_token t).
Proof.
  intros Ht. destruct (simplify_token_suffix t) as (_ & _ & pre & Hpre).
  rewrite Hpre in Ht. by apply Forall_app in Ht as [_ ?].
Qed.

Lemma simplify_boundary a : isb a = true → _simplify_token [a] = [a].
Proof. intros Ha. apply simplify_token_boundary; congruence. Qed.

Lemma alternating_simplify l :
  alternating isb l → alternating isb (map _simplify_token l).
Proof.
  induction 1 as [t Ht|t a l Ht Ha Hl IH]; cbn [map].
  - constructor. by apply simplify_token_inside.
  - rewrite (simplify_boundary a) by done.
    constructor; [by apply simplify_token_inside|done..].
Qed.

Lemma filter_inside t :
  Forall (λ a, isb a = false) t → filter (λ a, isb a = true) t = [].
Proof.
  induction 1 as [|a t Ha Ht IH]; [done|].
  rewrite filter_cons_False by congruence. done.
Qed.

Lemma alternating_boundaries l :
  alternating isb l →
  filter (λ a, isb a = true) (concat (map _simplify_token l))
  = filter (λ a, isb a = true) (concat l).
Proof.
  induction 1 as [t Ht|t a l Ht Ha Hl IH]; cbn [map concat].
  - rewrite !app_nil_r, !filter_inside; [done..|].
    by apply simplify_token_inside.
  - rewrite (simplify_boundary a) by done. rewrite !filter_app, IH.
    rewrite (filter_inside t) by done.
    by rewrite (filter_inside (_simplify_token t))
      by by apply simplify_token_inside.
Qed.

Lemma simplify_pieces s :
  re_split boundaries (simplify_with boundaries s)
  = map _simplify_token (re_split boundaries s).
Proof.
  unfold simplify_with. rewrite !re_split_pieces.
  pose proof (pieces_alternating s [] (Forall_nil_2 _)) as Halt.
  apply alternating_simplify in Halt.
  rewrite pieces_concat by done. by destruct Halt.
Qed.

Lemma simplify_idemp s :
  simplify_with boundaries (simplify_with boundaries s)
  = simplify_with boundaries s.
Proof.
  unfold simplify_with at 1. rewrite simplify_pieces.
  unfold simplify_with. f_equal. rewrite <- list_fmap_compose.
  apply list_fmap_ext. intros _ t _. apply simplify_token_idemp.
Qed.

Lemma simplify_boundaries s :
  filter (λ a, isb a = true) (simplify_with boundaries s)
  = filter (λ a, isb a = true) s.
Proof.
  unfold simplify_with. rewrite re_split_pieces.
  rewrite alternating_boundaries by (apply pieces_alternating; constructor).
  by rewrite concat_pieces.
Qed.
End SimplifierFacts.

Lemma java_boundaries_match a s :
  rmatch JavaRender.boundaries (a :: s) [] (λ s1 c, Some (s1, c))
  = if java_boundary a then Some (s, [(1, [a])]) else None.
Proof.
  unfold JavaRender.boundaries. rewrite rmatch_group.
  unfold java_boundary, android_boundary. cbn [rmatch alts chr ws].
  pose proof (take_consumed [a] s) as Htake. cbn [app] in Htake.
  rewrite Htake. clear Htake.
  repeat match goal with
         | |- context [if ?b then _ else _] => destruct b; try done
         end.
Qed.

Lemma android_boundaries_match a s :
  rmatch AndroidRender.boundaries (a :: s) [] (λ s1 c, Some (s1, c))
  = if android_boundary a then Some (s, [(1, [a])]) else None.
Proof.
  unfold AndroidRender.boundaries. rewrite rmatch_group.
  unfold android_boundary. cbn [rmatch alts chr ws].
  pose proof (take_consumed [a] s) as Htake. cbn [app] in Htake.
  rewrite Htake. clear Htake.
  repeat match goal with
         | |- context [if ?b then _ else _] => destruct b; try done
         end.
Qed.

(** ** Markdown renderer *)

Lemma android_print_markdown_sections (report : gmap str (list (Change str))) :
  AndroidRender._print_markdown report
  = concat (map (λ item, section_text (AndroidRender._simplify item.1)
                           (map AndroidRender._markdown_for_change item.2))
              (sorted_items report)).
Proof. done. Qed.

Lemma java_markdown_for_changes_ok (cs : list (Change Java.Definition_)) :
  Forall (λ c, is_modification c = false) cs →
  ∃ es, JavaRender.markdown_for_changes cs = Ok es.
Proof.
  induction 1 as [|c cs Hc _ [es IH]]; [by exists []|].
  cbn [JavaRender.markdown_for_changes]. rewrite IH.
  destruct c; [by eexists..|done].
Qed.

Lemma java_print_sections_ok
    (items : list (str * list (Change Java.Definition_))) out :
  Forall (λ item, Forall (λ c, is_modification c = false) item.2) items →
  ∃ entries,
    Forall2 (λ item es, JavaRender.markdown_for_changes item.2 = Ok es)
      items entries
    ∧ JavaRender.print_sections items out
      = mkOutcome
          (out ++ concat (zip_with (λ item es,
                            section_text (JavaRender._simplify item.1) es)
                          items entries))
          None.
Proof.
  intros Hitems. revert out.
  induction Hitems as [|[k cs] items Hcs _ IH]; intros out.
  - exists []. split; [constructor|]. simpl. by rewrite app_nil_r.
  - destruct (java_markdown_for_changes_ok cs Hcs) as [es Hes].
    cbn [JavaRender.print_sections]. rewrite Hes.
    destruct (IH (((((out ++ bytes "## " ++ JavaRender._simplify k ++ NL)
                       ++ NL) ++ join (NL ++ NL) es ++ NL) ++ NL) ++ NL))
      as (entries & Hall & ->).
    exists (es :: entries). split; [by constructor|].
    f_equal. cbn [zip_with concat fst]. unfold section_text.
    by rewrite <- !app_assoc.
Qed.

(** ** Consistency, checked *)

Lemma consistentb_sound {D} `{EqDecision D}
    (classify : str → result (Kind * str * D)) files :
  consistentb classify files = true → consistent classify files.
Proof.
  unfold consistentb, consistent. intros Hb f g tf tg Hf Hg Htf Htg.
  rewrite forallb_forall in Hb. apply list_elem_of_In, Hb in Hf.
  rewrite forallb_forall in Hf. apply list_elem_of_In, Hf in Hg.
  rewrite Htf, Htg in Hg. apply bool_decide_eq_true_1 in Hg.
  intros i d d' Hi Hi'. specialize (Hg i d Hi). cbv beta in Hg.
  by rewrite Hi' in Hg.
Qed.

(** ** The classifiers raise nothing but the parse exception *)

Lemma java_classify_raises : raises_parse_errors_only JavaRender.classify.
Proof.
  intros s e. unfold JavaRender.classify, Java._parse_full_definition.
  repeat match goal with
         | |- context [match re_match ?r ?t with _ => _ end] =>
             destruct (re_match r t)
         | |- context [if ?b then _ else _] => destruct b
         end; simpl; intros [= <-]; eauto.
Qed.

Lemma android_classify_raises : raises_parse_errors_only AndroidRender.classify.
Proof.
  intros s e.
  unfold AndroidRender.classify, Android._kind_and_signature_for_definition.
  repeat match goal with
         | |- context [match re_match ?r ?t with _ => _ end] =>
             destruct (re_match r t)
         end; simpl; intros [= <-]; eauto.
Qed.

(** ** Lines too short to hold a declaration *)



(** ** The order of the files of a snapshot *)

Lemma library_perm_cases {D} (classify : str → result (Kind * str * D))
    files1 files2 :
  files1 ≡ₚ files2 → consistent classify files1 →
  (∃ T, _symbols_for_library classify files1 = Ok T
        ∧ _symbols_for_library classify files2 = Ok T)
  ∨ (∃ e1 e2, _symbols_for_library classify files1 = Raise e1
              ∧ _symbols_for_library classify files2 = Raise e2).
Proof.
  intros Hperm Hcons.
  destruct (_symbols_for_library classify files1) as [T1|e1] eqn:H1;
    destruct (_symbols_for_library classify files2) as [T2|e2] eqn:H2.
  - left. exists T1. split; [done|]. f_equal. symmetry.
    by eapply symbols_for_library_perm.
  - symmetry in Hperm.
    destruct (symbols_for_library_perm_raises _ _ _ _ Hperm H2); congruence.
  - destruct (symbols_for_library_perm_raises _ _ _ _ Hperm H1); congruence.
  - right. eauto.
Qed.

(** ** The example scenario *)

Lemma widget_report_value :
  (r ← java_report [widget_old] [widget_new]; Ok (r !! bytes "Widget"))
  = Ok (Some
      [Addition (widget FIELD "color")
         (java_definition "public int color" "int color" "field");
       Addition (widget METHOD "draw(int x)")
         (java_definition "public void draw(int x)" "void draw(int x)"
            "method");
       Deletion (widget METHOD "draw()")
         (java_definition "public void draw()" "void draw()" "method")]).
Proof. by vm_compute. Qed.

(** * The claims *)

(** A closed decidable proposition, by evaluation. *)
Ltac decide_closed :=
  match goal with
  | |- ?P => apply (@bool_decide_unpack P _); vm_compute; exact I
  end.

(** C1.  For every pair of symbol tables and every identity, the report of
    the diff holds, under the class of the identity, exactly one Addition
    with the new definition when the identity is only in the new table,
    exactly one Deletion with the old definition when it is only in the old
    table, exactly one Modification with both definitions when it is in
    both and the full texts differ, and nothing when the full texts are
    equal; and every change of the report is filed under the class of its
    identity.  [full_text] is [Java.full] for [java] and the identity for
    [android], whose definitions are the full texts. *)
Theorem changes_once_per_identity {D} (full_text : D → str)
    (old_symbols new_symbols : gmap SymbolId D) (i : SymbolId) :
  changes_about (_changes full_text old_symbols new_symbols) i
  = match old_symbols !! i, new_symbols !! i with
    | None, Some d => [Addition i d]
    | Some d, None => [Deletion i d]
    | Some od, Some nd =>
        if decide (full_text od = full_text nd) then []
        else [Modification i od nd]
    | None, None => []
    end
  ∧ filed_by_class (_changes full_text old_symbols new_symbols).
Proof.
  split.
  - apply (changes_about_spec full_text).
  - apply changes_filed_by_class.
Qed.

(** C2, as the code has it.  A line of one or more modifier keywords, a
    type keyword, whitespace, an identifier and an optional clause set off
    by whitespace is classified as a type whose signature is the
    identifier: by [java] for the keywords class, interface and enum, by
    [android] for the keyword class. *)
Theorem type_declaration_classified m (kw : string) sp w cl :
  modifier_run m → kw ∈ klass_words → spaces sp → word w →
  trailing_clause cl →
  (∃ short_definition kind_description,
     Java._parse_full_definition (m ++ bytes kw ++ sp ++ w ++ cl)
     = Ok (KLASS, w, short_definition, kind_description))
  ∧ Android._kind_and_signature_for_definition
      (m ++ bytes "class" ++ sp ++ w ++ cl)
    = Ok (KLASS, w).
Proof.
  intros Hm Hkw Hsp Hw Hcl. split.
  - unfold Java._parse_full_definition.
    rewrite java_klass_pattern_match by done. cbn [group Nat.eqb].
    destruct (_ && _); eauto.
  - unfold Android._kind_and_signature_for_definition.
    by rewrite android_klass_pattern_match.
Qed.

Lemma type_declaration_classified_witness :
  (∃ short_definition kind_description,
     Java._parse_full_definition (bytes "public final enum Color")
     = Ok (KLASS, bytes "Color", short_definition, kind_description))
  ∧ Android._kind_and_signature_for_definition
      (bytes "public final class Color")
    = Ok (KLASS, bytes "Color").
Proof.
  apply (type_declaration_classified (bytes "public final ") "enum"
           (bytes " ") (bytes "Color") []).
  - apply (modifier_run_cons "public" (bytes " ") (bytes "final ")).
    + decide_closed.
    + decide_closed.
    + apply (modifier_run_one "final" (bytes " ")); decide_closed.
  - decide_closed.
  - decide_closed.
  - decide_closed.
  - exact I.
Defined.

(** C2 fails as stated: without a modifier keyword [java] does not classify
    a class line at all, and [android] takes an interface line for a
    field. *)
Lemma type_declaration_needs_modifier :
  Java._parse_full_definition (bytes "class Foo")
  = Raise (CouldNotParse (bytes "class Foo"))
  ∧ Android._kind_and_signature_for_definition (bytes "class Foo")
    = Raise (CouldNotParse (bytes "class Foo"))
  ∧ Android._kind_and_signature_for_definition (bytes "public interface Foo")
    = Ok (FIELD, bytes "Foo").
Proof. by vm_compute. Qed.

(** C3, as the code has it.  For the snapshots of the example the report
    of class Widget is two Additions (the field color and the method
    draw(int x)), then one Deletion (the method draw()), and no
    Modification: the parameter list is part of the identity of a method. *)
Theorem widget_report_is :
  ∃ report changes,
    java_report [widget_old] [widget_new] = Ok report
    ∧ report !! bytes "Widget" = Some changes
    ∧ changes
      = [Addition (widget FIELD "color")
           (java_definition "public int color" "int color" "field");
         Addition (widget METHOD "draw(int x)")
           (java_definition "public void draw(int x)" "void draw(int x)"
              "method");
         Deletion (widget METHOD "draw()")
           (java_definition "public void draw()" "void draw()" "method")]
    ∧ count is_addition changes = 2
    ∧ count is_deletion changes = 1
    ∧ count is_modification changes = 0.
Proof.
  pose proof widget_report_value as H.
  destruct (java_report [widget_old] [widget_new]) as [report|e]; [|done].
  simpl in H. injection H as H.
  exists report. eexists. split_and!; [done|exact H|done|done..].
Qed.

(** C3 fails as stated: the report of Widget does not hold one Addition,
    one Modification and no Deletion. *)
Lemma widget_report_not_as_expected :
  ¬ ∃ report changes,
      java_report [widget_old] [widget_new] = Ok report
      ∧ report !! bytes "Widget" = Some changes
      ∧ count is_addition changes = 1
      ∧ count is_modification changes = 1
      ∧ count is_deletion changes = 0.
Proof.
  intros (report & changes & Hr & Hc & Hadd & _).
  pose proof widget_report_value as H.
  rewrite Hr in H. unfold mbind, result_bind in H. rewrite Hc in H.
  injection H as ->. by vm_compute in Hadd.
Qed.

(** C4, as the code has it.  The renderer prints one section for each
    class of the report, in ascending order of the full class name (the key
    of the report, not its simplified form); a section is a level-2 heading
    with the simplified class name, an empty line, the entries of the class
    with an empty line between them, and two empty lines.  For [java] this
    is stated for reports without modifications. *)
Theorem sections_in_full_name_order
    (report_a : gmap str (list (Change str)))
    (report_j : gmap str (list (Change Java.Definition_))) :
  modification_free report_j →
  (sorted_items report_a ≡ₚ map_to_list report_a
   ∧ StronglySorted (λ x y, str_le x.1 y.1) (sorted_items report_a)
   ∧ AndroidRender._print_markdown report_a
     = concat (map (λ item, section_text (AndroidRender._simplify item.1)
                              (map AndroidRender._markdown_for_change item.2))
                 (sorted_items report_a)))
  ∧ (sorted_items report_j ≡ₚ map_to_list report_j
     ∧ StronglySorted (λ x y, str_le x.1 y.1) (sorted_items report_j)
     ∧ ∃ entries,
         Forall2 (λ item es, JavaRender.markdown_for_changes item.2 = Ok es)
           (sorted_items report_j) entries
         ∧ JavaRender._print_markdown report_j
           = mkOutcome
               (concat (zip_with (λ item es,
                          section_text (JavaRender._simplify item.1) es)
                        (sorted_items report_j) entries))
               None).
Proof.
  intros Hfree. split; split_and!.
  - apply sorted_items_perm.
  - apply sorted_items_sorted.
  - apply android_print_markdown_sections.
  - apply sorted_items_perm.
  - apply sorted_items_sorted.
  - apply (java_print_sections_ok (sorted_items report_j) []).
    apply Forall_forall. intros [k cs] Hin.
    rewrite sorted_items_perm in Hin.
    apply elem_of_map_to_list in Hin. by apply (Hfree k).
Qed.

Lemma sections_in_full_name_order_witness :
  section_order two_classes_android = [bytes "a.Z"; bytes "b.A"]
  ∧ StronglySorted (λ x y : str * list (Change str), str_le x.1 y.1)
      (sorted_items two_classes_android)
  ∧ AndroidRender._print_markdown two_classes_android
    = file_of_lines ["## Z"; ""; "*new* class: `Z`"; ""; "";
                     "## A"; ""; "*new* field: `x`"; "";
                     "*removed* method: `run()`"; ""; ""]%string
  ∧ section_order two_classes_java = [bytes "a.Z"; bytes "b.A"]
  ∧ StronglySorted (λ x y : str * list (Change Java.Definition_),
                      str_le x.1 y.1)
      (sorted_items two_classes_java)
  ∧ JavaRender._print_markdown two_classes_java
    = mkOutcome
        (file_of_lines ["## Z"; ""; "*new* class: `Z`"; ""; "";
                        "## A"; ""; "*new* field: `int x`"; "";
                        "*removed* method: `void run()`"; ""; ""]%string)
        None.
Proof.
  destruct (sections_in_full_name_order two_classes_android two_classes_java)
    as ((_ & Hsa & Houta) & (_ & Hsj & entries & Hall & Houtj)).
  { intros k cs Hk. unfold two_classes_java in Hk.
    apply lookup_insert_Some in Hk as [[<- <-]|[_ Hk]];
      [by repeat constructor|].
    apply lookup_singleton_Some in Hk as [<- <-]. by repeat constructor. }
  assert (sorted_items two_classes_java
          = [(bytes "a.Z",
              [Addition (mkSymbolId (bytes "a.Z") KLASS (bytes "a.Z"))
                 (java_definition "public class a.Z" "a.Z" "class")]);
             (bytes "b.A",
              [Addition (mkSymbolId (bytes "b.A") FIELD (bytes "x"))
                 (java_definition "public int x" "int x" "field");
               Deletion (mkSymbolId (bytes "b.A") METHOD (bytes "run()"))
                 (java_definition "public void run()" "void run()"
                    "method")])]) as Hitems
    by (by vm_compute).
  split_and!.
  - by vm_compute.
  - exact Hsa.
  - rewrite Houta. by vm_compute.
  - unfold section_order. by rewrite Hitems.
  - exact Hsj.
  - rewrite Houtj. rewrite Hitems in Hall |- *.
    apply Forall2_cons_inv_l in Hall as (es1 & l1 & H1 & Hall & ->).
    apply Forall2_cons_inv_l in Hall as (es2 & l2 & H2 & Hall & ->).
    apply Forall2_nil_inv_l in Hall as ->.
    vm_compute in H1. vm_compute in H2.
    injection H1 as <-. injection H2 as <-. by vm_compute.
Defined.

(** C4 fails as stated: the sections of a.Z and b.A are printed in this
    order, under the headings Z and A, which is not the ascending order of
    the simplified names; and each section ends with two empty lines. *)
Lemma sections_not_in_simplified_order :
  let report : gmap str (list (Change str)) :=
    {[ bytes "a.Z" := [Addition (mkSymbolId (bytes "a.Z") KLASS (bytes "a.Z"))
                         (bytes "public class a.Z")];
       bytes "b.A" := [Addition (mkSymbolId (bytes "b.A") KLASS (bytes "b.A"))
                         (bytes "public class b.A")] ]} in
  map AndroidRender._simplify (section_order report) = [bytes "Z"; bytes "A"]
  ∧ ¬ str_le (bytes "Z") (bytes "A")
  ∧ AndroidRender._print_markdown report
    = file_of_lines ["## Z"; ""; "*new* class: `Z`"; ""; "";
                     "## A"; ""; "*new* class: `A`"; ""; ""]%string.
Proof.
  split_and!.
  - by vm_compute.
  - by vm_compute.
  - by vm_compute.
Qed.

(** C5, as the code has it.  When any two files of a snapshot that define
    the same identity give it the same definition (as when every class has
    one file), the text printed by a run does not depend on the order in
    which the files of the two snapshots are enumerated. *)
Theorem output_independent_of_file_order old1 old2 new1 new2 :
  old1 ≡ₚ old2 → new1 ≡ₚ new2 →
  consistent JavaRender.classify old1 →
  consistent JavaRender.classify new1 →
  stdout (JavaRender.print_api_diff old1 new1)
  = stdout (JavaRender.print_api_diff old2 new2).
Proof.
  intros Hold Hnew Hcold Hcnew. unfold JavaRender.print_api_diff.
  destruct (library_perm_cases JavaRender.classify old1 old2 Hold Hcold)
    as [(To & -> & ->)|(e1 & e2 & -> & ->)]; [|done].
  destruct (library_perm_cases JavaRender.classify new1 new2 Hnew Hcnew)
    as [(Tn & -> & ->)|(e1 & e2 & -> & ->)]; done.
Qed.

Lemma output_independent_of_file_order_witness :
  stdout (JavaRender.print_api_diff
            [file_of_lines ["public class Foo {"; "public int x;"; "}"];
             file_of_lines ["public class Bar {"; "public Bar();"; "}"]]%string
            [file_of_lines ["public class Foo {"; "public long x;"; "}"];
             file_of_lines ["public class Baz {"; "}"]]%string)
  = stdout (JavaRender.print_api_diff
            [file_of_lines ["public class Bar {"; "public Bar();"; "}"];
             file_of_lines ["public class Foo {"; "public int x;"; "}"]]%string
            [file_of_lines ["public class Baz {"; "}"];
             file_of_lines ["public class Foo {"; "public long x;"; "}"]]%string).
Proof.
  apply output_independent_of_file_order.
  - apply perm_swap.
  - apply perm_swap.
  - apply consistentb_sound. vm_compute. reflexivity.
  - apply consistentb_sound. vm_compute. reflexivity.
Defined.

(** C5 fails as stated: two files of the new snapshot declare the field x
    of class Foo, and the one enumerated last decides what is printed. *)
Lemma output_depends_on_file_order :
  let old_path := [file_of_lines ["public class Foo {"; "}"]]%string in
  let f1 := file_of_lines ["public class Foo {"; "public int x;"; "}"]%string in
  let f2 := file_of_lines ["public class Foo {"; "public long x;"; "}"]%string in
  [f1; f2] ≡ₚ [f2; f1]
  ∧ JavaRender.print_api_diff old_path [f1; f2]
    = mkOutcome (file_of_lines ["## Foo"; ""; "*new* field: `long x`"; ""; ""])
        None
  ∧ JavaRender.print_api_diff old_path [f2; f1]
    = mkOutcome (file_of_lines ["## Foo"; ""; "*new* field: `int x`"; ""; ""])
        None
  ∧ stdout (JavaRender.print_api_diff old_path [f1; f2])
    ≠ stdout (JavaRender.print_api_diff old_path [f2; f1]).
Proof.
  split_and!.
  - apply perm_swap.
  - by vm_compute.
  - by vm_compute.
  - by vm_compute.
Qed.

Lemma bytes_inj (s t : string) : bytes s = bytes t → s = t.
Proof.
  intros H. apply (f_equal string_of_list_ascii) in H.
  unfold bytes in H. by rewrite !string_of_list_ascii_of_string in H.
Qed.

(** C6, as the code has it.  In [java], a type declaration line with at
    least one modifier (modifiers, keyword, identifier, clause; a line
    holds no newline) is classified as a type
    whose signature is the identifier; when the keyword is interface and
    the clause is exactly [ extends java.lang.annotation.Annotation] the
    kind label is annotation and the short display is [@] followed by the
    identifier, and in every other case the kind label is the keyword and
    the short display is the identifier. *)
Theorem annotation_reclassified m (kw : string) sp w cl :
  modifier_run m → kw ∈ klass_words → spaces sp → word w →
  trailing_clause cl → LF ∉ cl →
  Java._parse_full_definition (m ++ bytes kw ++ sp ++ w ++ cl)
  = if bool_decide (kw = "interface"%string ∧ cl = Java.annotation_clause)
    then Ok (KLASS, w, bytes "@" ++ w, bytes "annotation")
    else Ok (KLASS, w, w, bytes kw).
Proof.
  intros Hm Hkw Hsp Hw Hcl Hline. unfold Java._parse_full_definition.
  rewrite java_klass_pattern_match by done. cbn [group Nat.eqb].
  rewrite up_to_newline_id by done.
  destruct (decide (kw = "interface"%string ∧ cl = Java.annotation_clause))
    as [[-> ->]|Hno].
  - rewrite bool_decide_eq_true_2 by done. done.
  - rewrite (bool_decide_eq_false_2 (_ ∧ _)) by done.
    destruct (bool_decide (bytes kw = bytes "interface")) eqn:E1;
      destruct (bool_decide (cl = Java.annotation_clause)) eqn:E2; try done.
    apply bool_decide_eq_true_1 in E1, E2. apply bytes_inj in E1.
    by destruct Hno.
Qed.

Lemma annotation_reclassified_witness :
  Java._parse_full_definition
    (bytes "public interface Nullable extends java.lang.annotation.Annotation")
  = Ok (KLASS, bytes "Nullable", bytes "@Nullable", bytes "annotation").
Proof.
  apply (annotation_reclassified (bytes "public ") "interface" (bytes " ")
           (bytes "Nullable") Java.annotation_clause).
  - apply (modifier_run_one "public" (bytes " ")); decide_closed.
  - decide_closed.
  - decide_closed.
  - decide_closed.
  - reflexivity.
  - decide_closed.
Defined.

(** C6 fails as stated: an interface line without a modifier keyword,
    with the clause of an annotation or with another one, is not
    classified at all. *)
Lemma annotation_needs_modifier :
  Java._parse_full_definition
    (bytes "interface Nullable extends java.lang.annotation.Annotation")
  = Raise (CouldNotParse
      (bytes "interface Nullable extends java.lang.annotation.Annotation"))
  ∧ Java._parse_full_definition (bytes "interface Runnable")
    = Raise (CouldNotParse (bytes "interface Runnable")).
Proof. by vm_compute. Qed.

(** C7.  In both programs the name simplifier is idempotent; it keeps the
    boundary characters of its input, in their order.  The split of a text
    loses nothing: it is the text cut at every boundary character, pieces
    and boundary characters alternating, and joined again it is the text.
    The pieces and boundary characters of the output are those of the
    input, in the same order, each put through [_simplify_token]; a
    boundary character is left as it is, and a piece loses everything up
    to and including its last [.] and then its last [$]; the output is
    these joined. *)
Theorem simplify_idempotent_and_preserving (s : str) :
  (JavaRender._simplify (JavaRender._simplify s) = JavaRender._simplify s
   ∧ filter (λ a, java_boundary a = true) (JavaRender._simplify s)
     = filter (λ a, java_boundary a = true) s
   ∧ re_split JavaRender.boundaries (JavaRender._simplify s)
     = map _simplify_token (re_split JavaRender.boundaries s)
   ∧ alternating java_boundary (re_split JavaRender.boundaries s)
   ∧ re_split JavaRender.boundaries s = pieces java_boundary s []
   ∧ concat (re_split JavaRender.boundaries s) = s
   ∧ JavaRender._simplify s
     = concat (map _simplify_token (pieces java_boundary s [])))
  ∧ (AndroidRender._simplify (AndroidRender._simplify s)
     = AndroidRender._simplify s
     ∧ filter (λ a, android_boundary a = true) (AndroidRender._simplify s)
       = filter (λ a, android_boundary a = true) s
     ∧ re_split AndroidRender.boundaries (AndroidRender._simplify s)
       = map _simplify_token (re_split AndroidRender.boundaries s)
     ∧ alternating android_boundary (re_split AndroidRender.boundaries s)
     ∧ re_split AndroidRender.boundaries s = pieces android_boundary s []
     ∧ concat (re_split AndroidRender.boundaries s) = s
     ∧ AndroidRender._simplify s
       = concat (map _simplify_token (pieces android_boundary s [])))
  ∧ (∀ a, java_boundary a = true → _simplify_token [a] = [a])
  ∧ (∀ c t1 t2, c ∉ t2 → after_last c (t1 ++ c :: t2) = t2)
  ∧ (∀ c t, c ∉ t → after_last c t = t)
  ∧ (∀ t, _simplify_token t = after_last "$" (after_last "." t)).
Proof.
  split_and!.
  - apply (simplify_idemp _ java_boundary); [apply java_boundaries_match|done..].
  - apply (simplify_boundaries _ java_boundary);
      [apply java_boundaries_match|done..].
  - apply (simplify_pieces _ java_boundary);
      [apply java_boundaries_match|done..].
  - rewrite (re_split_pieces _ java_boundary) by apply java_boundaries_match.
    apply pieces_alternating. constructor.
  - apply re_split_pieces, java_boundaries_match.
  - rewrite (re_split_pieces _ java_boundary) by apply java_boundaries_match.
    apply concat_pieces.
  - unfold JavaRender._simplify, simplify_with.
    by rewrite (re_split_pieces _ java_boundary)
      by apply java_boundaries_match.
  - apply (simplify_idemp _ android_boundary);
      [apply android_boundaries_match|done..].
  - apply (simplify_boundaries _ android_boundary);
      [apply android_boundaries_match|done..].
  - apply (simplify_pieces _ android_boundary);
      [apply android_boundaries_match|done..].
  - rewrite (re_split_pieces _ android_boundary)
      by apply android_boundaries_match.
    apply pieces_alternating. constructor.
  - apply re_split_pieces, android_boundaries_match.
  - rewrite (re_split_pieces _ android_boundary)
      by apply android_boundaries_match.
    apply concat_pieces.
  - unfold AndroidRender._simplify, simplify_with.
    by rewrite (re_split_pieces _ android_boundary)
      by apply android_boundaries_match.
  - intros a Ha. apply (simplify_boundary java_boundary); done.
  - apply after_last_split.
  - apply after_last_absent.
  - done.
Qed.

(** C8.  For every symbol table, the diff of the table with itself is the
    empty report: no class has a change. *)
Theorem diff_with_itself_is_empty {D} (full_text : D → str)
    (symbols : gmap SymbolId D) :
  _changes full_text symbols symbols = ∅.
Proof. apply changes_same. Qed.

(** C9.  Every identity that the parser records for a file has, as its
    class, the signature classified from the first line of the file,
    whatever the kind of that line; the entry of the first line itself is
    among them.  [classify] is the classifier of either program. *)
Theorem klass_is_first_line_signature {D}
    (classify : str → result (Kind * str * D)) content T i :
  _symbols_for_klass classify content = Ok T →
  is_Some (T !! i) →
  ∃ first rest kd sg d,
    readlines content = first :: rest
    ∧ classify (definition_text first) = Ok (kd, sg, d)
    ∧ klass i = sg
    ∧ is_Some (T !! mkSymbolId sg kd sg).
Proof.
  unfold _symbols_for_klass. intros HT Hi.
  destruct (symbols_for_lines_klass classify _ _ HT) as [Hkeys Hown].
  destruct (Hkeys i Hi) as (first & rest & kd & sg & d & Hlines & Hc & Hk).
  exists first, rest, kd, sg, d. split_and!; [done..|].
  apply (Hown first rest kd sg d); [done| |done].
  intros ->. rewrite Hlines in HT. injection HT as <-.
  destruct Hi as [? Hi]. by rewrite lookup_empty in Hi.
Qed.

Lemma klass_is_first_line_signature_witness :
  ∃ first rest kd d,
    readlines (file_of_lines ["public void run();"; "public int x;"; "}"]%string)
    = first :: rest
    ∧ JavaRender.classify (definition_text first) = Ok (kd, bytes "run()", d)
    ∧ kd = METHOD.
Proof.
  destruct (klass_is_first_line_signature JavaRender.classify
              (file_of_lines ["public void run();"; "public int x;"; "}"]%string)
              (<[ mkSymbolId (bytes "run()") FIELD (bytes "x") :=
                    java_definition "public int x" "int x" "field" ]>
                 (<[ mkSymbolId (bytes "run()") METHOD (bytes "run()") :=
                       java_definition "public void run()" "void run()"
                         "method" ]> ∅))
              (mkSymbolId (bytes "run()") FIELD (bytes "x")))
    as (first & rest & kd & sg & d & Hlines & Hc & Hk & _).
  - cbv -[insert empty]. reflexivity.
  - rewrite lookup_insert_eq. by eexists.
  - simpl in Hk. subst sg. exists first, rest, kd, d. split_and!; [done..|].
    vm_compute in Hlines. injection Hlines as <- <-.
    vm_compute in Hc. by injection Hc as <- _.
Defined.




(** * Further properties *)

(** ** Diff engine: the shape of a report *)

Section ReportShape.
Context {D : Type}.
Variable full_text : D → str.
Implicit Types (report : gmap str (list (Change D))) (c : Change D).

Lemma report_lookup old_symbols new_symbols k :
  default [] (_changes full_text old_symbols new_symbols !! k)
  = filter (λ c, klass (symbol_id_of c) = k)
      (all_changes full_text old_symbols new_symbols).
Proof.
  by rewrite changes_as_fold, foldl_append_change_lookup, lookup_empty.
Qed.

Lemma foldl_append_change_nonempty report (l : list (Change D)) k :
  report !! k ≠ Some [] → foldl append_change report l !! k ≠ Some [].
Proof.
  revert report. induction l as [|c l IH]; intros report Hr; [done|].
  cbn [foldl]. apply IH. unfold append_change.
  destruct (decide (klass (symbol_id_of c) = k)) as [<-|Hne].
  - rewrite lookup_insert_eq. intros [= H]. by destruct (default _ _).
  - by rewrite lookup_insert_ne.
Qed.

Lemma foldl_append_change_None report (l : list (Change D)) k :
  report !! k = None →
  filter (λ c, klass (symbol_id_of c) = k) l = [] →
  foldl append_change report l !! k = None.
Proof.
  revert report. induction l as [|c l IH]; intros report Hr Hl; [done|].
  cbn [foldl]. rewrite filter_cons in Hl.
  destruct (decide (klass (symbol_id_of c) = k)) as [Heq|Hne]; [done|].
  apply IH; [|done]. unfold append_change. by rewrite lookup_insert_ne.
Qed.

Lemma elem_of_all_changes old_symbols new_symbols c :
  c ∈ all_changes full_text old_symbols new_symbols
  ↔ c ∈ expected_changes full_text old_symbols new_symbols (symbol_id_of c).
Proof.
  rewrite <- (all_changes_about full_text), list_elem_of_filter.
  split; [done|by intros [_ ?]].
Qed.

Lemma report_key old_symbols new_symbols k :
  is_Some (_changes full_text old_symbols new_symbols !! k)
  ↔ ∃ i, klass i = k
         ∧ expected_changes full_text old_symbols new_symbols i ≠ [].
Proof.
  pose proof (report_lookup old_symbols new_symbols k) as Hk. split.
  - intros [cs Hcs]. rewrite Hcs in Hk. simpl in Hk.
    destruct cs as [|c cs].
    { exfalso. revert Hcs. rewrite changes_as_fold.
      apply foldl_append_change_nonempty. by rewrite lookup_empty. }
    assert (c ∈ c :: cs) as Hin by left.
    rewrite Hk in Hin. apply list_elem_of_filter in Hin as [Hkl Hin].
    exists (symbol_id_of c). split; [done|].
    apply elem_of_all_changes in Hin. intros Hnil. rewrite Hnil in Hin.
    by apply elem_of_nil in Hin.
  - intros (i & Hi & Hne).
    destruct (_changes full_text old_symbols new_symbols !! k) eqn:E; [eauto|].
    exfalso. simpl in Hk.
    destruct (expected_changes full_text old_symbols new_symbols i)
      as [|c cs] eqn:Hex; [done|].
    assert (c ∈ filter (λ c, symbol_id_of c = i)
                  (all_changes full_text old_symbols new_symbols)) as Hin.
    { rewrite all_changes_about, Hex. left. }
    apply list_elem_of_filter in Hin as [Hid Hin].
    assert (c ∈ filter (λ c, klass (symbol_id_of c) = k)
                  (all_changes full_text old_symbols new_symbols)) as Hin'.
    { apply list_elem_of_filter. split; [congruence|done]. }
    rewrite <- Hk in Hin'. by apply elem_of_nil in Hin'.
Qed.

Lemma expected_changes_reverse old_symbols new_symbols i :
  expected_changes full_text new_symbols old_symbols i
  = map reverse_change (expected_changes full_text old_symbols new_symbols i).
Proof.
  unfold expected_changes.
  destruct (old_symbols !! i) as [od|], (new_symbols !! i) as [nd|];
    try done.
  destruct (decide (full_text nd = full_text od)),
    (decide (full_text od = full_text nd)); done || congruence.
Qed.

Lemma StronglySorted_omap_ids (f : SymbolId → option (Change D)) l :
  (∀ j c, f j = Some c → symbol_id_of c = j) →
  StronglySorted symbol_id_lt l → StronglySorted change_lt (omap f l).
Proof.
  intros Hf. induction 1 as [|j l Hl IH Hj]; cbn [omap list_omap].
  { constructor. }
  destruct (f j) as [c|] eqn:Hc; [|done].
  constructor; [done|]. apply Forall_forall. intros c' Hc'.
  apply list_elem_of_omap in Hc' as (j' & Hj' & Hfj').
  unfold change_lt. rewrite (Hf _ _ Hc), (Hf _ _ Hfj').
  rewrite Forall_forall in Hj. by apply Hj.
Qed.

Lemma StronglySorted_filter_changes (P : Change D → Prop)
    `{!∀ c, Decision (P c)} (l : list (Change D)) :
  StronglySorted change_lt l → StronglySorted change_lt (filter P l).
Proof.
  induction 1 as [|c l Hl IH Hc]; [constructor|].
  rewrite filter_cons. destruct (decide (P c)); [|done].
  constructor; [done|]. apply Forall_forall.
  intros x [_ Hx]%list_elem_of_filter. rewrite Forall_forall in Hc. by apply Hc.
Qed.

Lemma sorted_ids_sorted l : StronglySorted symbol_id_le (sorted_ids l).
Proof. apply StronglySorted_merge_sort; apply _. Qed.

(** Without repetitions the order is strict. *)
Lemma sorted_ids_strict l :
  NoDup l → StronglySorted symbol_id_lt (sorted_ids l).
Proof.
  intros Hl. rewrite <- (sorted_ids_perm l) in Hl.
  pose proof (sorted_ids_sorted l) as Hs.
  induction Hs as [|j l' Hs IH Hj]; [constructor|].
  apply NoDup_cons in Hl as [Hnot Hl]. constructor; [by apply IH|].
  apply Forall_forall. intros j' Hj'. rewrite Forall_forall in Hj.
  specialize (Hj _ Hj'). unfold symbol_id_le in Hj. unfold symbol_id_lt.
  destruct (symbol_id_compare j j') eqn:E; [|done..].
  apply symbol_id_compare_eq in E. by subst.
Qed.

Lemma changed_ids_strict (P : SymbolId → Prop) `{!∀ i, Decision (P i)}
    (symbols : gmap SymbolId D) :
  StronglySorted symbol_id_lt
    (sorted_ids (filter P (elements (dom symbols)))).
Proof. apply sorted_ids_strict, NoDup_filter, NoDup_elements. Qed.

Lemma additions_shape (new_symbols : gmap SymbolId D) l :
  Forall (λ c, is_addition c = true) (additions new_symbols l)
  ∧ (StronglySorted symbol_id_lt l →
     StronglySorted change_lt (additions new_symbols l)).
Proof.
  split.
  - apply Forall_forall. intros c (j & _ & Hj)%list_elem_of_omap.
    destruct (new_symbols !! j); simpl in Hj; by simplify_eq.
  - apply StronglySorted_omap_ids. intros j c Hc.
    destruct (new_symbols !! j); simpl in Hc; by simplify_eq.
Qed.

Lemma deletions_shape (old_symbols : gmap SymbolId D) l :
  Forall (λ c, is_deletion c = true) (deletions old_symbols l)
  ∧ (StronglySorted symbol_id_lt l →
     StronglySorted change_lt (deletions old_symbols l)).
Proof.
  split.
  - apply Forall_forall. intros c (j & _ & Hj)%list_elem_of_omap.
    destruct (old_symbols !! j); simpl in Hj; by simplify_eq.
  - apply StronglySorted_omap_ids. intros j c Hc.
    destruct (old_symbols !! j); simpl in Hc; by simplify_eq.
Qed.

Lemma modifications_shape (old_symbols new_symbols : gmap SymbolId D) l :
  Forall (λ c, is_modification c = true)
    (modifications full_text old_symbols new_symbols l)
  ∧ (StronglySorted symbol_id_lt l →
     StronglySorted change_lt
       (modifications full_text old_symbols new_symbols l)).
Proof.
  assert (∀ j c,
    (old_definition ← old_symbols !! j;
     new_definition ← new_symbols !! j;
     if bool_decide (full_text old_definition ≠ full_text new_definition)
     then Some (Modification j old_definition new_definition)
     else None) = Some c →
    symbol_id_of c = j ∧ is_modification c = true) as Hf.
  { intros j c Hc. destruct (old_symbols !! j); simpl in Hc; [|done].
    destruct (new_symbols !! j); simpl in Hc; [|done].
    case_bool_decide; by simplify_eq. }
  split.
  - apply Forall_forall. intros c (j & _ & Hj)%list_elem_of_omap.
    by apply Hf in Hj as [_ ?].
  - apply StronglySorted_omap_ids. intros j c Hc. by apply Hf in Hc as [? _].
Qed.
End ReportShape.

(** ** Snapshot parser: the table of a file *)

Section TableFacts.
Context {D : Type}.
Variable classify : str → result (Kind * str * D).
Implicit Types (symbols T : gmap SymbolId D) (lines : list str).

#[local] Arguments symbols_loop : simpl never.

(** The loop once [klass] is bound: keys of other classes are left alone,
    and a key of the class gets the value of the last line classified to
    it. *)
Lemma symbols_loop_table n index lines symbols kl T :
  0 < index →
  symbols_loop classify n index lines symbols (Some kl) = Ok T →
  ∀ i, T !! i
       = if decide (klass i = kl)
         then match last_definition classify n index lines
                      (kind i) (signature i) with
              | Some d => Some d
              | None => symbols !! i
              end
         else symbols !! i.
Proof.
  revert index symbols. induction lines as [|line rest IH];
    intros index symbols Hpos Hloop i.
  - injection Hloop as <-. simpl. by destruct (decide _).
  - rewrite symbols_loop_cons in Hloop. cbn [last_definition].
    destruct (index =? n - 1) eqn:Hlast.
    { rewrite (IH _ _ (Nat.lt_lt_succ_r _ _ Hpos) Hloop i).
      destruct (decide _); [|done].
      by destruct (last_definition classify n (S index) rest _ _). }
    destruct (classify (definition_text line)) as [[[kd sg] d]|e];
      simpl in Hloop; [|done].
    destruct (Nat.eqb_spec index 0) as [->|_]; [lia|].
    rewrite (IH _ _ (Nat.lt_lt_succ_r _ _ Hpos) Hloop i).
    destruct (decide (klass i = kl)) as [Hk|Hk].
    + destruct (last_definition classify n (S index) rest _ _); [done|].
      case_bool_decide as Hi.
      * destruct Hi as [-> ->]. destruct i as [k1 k2 k3]. simpl in Hk.
        subst. by rewrite lookup_insert_eq.
      * rewrite lookup_insert_ne; [done|]. intros <-. by apply Hi.
    + rewrite lookup_insert_ne; [done|]. intros <-. by apply Hk.
Qed.

(** The table of a file, entry by entry. *)
Lemma symbols_for_lines_table lines T i :
  symbols_for_lines classify lines = Ok T →
  T !! i
  = match declaring_klass classify lines with
    | Some kl =>
        if decide (klass i = kl)
        then last_definition classify (length lines) 0 lines
               (kind i) (signature i)
        else None
    | None => None
    end.
Proof.
  unfold symbols_for_lines, declaring_klass.
  destruct lines as [|first [|second rest]].
  - intros [= <-]. by rewrite lookup_empty.
  - intros [= <-]. by rewrite lookup_empty.
  - rewrite symbols_loop_cons.
    change (0 =? length (first :: second :: rest) - 1) with false.
    cbn iota.
    destruct (classify (definition_text first)) as [[[kd sg] d]|e] eqn:Hfirst;
      [|done].
    intros Hloop. simpl in Hloop.
    rewrite (symbols_loop_table _ _ _ _ _ _ (Nat.lt_0_succ 0) Hloop i).
    destruct (decide (klass i = sg)) as [Hk|Hk]; [|by rewrite lookup_insert_ne
      by (intros <-; by apply Hk)].
    change (last_definition classify (length (first :: second :: rest)) 0
              (first :: second :: rest) (kind i) (signature i))
      with (match last_definition classify (length (first :: second :: rest))
                    1 (second :: rest) (kind i) (signature i) with
            | Some d' => Some d'
            | None =>
                match classify (definition_text first) with
                | Ok (kd', sg', d') =>
                    if bool_decide (kd' = kind i ∧ sg' = signature i)
                    then Some d' else None
                | Raise _ => None
                end
            end).
    destruct (last_definition classify _ 1 (second :: rest) _ _); [done|].
    rewrite Hfirst. case_bool_decide as Hi.
    + destruct Hi as [-> ->]. destruct i as [k1 k2 k3]. simpl in Hk. subst.
      by rewrite lookup_insert_eq.
    + rewrite lookup_insert_ne, lookup_empty; [done|]. intros <-. by apply Hi.
Qed.

(** The loop does not look at the last line. *)
Lemma symbols_loop_last_line n index lines l1 l2 symbols klass :
  n = index + length lines + 1 →
  symbols_loop classify n index (lines ++ [l1]) symbols klass
  = symbols_loop classify n index (lines ++ [l2]) symbols klass.
Proof.
  revert index symbols klass. induction lines as [|line rest IH];
    intros index symbols klass Hn; cbn [app]; rewrite !symbols_loop_cons.
  - simpl in Hn. by rewrite (proj2 (Nat.eqb_eq index (n - 1))) by lia.
  - simpl in Hn. destruct (index =? n - 1); [apply IH; lia|].
    destruct (classify (definition_text line)) as [[[kd sg] d]|e]; simpl;
      [|done].
    destruct (if index =? 0 then Some sg else klass); [|done].
    apply IH. lia.
Qed.

(** The loop ends well exactly when every line but the last classifies. *)
Lemma symbols_loop_ok n index lines symbols klass :
  n = index + length lines →
  index = 0 ∨ is_Some klass →
  (∃ T, symbols_loop classify n index lines symbols klass = Ok T)
  ↔ ∀ m line, lines !! m = Some line → index + m ≠ n - 1 →
              ∃ r, classify (definition_text line) = Ok r.
Proof.
  revert index symbols klass. induction lines as [|line rest IH];
    intros index symbols klass Hn Hk.
  { split; [done|]. intros _. by eexists. }
  rewrite symbols_loop_cons. simpl in Hn.
  destruct (Nat.eqb_spec index (n - 1)) as [Hlast|Hlast].
  { destruct rest as [|l2 rest]; [|simpl in Hn; lia].
    split; [|intros _; by eexists].
    intros _ [|m] line' Hm Hne; simpl in Hm; [lia|done]. }
  destruct (classify (definition_text line)) as [[[kd sg] d]|e] eqn:Hc; simpl.
  - assert (∃ kl, (if index =? 0 then Some sg else klass) = Some kl)
      as [kl ->].
    { destruct (Nat.eqb_spec index 0); [eauto|].
      destruct Hk as [?|[kl' Hkl']]; [done|]. rewrite Hkl'. eauto. }
    rewrite (IH (S index)) by (lia || eauto). split.
    + intros Hrest [|m] line' Hm Hne; simpl in Hm.
      * injection Hm as <-. eauto.
      * apply (Hrest m); [done|lia].
    + intros Hall m line' Hm Hne. apply (Hall (S m)); [done|lia].
  - split; [by intros [? ?]|]. intros Hall.
    destruct (Hall 0 line) as [r Hr]; [done|lia|congruence].
Qed.
End TableFacts.

(** ** Snapshot parser: the table of a library *)

Section LibraryFacts.
Context {D : Type}.
Variable classify : str → result (Kind * str * D).
Implicit Types (symbols T : gmap SymbolId D) (files : list str).

Lemma library_loop_app files1 files2 symbols :
  library_loop classify (files1 ++ files2) symbols
  = symbols' ← library_loop classify files1 symbols;
    library_loop classify files2 symbols'.
Proof.
  revert symbols. induction files1 as [|file rest IH]; intros symbols; [done|].
  cbn [app]. rewrite !library_loop_cons.
  destruct (_symbols_for_klass classify file); simpl; [apply IH|done].
Qed.

Lemma library_loop_untouched files symbols T i :
  library_loop classify files symbols = Ok T →
  (∀ g tg, g ∈ files → _symbols_for_klass classify g = Ok tg →
           tg !! i = None) →
  T !! i = symbols !! i.
Proof.
  revert symbols. induction files as [|file rest IH]; intros symbols.
  { by intros [= <-] _. }
  rewrite library_loop_cons.
  destruct (_symbols_for_klass classify file) as [t|e] eqn:Hfile; simpl;
    [|done].
  intros Hloop Hnone. rewrite (IH _ Hloop).
  - rewrite lookup_union_r; [done|]. apply (Hnone file); [left|done].
  - intros g tg Hg. apply Hnone. by right.
Qed.

Lemma library_loop_ok files symbols :
  (∃ T, library_loop classify files symbols = Ok T)
  ↔ Forall (λ f, ∃ t, _symbols_for_klass classify f = Ok t) files.
Proof.
  revert symbols. induction files as [|file rest IH]; intros symbols.
  { split; [constructor|]. intros _. by eexists. }
  rewrite library_loop_cons, Forall_cons.
  destruct (_symbols_for_klass classify file) as [t|e] eqn:Hfile; simpl.
  - rewrite IH. split; [eauto|]. by intros [_ ?].
  - split; [by intros [? ?]|]. by intros [[? ?] _].
Qed.
End LibraryFacts.

(** ** Markdown renderer: modifications in [java] *)

Lemma java_markdown_for_changes_modification
    (cs : list (Change Java.Definition_)) :
  Exists (λ c, is_modification c = true) cs →
  JavaRender.markdown_for_changes cs
  = Raise (AttributeError (bytes "definition")).
Proof.
  induction cs as [|c cs IH]; intros Hex; [by apply Exists_nil in Hex|].
  cbn [JavaRender.markdown_for_changes].
  destruct c as [i d|i d|i od nd]; [| |done].
  - apply Exists_cons in Hex as [Hc|Hex]; [done|]. by rewrite IH.
  - apply Exists_cons in Hex as [Hc|Hex]; [done|]. by rewrite IH.
Qed.

Lemma java_print_sections_modification
    (items : list (str * list (Change Java.Definition_))) out :
  Exists (λ item, Exists (λ c, is_modification c = true) item.2) items →
  raised (JavaRender.print_sections items out)
  = Some (AttributeError (bytes "definition")).
Proof.
  revert out. induction items as [|[k cs] items IH]; intros out Hex.
  { by apply Exists_nil in Hex. }
  cbn [JavaRender.print_sections].
  destruct (decide (Exists (λ c, is_modification c = true) cs)) as [Hcs|Hcs].
  - by rewrite java_markdown_for_changes_modification.
  - apply Exists_cons in Hex as [Hex|Hex]; [done|].
    apply not_Exists_Forall in Hcs; [|apply _].
    destruct (java_markdown_for_changes_ok cs) as [es ->].
    { eapply Forall_impl; [exact Hcs|]. intros c Hc. simpl in Hc.
      by destruct (is_modification c). }
    by apply IH.
Qed.

(** ** The pieces of a text that has no boundary and no separator *)

Lemma pieces_elem isb s cur t a :
  t ∈ pieces isb s cur → a ∈ t → a ∈ cur ∨ a ∈ s.
Proof.
  revert cur. induction s as [|b s IH]; intros cur; simpl.
  - intros ->%list_elem_of_singleton. auto.
  - destruct (isb b).
    + intros Ht Ha. apply elem_of_cons in Ht as [->|Ht]; [auto|].
      apply elem_of_cons in Ht as [->|Ht].
      * apply list_elem_of_singleton in Ha as ->. right. left.
      * destruct (IH [] Ht Ha) as [Hnil|?]; [by apply elem_of_nil in Hnil|].
        right. by right.
    + intros Ht Ha. destruct (IH _ Ht Ha) as [Hc|?]; [|right; by right].
      apply elem_of_app in Hc as [?|Hc]; [auto|].
      apply list_elem_of_singleton in Hc as ->. right. left.
Qed.

Lemma elem_of_concat {A} (x : A) (ls : list (list A)) :
  x ∈ concat ls ↔ ∃ l, l ∈ ls ∧ x ∈ l.
Proof.
  rewrite list_elem_of_In, in_concat. split; intros (l & H1 & H2); exists l;
    by rewrite ?list_elem_of_In in *.
Qed.

Section SimplifierMore.
Variable boundaries : regex.
Variable isb : ascii → bool.
Hypothesis boundaries_match : ∀ a s,
  rmatch boundaries (a :: s) [] (λ s1 c, Some (s1, c))
  = if isb a then Some (s, [(1, [a])]) else None.
Hypothesis dot_inside : isb "." = false.
Hypothesis dollar_inside : isb "$" = false.

Lemma simplify_no_separator s :
  ("."%char ∉ simplify_with boundaries s)
  ∧ ("$"%char ∉ simplify_with boundaries s).
Proof.
  unfold simplify_with.
  split; intros Hin; apply elem_of_concat in Hin as (t' & Hin & Ht');
    apply list_elem_of_fmap in Hin as (t & -> & _);
    destruct (simplify_token_suffix t) as (Hdot & Hdollar & _); done.
Qed.

Lemma simplify_plain s :
  "."%char ∉ s → "$"%char ∉ s → simplify_with boundaries s = s.
Proof.
  intros Hdot Hdollar. unfold simplify_with.
  rewrite (re_split_pieces _ isb) by done.
  rewrite <- (concat_pieces isb s []) at 2. f_equal.
  rewrite <- (list_fmap_id (pieces isb s [])) at 2.
  apply list_fmap_ext. intros _ t Ht%list_elem_of_lookup_2.
  unfold _simplify_token.
  assert (∀ a, a ∈ t → a ∈ s) as Hsub.
  { intros a Ha. destruct (pieces_elem _ _ _ _ _ Ht Ha) as [Hnil|?]; [|done].
    by apply elem_of_nil in Hnil. }
  rewrite (after_last_absent "." t) by (intros ?; apply Hdot; auto).
  by rewrite (after_last_absent "$" t) by (intros ?; apply Hdollar; auto).
Qed.

Lemma simplify_qualified pre (c : ascii) name :
  c = "."%char ∨ c = "$"%char →
  Forall (λ a, isb a = false) (pre ++ c :: name) →
  "."%char ∉ name → "$"%char ∉ name →
  simplify_with boundaries (pre ++ c :: name) = name.
Proof.
  intros Hc Hin Hdot Hdollar. unfold simplify_with.
  rewrite (re_split_pieces _ isb) by done.
  rewrite <- (app_nil_r (pre ++ c :: name)) at 1.
  rewrite pieces_inside by done. cbn [pieces app map concat].
  rewrite app_nil_r. unfold _simplify_token.
  destruct Hc as [-> | ->].
  - rewrite after_last_split by done. by apply after_last_absent.
  - destruct (decide ("."%char ∈ pre)) as [Hpre|Hpre].
    + apply list_elem_of_split_r in Hpre as (p1 & p2 & -> & Hp2).
      rewrite <- app_assoc. cbn [app].
      rewrite after_last_split.
      * by apply after_last_split.
      * intros [?|[?|?]%elem_of_cons]%elem_of_app; done.
    + rewrite (after_last_absent ".").
      * by apply after_last_split.
      * intros [?|[?|?]%elem_of_cons]%elem_of_app; done.
Qed.
Lemma pieces_boundary s1 b s2 cur :
  isb b = true →
  concat (map _simplify_token (pieces isb (s1 ++ b :: s2) cur))
  = concat (map _simplify_token (pieces isb s1 cur))
      ++ b :: concat (map _simplify_token (pieces isb s2 [])).
Proof.
  intros Hb. revert cur. induction s1 as [|a s1 IH]; intros cur.
  - cbn [app pieces]. rewrite Hb. cbn [map concat].
    rewrite (simplify_boundary isb) by done. by rewrite app_nil_r.
  - cbn [app pieces]. destruct (isb a) eqn:Ha; [|apply IH].
    cbn [map concat]. rewrite IH. by rewrite <- !app_assoc.
Qed.

Lemma simplify_at_boundary s1 b s2 :
  isb b = true →
  simplify_with boundaries (s1 ++ b :: s2)
  = simplify_with boundaries s1 ++ b :: simplify_with boundaries s2.
Proof.
  intros Hb. unfold simplify_with.
  rewrite !(re_split_pieces _ isb) by done. by apply pieces_boundary.
Qed.
End SimplifierMore.

(** ** Classifier: what a match implies *)

Lemma strip_prefix_Some l s s' : strip_prefix l s = Some s' → s = l ++ s'.
Proof.
  revert s. induction l as [|a l IH]; intros s; simpl.
  - by intros [= ->].
  - destruct s as [|b s]; [done|].
    destruct (Ascii.eqb_spec a b) as [->|]; [|done].
    intros H. by rewrite (IH _ H).
Qed.

Section MatchFacts.
Context {R : Type}.
Implicit Types (k : cont (R := R)) (c : caps) (s : str).

(** Every answer of the search comes from a derivation. *)
Lemma rmatch_steps r s c k x :
  rmatch r s c k = Some x → ∃ s' c', steps r s c s' c' ∧ k s' c' = Some x.
Proof.
  revert s c k.
  induction r as [l|p|r1 IH1 r2 IH2|r1 IH1 r2 IH2|r IH|r IH|i r IH];
    intros s c k; cbn [rmatch].
  - destruct (strip_prefix l s) as [s'|] eqn:Hl; [|done].
    apply strip_prefix_Some in Hl as ->. intros Hk. exists s', c.
    split; [constructor|done].
  - destruct s as [|a s]; [done|]. destruct (p a) eqn:Ha; [|done].
    intros Hk. exists s, c. split; [by constructor|done].
  - intros (s1 & c1 & H1 & (s2 & c2 & H2 & Hk)%IH2)%IH1.
    exists s2, c2. split; [by econstructor|done].
  - destruct (rmatch r1 s c k) eqn:E1.
    + intros [= ->]. apply IH1 in E1 as (s' & c' & ? & ?).
      exists s', c'. split; [by apply steps_alt_l|done].
    + intros (s' & c' & ? & ?)%IH2.
      exists s', c'. split; [by apply steps_alt_r|done].
  - generalize (length s). intros n. revert s c.
    induction n as [|n IHn]; intros s c; cbn [star_loop].
    + intros Hk. exists s, c. split; [constructor|done].
    + destruct (rmatch r s c (star_loop (rmatch r) k n)) eqn:E.
      * intros [= ->].
        apply IH in E as (s1 & c1 & H1 & (s2 & c2 & H2 & Hk)%IHn).
        exists s2, c2. split; [by econstructor|done].
      * intros Hk. exists s, c. split; [constructor|done].
  - generalize (length s). intros n. revert s c.
    induction n as [|n IHn]; intros s c; cbn [lazy_loop].
    + intros Hk. exists s, c. split; [constructor|done].
    + destruct (k s c) eqn:E.
      * intros [= ->]. exists s, c. split; [constructor|done].
      * intros (s1 & c1 & H1 & (s2 & c2 & H2 & Hk)%IHn)%IH.
        exists s2, c2. split; [by econstructor|done].
  - intros (s' & c' & H & Hk)%IH. eexists _, _. split; [by constructor|done].
Qed.
End MatchFacts.

(** A derivation takes a prefix of the text. *)
Lemma steps_prefix r s c s' c' : steps r s c s' c' → ∃ u, s = u ++ s'.
Proof.
  induction 1 as [l s c|p a s c Ha|r1 r2 s c s1 c1 s2 c2 _ [u1 ->] _ [u2 ->]
    |r1 r2 s c s' c' _ IH|r1 r2 s c s' c' _ IH|r s c
    |r s c s1 c1 s2 c2 _ [u1 ->] _ [u2 ->]|r s c
    |r s c s1 c1 s2 c2 _ [u1 ->] _ [u2 ->]|i r s c s' c' _ IH];
    try done.
  - by exists l.
  - by exists [a].
  - exists (u1 ++ u2). by rewrite app_assoc.
  - by exists [].
  - exists (u1 ++ u2). by rewrite app_assoc.
  - by exists [].
  - exists (u1 ++ u2). by rewrite app_assoc.
Qed.

(** A pattern without groups leaves the groups as they are. *)
Lemma steps_group_free r s c s' c' :
  group_free r = true → steps r s c s' c' → c' = c.
Proof.
  intros Hr H. induction H; simpl in Hr; try done.
  - apply andb_true_iff in Hr as [H1 H2]. rewrite IHsteps2, IHsteps1; done.
  - apply andb_true_iff in Hr as [H1 H2]. auto.
  - apply andb_true_iff in Hr as [H1 H2]. auto.
  - rewrite IHsteps2, IHsteps1; done.
  - rewrite IHsteps2, IHsteps1; done.
Qed.

(** What a group holds is the text its pattern took. *)
Lemma steps_group_inv i r s c s' c' :
  steps (Group i r) s c s' c' →
  ∃ u c1, s = u ++ s' ∧ steps r s c s' c1 ∧ c' = (i, u) :: c1.
Proof.
  inversion 1 as [| | | | | | | | |i' r' s0 c0 s0' c0' Hr]; subst.
  destruct (steps_prefix _ _ _ _ _ Hr) as [u ->].
  exists u, c0'. by rewrite take_consumed.
Qed.

Lemma steps_seq_inv r1 r2 s c s2 c2 :
  steps (r1 · r2) s c s2 c2 →
  ∃ s1 c1, steps r1 s c s1 c1 ∧ steps r2 s1 c1 s2 c2.
Proof. inversion 1; subst. eauto. Qed.

Lemma steps_cls_inv (p : ascii → bool) s c s' c' :
  steps (Cls p) s c s' c' → ∃ a, s = a :: s' ∧ p a = true ∧ c' = c.
Proof. inversion 1; subst. eauto. Qed.

Lemma steps_lit_inv l s c s' c' :
  steps (Lit l) s c s' c' → s = l ++ s' ∧ c' = c.
Proof. inversion 1; subst. eauto. Qed.

(** A run of a character class. *)
Lemma steps_star_cls (p : ascii → bool) s c s' c' :
  steps (Star (Cls p)) s c s' c' →
  ∃ w, s = w ++ s' ∧ Forall (λ a, p a = true) w ∧ c' = c.
Proof.
  remember (Star (Cls p)) as r eqn:Hr. intros H.
  induction H as [| | | | |r s c|r s c s1 c1 s2 c2 H1 _ H2 IH| | |];
    try done; injection Hr as ->.
  - by exists [].
  - apply steps_cls_inv in H1 as (a & -> & Ha & ->).
    destruct (IH eq_refl) as (w & -> & Hw & ->).
    exists (a :: w). split_and!; [done|by constructor|done].
Qed.

Lemma steps_lazy_cls (p : ascii → bool) s c s' c' :
  steps (LazyStar (Cls p)) s c s' c' →
  ∃ w, s = w ++ s' ∧ Forall (λ a, p a = true) w ∧ c' = c.
Proof.
  remember (LazyStar (Cls p)) as r eqn:Hr. intros H.
  induction H as [| | | | | | |r s c|r s c s1 c1 s2 c2 H1 _ H2 IH|];
    try done; injection Hr as ->.
  - by exists [].
  - apply steps_cls_inv in H1 as (a & -> & Ha & ->).
    destruct (IH eq_refl) as (w & -> & Hw & ->).
    exists (a :: w). split_and!; [done|by constructor|done].
Qed.

Lemma steps_plus_cls (p : ascii → bool) s c s' c' :
  steps (Plus (Cls p)) s c s' c' →
  ∃ w, s = w ++ s' ∧ w ≠ [] ∧ Forall (λ a, p a = true) w ∧ c' = c.
Proof.
  intros (s1 & c1 & (a & -> & Ha & ->)%steps_cls_inv
             & (w & -> & Hw & ->)%steps_star_cls)%steps_seq_inv.
  exists (a :: w). split_and!; [done|done|by constructor|done].
Qed.

Lemma steps_lazy_plus_cls (p : ascii → bool) s c s' c' :
  steps (LazyPlus (Cls p)) s c s' c' →
  ∃ w, s = w ++ s' ∧ w ≠ [] ∧ Forall (λ a, p a = true) w ∧ c' = c.
Proof.
  intros (s1 & c1 & (a & -> & Ha & ->)%steps_cls_inv
             & (w & -> & Hw & ->)%steps_lazy_cls)%steps_seq_inv.
  exists (a :: w). split_and!; [done|done|by constructor|done].
Qed.

Lemma steps_spaces s c s' c' :
  steps (Plus ws) s c s' c' → ∃ sp, s = sp ++ s' ∧ spaces sp ∧ c' = c.
Proof.
  intros (w & -> & ? & ? & ->)%steps_plus_cls. by exists w.
Qed.

Lemma steps_word s c s' c' :
  steps (Plus nws) s c s' c' → ∃ w, s = w ++ s' ∧ word w ∧ c' = c.
Proof.
  intros (w & -> & ? & Hw & ->)%steps_plus_cls. exists w.
  split_and!; [done| |done]. split; [done|].
  eapply Forall_impl; [exact Hw|]. intros a Ha. simpl in Ha.
  by destruct (is_space a).
Qed.

(** [alts]: one of the alternatives. *)
Lemma steps_alts rs s c s' c' :
  steps (alts rs) s c s' c' → ∃ r, r ∈ rs ∧ steps r s c s' c'.
Proof.
  induction rs as [|r [|r' rs] IH]; cbn [alts].
  - intros (a & _ & ? & _)%steps_cls_inv. done.
  - intros H. exists r. split; [left|done].
  - inversion 1; subst.
    + exists r. split; [left|done].
    + destruct IH as (r0 & ? & ?); [done|]. exists r0. split; [by right|done].
Qed.

(** One modifier: a modifier keyword and the whitespace after it. *)
Lemma steps_one_modifier s c s' c' :
  steps one_modifier s c s' c' →
  ∃ (w : string) sp, w ∈ modifier_words ∧ spaces sp
                     ∧ s = bytes w ++ sp ++ s' ∧ c' = c.
Proof.
  intros (r & Hr & H)%steps_alts.
  apply list_elem_of_fmap in Hr as (w & -> & Hw).
  apply steps_seq_inv in H as (s1 & c1 & [-> ->]%steps_lit_inv
                                 & (sp & -> & Hsp & ->)%steps_spaces).
  by exists w, sp.
Qed.

Lemma spaces_starts (w : string) sp s :
  w ∈ modifier_words → spaces sp → starts_with_modifier (bytes w ++ sp ++ s).
Proof.
  intros Hw [Hne Hsp]. destruct Hsp as [|a sp Ha Hsp]; [done|].
  by exists w, a, (sp ++ s).
Qed.

Lemma steps_modifiers s c s' c' :
  steps modifiers s c s' c' → starts_with_modifier s ∧ c' = c.
Proof.
  intros (s1 & c1 & (w & sp & Hw & Hsp & -> & ->)%steps_one_modifier
             & H)%steps_seq_inv.
  split; [by apply spaces_starts|].
  by apply (steps_group_free (Star one_modifier) _ _ _ _ eq_refl) in H.
Qed.

(** No pattern matches a text that does not begin with a modifier. *)
Lemma re_match_needs_modifier r s :
  ¬ starts_with_modifier s → re_match (modifiers · r) s = None.
Proof.
  intros Hs. unfold re_match.
  destruct (rmatch (modifiers · r) s [] (λ _ c, Some c)) as [m|] eqn:E;
    [|done].
  apply rmatch_steps in E as (s' & c' & H & _).
  apply steps_seq_inv in H as (s1 & c1 & [? _]%steps_modifiers & _). done.
Qed.

Lemma steps_chr a s c s' c' : steps (chr a) s c s' c' → s = a :: s' ∧ c' = c.
Proof.
  intros (b & -> & Hb & ->)%steps_cls_inv.
  by apply Ascii.eqb_eq in Hb as ->.
Qed.

Lemma steps_rest_of_line s c s' c' :
  steps (Star dot) s c s' c' → ∃ u, s = u ++ s' ∧ (LF ∉ u) ∧ c' = c.
Proof.
  intros (u & -> & Hu & ->)%steps_star_cls. exists u. split_and!; [done| |done].
  intros Hin. rewrite Forall_forall in Hu. apply Hu in Hin.
  by rewrite Ascii.eqb_refl in Hin.
Qed.

(** [.+?\s+]: a type and the whitespace after it. *)
Lemma steps_object_type s c s' c' :
  steps object_type s c s' c' →
  ∃ ty sp, s = ty ++ sp ++ s' ∧ ty ≠ [] ∧ (LF ∉ ty) ∧ spaces sp ∧ c' = c.
Proof.
  intros (s1 & c1 & (ty & -> & Hne & Hty & ->)%steps_lazy_plus_cls
             & (sp & -> & Hsp & ->)%steps_spaces)%steps_seq_inv.
  exists ty, sp. split_and!; [by rewrite <- ?app_assoc|done| |done|done].
  intros Hin. rewrite Forall_forall in Hty. apply Hty in Hin.
  by rewrite Ascii.eqb_refl in Hin.
Qed.

(** [\S+\(.*\)]: a name and its parameters in parentheses. *)
Lemma steps_name_and_parameters s c s' c' :
  steps name_and_parameters s c s' c' →
  ∃ name params,
    s = name ++ "("%char :: params ++ ")"%char :: s'
    ∧ word name ∧ (LF ∉ params) ∧ c' = c.
Proof.
  intros (s1 & c1 & (name & -> & Hname & ->)%steps_word
          & (s2 & c2 & [-> ->]%steps_chr
             & (s3 & c3 & (params & -> & Hp & ->)%steps_rest_of_line
                & [-> ->]%steps_chr)%steps_seq_inv)%steps_seq_inv)%steps_seq_inv.
  exists name, params. split_and!; [|done..].
  by rewrite <- ?app_assoc.
Qed.

Lemma re_match_steps r s m :
  re_match r s = Some m → ∃ s', steps r s [] s' m.
Proof.
  unfold re_match. intros (s' & c' & H & [= ->])%rmatch_steps. by exists s'.
Qed.

Lemma steps_klass_type s c s' c' :
  steps Java.klass_type s c s' c' →
  ∃ kw : string, kw ∈ klass_words ∧ s = bytes kw ++ s' ∧ c' = c.
Proof.
  intros (r & Hr & H)%steps_alts.
  repeat (apply elem_of_cons in Hr as [->|Hr];
          [apply steps_lit_inv in H as [-> ->]; eexists; split_and!;
             [|reflexivity|done]; unfold klass_words; set_solver|]).
  by apply elem_of_nil in Hr.
Qed.

(** *** The four patterns of [java] *)

Lemma java_klass_pattern_shape s m :
  re_match Java.klass_pattern s = Some m →
  ∃ pre (kw : string) sp w clause post,
    s = pre ++ bytes kw ++ sp ++ w ++ clause ++ post
    ∧ starts_with_modifier s ∧ kw ∈ klass_words ∧ spaces sp ∧ word w
    ∧ m = [(3, clause); (2, w); (1, bytes kw)].
Proof.
  intros [s5 H]%re_match_steps. unfold Java.klass_pattern in H.
  apply steps_seq_inv in H as (s1 & c1 & Hm & H).
  destruct (steps_prefix _ _ _ _ _ Hm) as [pre ->].
  apply steps_modifiers in Hm as [Hstart ->].
  apply steps_seq_inv in H as (s2 & c2 & (u1 & c1' & -> & Hk & ->)%steps_group_inv & H).
  apply steps_klass_type in Hk as (kw & Hkw & Heq & ->).
  apply app_inv_tail in Heq as ->.
  apply steps_seq_inv in H as (s3 & c3 & (sp & -> & Hsp & ->)%steps_spaces & H).
  apply steps_seq_inv in H as (s4 & c4 & (u2 & c3' & -> & Hw & ->)%steps_group_inv & H).
  apply steps_word in Hw as (w & Heq & Hw & ->).
  apply app_inv_tail in Heq as ->.
  apply steps_group_inv in H as (u3 & c4' & -> & H & ->).
  apply steps_rest_of_line in H as (u & Heq & _ & ->).
  exists pre, kw, sp, w, u3, s5. split_and!; done.
Qed.

Lemma java_method_pattern_shape s m :
  re_match Java.method_pattern s = Some m →
  ∃ pre ty sp name params post,
    s = pre ++ (ty ++ sp ++ name ++ "("%char :: params ++ [")"%char]) ++ post
    ∧ starts_with_modifier s ∧ ty ≠ [] ∧ (LF ∉ ty) ∧ spaces sp ∧ word name
    ∧ (LF ∉ params)
    ∧ m = [(1, ty ++ sp ++ name ++ "("%char :: params ++ [")"%char]);
           (2, name ++ "("%char :: params ++ [")"%char])].
Proof.
  intros [s5 H]%re_match_steps. unfold Java.method_pattern in H.
  apply steps_seq_inv in H as (s1 & c1 & Hm & H).
  destruct (steps_prefix _ _ _ _ _ Hm) as [pre ->].
  apply steps_modifiers in Hm as [Hstart ->].
  apply steps_seq_inv in H as (s2 & c2 & (u1 & c1' & -> & H1 & ->)%steps_group_inv & H).
  apply steps_rest_of_line in H as (post' & -> & _ & ->).
  apply steps_seq_inv in H1 as (s3 & c3 & (ty & sp & Heq & Hty & Hlf & Hsp & ->)%steps_object_type & H1).
  apply steps_group_inv in H1 as (u2 & c3' & -> & H1 & ->).
  apply steps_name_and_parameters in H1 as (name & params & Heq2 & Hname & Hp & ->).
  assert (u2 = name ++ "("%char :: params ++ [")"%char]) as ->.
  { apply (app_inv_tail (post' ++ s5)). rewrite Heq2.
    rewrite <- !app_assoc. cbn [app]. by rewrite <- !app_assoc. }
  assert (u1 = ty ++ sp ++ name ++ "("%char :: params ++ [")"%char]) as ->.
  { apply (app_inv_tail (post' ++ s5)). rewrite Heq.
    by rewrite <- !app_assoc. }
  exists pre, ty, sp, name, params, (post' ++ s5). split_and!; done.
Qed.

Lemma java_constructor_pattern_shape s m :
  re_match Java.constructor_pattern s = Some m →
  ∃ pre name params post,
    s = pre ++ (name ++ "("%char :: params ++ [")"%char]) ++ post
    ∧ starts_with_modifier s ∧ word name ∧ (LF ∉ params)
    ∧ m = [(1, name ++ "("%char :: params ++ [")"%char])].
Proof.
  intros [s5 H]%re_match_steps. unfold Java.constructor_pattern in H.
  apply steps_seq_inv in H as (s1 & c1 & Hm & H).
  destruct (steps_prefix _ _ _ _ _ Hm) as [pre ->].
  apply steps_modifiers in Hm as [Hstart ->].
  apply steps_seq_inv in H as (s2 & c2 & (u1 & c1' & -> & H1 & ->)%steps_group_inv & H).
  apply steps_rest_of_line in H as (post' & -> & _ & ->).
  apply steps_name_and_parameters in H1 as (name & params & Heq & Hname & Hp & ->).
  assert (u1 = name ++ "("%char :: params ++ [")"%char]) as ->.
  { apply (app_inv_tail (post' ++ s5)). rewrite Heq.
    rewrite <- !app_assoc. cbn [app]. by rewrite <- !app_assoc. }
  exists pre, name, params, (post' ++ s5). split_and!; done.
Qed.

Lemma java_field_pattern_shape s m :
  re_match Java.field_pattern s = Some m →
  ∃ pre ty sp w post,
    s = pre ++ (ty ++ sp ++ w) ++ post
    ∧ starts_with_modifier s ∧ ty ≠ [] ∧ (LF ∉ ty) ∧ spaces sp ∧ word w
    ∧ m = [(1, ty ++ sp ++ w); (2, w)].
Proof.
  intros [s5 H]%re_match_steps. unfold Java.field_pattern in H.
  apply steps_seq_inv in H as (s1 & c1 & Hm & H).
  destruct (steps_prefix _ _ _ _ _ Hm) as [pre ->].
  apply steps_modifiers in Hm as [Hstart ->].
  apply steps_group_inv in H as (u1 & c1' & -> & H1 & ->).
  apply steps_seq_inv in H1 as (s3 & c3 & (ty & sp & Heq & Hty & Hlf & Hsp & ->)%steps_object_type & H1).
  apply steps_group_inv in H1 as (u2 & c3' & -> & H1 & ->).
  apply steps_word in H1 as (w & Heq2 & Hw & ->).
  apply app_inv_tail in Heq2 as ->.
  assert (u1 = ty ++ sp ++ w) as ->.
  { apply (app_inv_tail s5). rewrite Heq. by rewrite <- !app_assoc. }
  exists pre, ty, sp, w, s5. split_and!; done.
Qed.

(** *** The four patterns of [android] *)

Lemma android_klass_pattern_shape s m :
  re_match Android.klass_pattern s = Some m →
  ∃ pre sp w post,
    s = pre ++ bytes "class" ++ sp ++ w ++ post
    ∧ starts_with_modifier s ∧ spaces sp ∧ word w ∧ m = [(1, w)].
Proof.
  intros [s5 H]%re_match_steps. unfold Android.klass_pattern in H.
  apply steps_seq_inv in H as (s1 & c1 & Hm & H).
  destruct (steps_prefix _ _ _ _ _ Hm) as [pre ->].
  apply steps_modifiers in Hm as [Hstart ->].
  apply steps_seq_inv in H as (s2 & c2 & [-> ->]%steps_lit_inv & H).
  apply steps_seq_inv in H as (s3 & c3 & (sp & -> & Hsp & ->)%steps_spaces & H).
  apply steps_seq_inv in H as (s4 & c4 & (u2 & c3' & -> & Hw & ->)%steps_group_inv & H).
  apply steps_word in Hw as (w & Heq & Hw & ->).
  apply app_inv_tail in Heq as ->.
  apply steps_rest_of_line in H as (u & -> & _ & ->).
  exists pre, sp, w, (u ++ s5). split_and!; done.
Qed.

Lemma android_method_pattern_shape s m :
  re_match Android.method_pattern s = Some m →
  ∃ pre ty sp name params post,
    s = pre ++ ty ++ sp ++ (name ++ "("%char :: params ++ [")"%char]) ++ post
    ∧ starts_with_modifier s ∧ ty ≠ [] ∧ spaces sp ∧ word name
    ∧ (LF ∉ params)
    ∧ m = [(1, name ++ "("%char :: params ++ [")"%char])].
Proof.
  intros [s5 H]%re_match_steps. unfold Android.method_pattern in H.
  apply steps_seq_inv in H as (s1 & c1 & Hm & H).
  destruct (steps_prefix _ _ _ _ _ Hm) as [pre ->].
  apply steps_modifiers in Hm as [Hstart ->].
  apply steps_seq_inv in H as (s2 & c2 & (ty & sp & -> & Hty & Hlf & Hsp & ->)%steps_object_type & H).
  apply steps_seq_inv in H as (s3 & c3 & (u1 & c1' & -> & H1 & ->)%steps_group_inv & H).
  apply steps_rest_of_line in H as (post' & -> & _ & ->).
  apply steps_name_and_parameters in H1 as (name & params & Heq & Hname & Hp & ->).
  assert (u1 = name ++ "("%char :: params ++ [")"%char]) as ->.
  { apply (app_inv_tail (post' ++ s5)). rewrite Heq.
    rewrite <- !app_assoc. cbn [app]. by rewrite <- !app_assoc. }
  exists pre, ty, sp, name, params, (post' ++ s5). split_and!; done.
Qed.

Lemma android_constructor_pattern_shape s m :
  re_match Android.constructor_pattern s = Some m →
  ∃ pre name params post,
    s = pre ++ (name ++ "("%char :: params ++ [")"%char]) ++ post
    ∧ starts_with_modifier s ∧ word name ∧ (LF ∉ params)
    ∧ m = [(1, name ++ "("%char :: params ++ [")"%char])].
Proof. apply java_constructor_pattern_shape. Qed.

Lemma android_field_pattern_shape s m :
  re_match Android.field_pattern s = Some m →
  ∃ pre ty sp w post,
    s = pre ++ ty ++ sp ++ w ++ post
    ∧ starts_with_modifier s ∧ ty ≠ [] ∧ spaces sp ∧ word w
    ∧ m = [(1, w)].
Proof.
  intros [s5 H]%re_match_steps. unfold Android.field_pattern in H.
  apply steps_seq_inv in H as (s1 & c1 & Hm & H).
  destruct (steps_prefix _ _ _ _ _ Hm) as [pre ->].
  apply steps_modifiers in Hm as [Hstart ->].
  apply steps_seq_inv in H as (s2 & c2 & (ty & sp & -> & Hty & Hlf & Hsp & ->)%steps_object_type & H).
  apply steps_group_inv in H as (u1 & c1' & -> & H1 & ->).
  apply steps_word in H1 as (w & Heq & Hw & ->).
  apply app_inv_tail in Heq as ->.
  exists pre, ty, sp, w, s5. split_and!; done.
Qed.

(** ** Tables without evaluating them *)

Lemma lines_classified_parsed {D} (classify : str → result (Kind * str * D))
    content :
  lines_classified classify (readlines content) = true →
  ∃ T, _symbols_for_klass classify content = Ok T.
Proof.
  intros Hall. unfold _symbols_for_klass, symbols_for_lines.
  apply (symbols_loop_ok classify); [done|by left|].
  intros m line Hm Hne. unfold lines_classified in Hall.
  rewrite forallb_forall in Hall.
  specialize (Hall line). rewrite <- list_elem_of_In in Hall.
  destruct (classify (definition_text line)); [by eexists|].
  exfalso. assert (false = true); [|done]. apply Hall.
  apply list_elem_of_lookup. exists m. rewrite lookup_take_lt; [done|].
  apply lookup_lt_Some in Hm. simpl in Hne. lia.
Qed.

Lemma library_loop_parsed {D} (classify : str → result (Kind * str * D))
    file rest symbols t :
  _symbols_for_klass classify file = Ok t →
  library_loop classify (file :: rest) symbols
  = library_loop classify rest (t ∪ symbols).
Proof. intros Ht. by rewrite library_loop_cons, Ht. Qed.

Lemma single_file_library {D} (classify : str → result (Kind * str * D))
    file T :
  _symbols_for_klass classify file = Ok T →
  _symbols_for_library classify [file] = Ok T.
Proof.
  intros HT. unfold _symbols_for_library.
  rewrite (library_loop_parsed _ _ _ _ _ HT).
  simpl. by rewrite (right_id_L ∅ (∪)).
Qed.

(** ** Runs *)

Lemma java_markdown_for_changes_raises (cs : list (Change Java.Definition_)) e :
  JavaRender.markdown_for_changes cs = Raise e →
  e = AttributeError (bytes "definition")
  ∧ Exists (λ c, is_modification c = true) cs.
Proof.
  intros He.
  destruct (decide (Exists (λ c, is_modification c = true) cs)) as [Hcs|Hcs].
  - rewrite java_markdown_for_changes_modification in He by done.
    by injection He as <-.
  - apply not_Exists_Forall in Hcs; [|apply _].
    destruct (java_markdown_for_changes_ok cs) as [es Hes]; [|congruence].
    eapply Forall_impl; [exact Hcs|]. intros c Hc. simpl in Hc.
    by destruct (is_modification c).
Qed.

Lemma java_print_sections_app
    (before rest : list (str * list (Change Java.Definition_))) out entries :
  Forall2 (λ item es, JavaRender.markdown_for_changes item.2 = Ok es)
    before entries →
  JavaRender.print_sections (before ++ rest) out
  = JavaRender.print_sections rest
      (out ++ concat (zip_with (λ item es,
                        section_text (JavaRender._simplify item.1) es)
                      before entries)).
Proof.
  intros Hall. revert out.
  induction Hall as [|[k cs] es before entries Hes _ IH]; intros out.
  - simpl. by rewrite app_nil_r.
  - cbn [app JavaRender.print_sections]. simpl in Hes. rewrite Hes, IH.
    f_equal. cbn [zip_with concat fst]. unfold section_text.
    by rewrite <- !app_assoc.
Qed.

Lemma java_print_sections_raised
    (items : list (str * list (Change Java.Definition_))) out e :
  raised (JavaRender.print_sections items out) = Some e →
  e = AttributeError (bytes "definition")
  ∧ Exists (λ item, Exists (λ c, is_modification c = true) item.2) items
  ∧ ∃ more, stdout (JavaRender.print_sections items out)
            = out ++ bytes "## " ++ more.
Proof.
  revert out. induction items as [|[k cs] items IH]; intros out; [done|].
  cbn [JavaRender.print_sections].
  destruct (JavaRender.markdown_for_changes cs) as [es|e'] eqn:Hcs.
  - intros He. destruct (IH _ He) as (-> & Hex & more & ->).
    split_and!; [done|by right|].
    eexists. rewrite <- !app_assoc. reflexivity.
  - cbn [raised stdout]. intros [= <-].
    destruct (java_markdown_for_changes_raises _ _ Hcs) as [-> Hex].
    split_and!; [done|by left|].
    eexists. rewrite <- !app_assoc. reflexivity.
Qed.

Lemma java_changes_modification
    (old_symbols new_symbols : gmap SymbolId Java.Definition_) i
    old_definition new_definition :
  old_symbols !! i = Some old_definition →
  new_symbols !! i = Some new_definition →
  Java.full old_definition ≠ Java.full new_definition →
  ∃ cs, _changes Java.full old_symbols new_symbols !! klass i = Some cs
        ∧ Modification i old_definition new_definition ∈ cs.
Proof.
  intros Ho Hn Hfull.
  pose proof (changes_about_spec Java.full old_symbols new_symbols i) as Hi.
  unfold expected_changes in Hi. rewrite Ho, Hn in Hi.
  rewrite decide_False in Hi by done. unfold changes_about in Hi.
  destruct (_changes Java.full old_symbols new_symbols !! klass i)
    as [cs|] eqn:Hcs; [|done].
  simpl in Hi. exists cs. split; [done|].
  assert (Modification i old_definition new_definition
          ∈ filter (λ c, symbol_id_of c = i) cs) as Hin
    by (rewrite Hi; left).
  by apply list_elem_of_filter in Hin as [_ Hin].
Qed.

Lemma changes_modification {D} (full_text : D → str)
    (old_symbols new_symbols : gmap SymbolId D) k cs c :
  _changes full_text old_symbols new_symbols !! k = Some cs →
  c ∈ cs → is_modification c = true →
  ∃ i od nd, c = Modification i od nd
             ∧ old_symbols !! i = Some od ∧ new_symbols !! i = Some nd
             ∧ full_text od ≠ full_text nd.
Proof.
  intros Hk Hc Hmod.
  pose proof (report_lookup full_text old_symbols new_symbols k) as Hl.
  rewrite Hk in Hl. simpl in Hl. rewrite Hl in Hc.
  apply list_elem_of_filter in Hc as [_ Hc].
  apply elem_of_all_changes in Hc.
  destruct c as [i d|i d|i od nd]; [done..|].
  exists i, od, nd. split; [done|].
  cbn [symbol_id_of] in Hc. unfold expected_changes in Hc.
  destruct (old_symbols !! i) as [od'|], (new_symbols !! i) as [nd'|];
    try (by apply elem_of_nil in Hc);
    try (by apply list_elem_of_singleton in Hc).
  destruct (decide (full_text od' = full_text nd')) as [|Hne];
    [by apply elem_of_nil in Hc|].
  apply list_elem_of_singleton in Hc. by simplify_eq.
Qed.

Lemma library_raises {D} (classify : str → result (Kind * str * D))
    files e :
  raises_parse_errors_only classify →
  _symbols_for_library classify files = Raise e → ∃ t, e = CouldNotParse t.
Proof.
  intros Hraises He. apply library_loop_raises in He as (f & _ & Hf).
  by eapply symbols_for_klass_raises.
Qed.

(** ** Runs of a character class in a text *)

Lemma run_unique (p : ascii → bool) u1 v1 u2 v2 :
  Forall (λ a, p a = true) u1 → Forall (λ a, p a = true) u2 →
  stops p v1 → stops p v2 → u1 ++ v1 = u2 ++ v2 → u1 = u2 ∧ v1 = v2.
Proof.
  intros H1. revert u2.
  induction H1 as [|a u1 Ha H1 IH]; intros u2 H2 Hv1 Hv2 Heq.
  - destruct H2 as [|b u2 Hb H2]; [done|]. simpl in Heq. subst v1.
    simpl in Hv1. congruence.
  - destruct H2 as [|b u2 Hb H2]; simpl in Heq.
    + subst v2. simpl in Hv2. congruence.
    + injection Heq as -> Heq. by destruct (IH u2 H2 Hv1 Hv2 Heq) as [-> ->].
Qed.

Lemma run_prefix (p : ascii → bool) u1 v1 u2 v2 :
  stops p v1 → Forall (λ a, p a = true) u2 →
  u1 ++ v1 = u2 ++ v2 → ∃ d, u1 = u2 ++ d ∧ v2 = d ++ v1.
Proof.
  intros Hv1 H2. revert u1.
  induction H2 as [|b u2 Hb H2 IH]; intros u1 Heq.
  - by exists u1.
  - destruct u1 as [|a u1]; simpl in Heq.
    + subst v1. simpl in Hv1. congruence.
    + injection Heq as -> Heq. destruct (IH u1 Heq) as (d & -> & ->).
      by exists d.
Qed.

Lemma word_unique w1 r1 w2 r2 :
  Forall (λ a, is_space a = false) w1 → Forall (λ a, is_space a = false) w2 →
  trailing_clause r1 → trailing_clause r2 →
  w1 ++ r1 = w2 ++ r2 → w1 = w2 ∧ r1 = r2.
Proof.
  intros H1 H2 Hr1 Hr2. apply (run_unique (λ a, negb (is_space a))).
  - eapply Forall_impl; [exact H1|]. by intros a ->.
  - eapply Forall_impl; [exact H2|]. by intros a ->.
  - destruct r1; [done|]. simpl in *. by rewrite Hr1.
  - destruct r2; [done|]. simpl in *. by rewrite Hr2.
Qed.

Lemma spaces_trailing sp s : spaces sp → trailing_clause (sp ++ s).
Proof. intros [Hne Hsp]. by destruct Hsp. Qed.

Lemma word_stops w s : word w → stops is_space (w ++ s).
Proof. intros [Hne Hw]. by destruct Hw. Qed.

Lemma modifier_word_plain (w : string) :
  w ∈ modifier_words →
  Forall (λ a, is_space a = false) (bytes w) ∧ ("("%char ∉ bytes w).
Proof.
  intros Hw. unfold modifier_words in Hw.
  repeat (apply elem_of_cons in Hw as [->|Hw];
          [split; [by repeat constructor|decide_closed]|]).
  by apply elem_of_nil in Hw.
Qed.

Lemma klass_word_plain (kw : string) :
  kw ∈ klass_words →
  Forall (λ a, is_space a = false) (bytes kw) ∧ ("("%char ∉ bytes kw)
  ∧ kw ∉ modifier_words.
Proof.
  intros Hw. unfold klass_words in Hw.
  repeat (apply elem_of_cons in Hw as [->|Hw];
          [split_and!; [by repeat constructor|decide_closed..]|]).
  by apply elem_of_nil in Hw.
Qed.

(** A text that begins with a word other than a modifier keyword does not
    begin with a modifier. *)
Lemma word_not_modifier ty rest :
  word ty → (∀ w : string, w ∈ modifier_words → ty ≠ bytes w) →
  trailing_clause rest → ¬ starts_with_modifier (ty ++ rest).
Proof.
  intros [_ Hty] Hno Hrest (w & a & t & Hw & Ha & Heq).
  destruct (modifier_word_plain w Hw) as [Hplain _].
  destruct (word_unique ty rest (bytes w) (a :: t)) as [? _]; [done..|].
  by eapply Hno.
Qed.

(** ** The modifiers a match takes *)

Lemma steps_star_modifiers s c s' c' :
  steps (Star one_modifier) s c s' c' →
  c' = c ∧ (s = s' ∨ ∃ m, modifier_run m ∧ s = m ++ s').
Proof.
  remember (Star one_modifier) as r eqn:Hr. intros H.
  induction H as [| | | | |r s c|r s c s1 c1 s2 c2 H1 _ H2 IH| | |];
    try done; injection Hr as ->.
  - split; [done|by left].
  - apply steps_one_modifier in H1 as (w & sp & Hw & Hsp & -> & ->).
    destruct (IH eq_refl) as (-> & [->|(m & Hm & ->)]).
    + split; [done|]. right. exists (bytes w ++ sp).
      split; [by constructor|by rewrite <- app_assoc].
    + split; [done|]. right. exists (bytes w ++ sp ++ m).
      split; [by constructor|by rewrite <- !app_assoc].
Qed.

Lemma steps_modifiers_run s c s' c' :
  steps modifiers s c s' c' → ∃ m, modifier_run m ∧ s = m ++ s' ∧ c' = c.
Proof.
  intros (s1 & c1 & (w & sp & Hw & Hsp & -> & ->)%steps_one_modifier
             & H)%steps_seq_inv.
  apply steps_star_modifiers in H as (-> & [->|(m & Hm & ->)]).
  - exists (bytes w ++ sp). split_and!; [by constructor|by rewrite <- app_assoc|done].
  - exists (bytes w ++ sp ++ m).
    split_and!; [by constructor|by rewrite <- !app_assoc|done].
Qed.

Lemma modifier_run_head m :
  modifier_run m →
  ∃ (w : string) sp t, w ∈ modifier_words ∧ spaces sp ∧ m = bytes w ++ sp ++ t
                       ∧ (t = [] ∨ modifier_run t).
Proof.
  intros [w sp Hw Hsp|w sp m' Hw Hsp Hm].
  - exists w, sp, []. by rewrite app_nil_r; auto.
  - exists w, sp, m'. auto.
Qed.

(** Where the modifiers of a match may end in a text [m ++ X], [m] the
    modifiers of the text and [X] what follows them: at [X], before a
    further modifier, or within whitespace. *)
Lemma modifier_prefix_cases m X pre t :
  modifier_run m → stops is_space X → ¬ starts_with_modifier X →
  modifier_run pre → m ++ X = pre ++ t →
  (pre = m ∧ t = X) ∨ starts_with_modifier t
  ∨ (∃ a t', is_space a = true ∧ t = a :: t').
Proof.
  intros Hm HX Hno. revert pre.
  assert (∀ (w w2 : string) sp sp2 Y Z,
    w ∈ modifier_words → w2 ∈ modifier_words → spaces sp → spaces sp2 →
    stops is_space Y →
    bytes w ++ sp ++ Y = bytes w2 ++ sp2 ++ Z →
    bytes w = bytes w2 ∧ ∃ d, sp = sp2 ++ d ∧ Z = d ++ Y
                              ∧ Forall (λ a, is_space a = true) d) as Htoken.
  { intros w w2 sp sp2 Y Z Hw Hw2 Hsp Hsp2 HY Heq.
    destruct (modifier_word_plain w Hw) as [Hp _].
    destruct (modifier_word_plain w2 Hw2) as [Hp2 _].
    destruct (word_unique _ _ _ _ Hp Hp2 (spaces_trailing sp Y Hsp)
                (spaces_trailing sp2 Z Hsp2) Heq) as [Hww Heq'].
    split; [done|].
    destruct (run_prefix is_space sp Y sp2 Z HY (proj2 Hsp2) Heq')
      as (d & -> & ->).
    exists d. split_and!; [done..|].
    destruct Hsp as [_ Hsp]. by apply Forall_app in Hsp as [_ ?]. }
  induction Hm as [w sp Hw Hsp|w sp m' Hw Hsp Hm IH]; intros pre Hpre Heq.
  - destruct Hpre as [w2 sp2 Hw2 Hsp2|w2 sp2 p' Hw2 Hsp2 Hp'].
    + rewrite <- !app_assoc in Heq.
      destruct (Htoken _ _ _ _ _ _ Hw Hw2 Hsp Hsp2 HX Heq)
        as (Hww & d & -> & -> & Hd).
      destruct Hd as [|a d Ha Hd].
      * left. by rewrite Hww, !app_nil_r.
      * right. right. by exists a, (d ++ X).
    + rewrite <- !app_assoc in Heq.
      destruct (Htoken _ _ _ _ _ _ Hw Hw2 Hsp Hsp2 HX Heq)
        as (Hww & d & -> & Heq' & Hd).
      destruct Hd as [|a d Ha Hd].
      * exfalso. apply Hno. simpl in Heq'. rewrite <- Heq'.
        destruct (modifier_run_head _ Hp') as (w3 & sp3 & t3 & ? & ? & -> & _).
        rewrite <- !app_assoc. by apply spaces_starts.
      * exfalso. pose proof (modifier_run_stops p' t Hp') as Hs.
        rewrite Heq' in Hs. simpl in Hs. congruence.
  - destruct Hpre as [w2 sp2 Hw2 Hsp2|w2 sp2 p' Hw2 Hsp2 Hp'].
    + rewrite <- !app_assoc in Heq.
      destruct (Htoken _ _ _ _ _ _ Hw Hw2 Hsp Hsp2
                  (modifier_run_stops m' X Hm) Heq)
        as (Hww & d & -> & -> & Hd).
      destruct Hd as [|a d Ha Hd].
      * right. left. simpl.
        destruct (modifier_run_head _ Hm) as (w3 & sp3 & t3 & ? & ? & -> & _).
        rewrite <- !app_assoc. by apply spaces_starts.
      * right. right. by exists a, (d ++ m' ++ X).
    + rewrite <- !app_assoc in Heq.
      destruct (Htoken _ _ _ _ _ _ Hw Hw2 Hsp Hsp2
                  (modifier_run_stops m' X Hm) Heq)
        as (Hww & d & -> & Heq' & Hd).
      destruct Hd as [|a d Ha Hd].
      * simpl in Heq'. rewrite app_nil_r.
        destruct (IH p' Hp' (eq_sym Heq')) as [[-> ->]|Hcase]; [|by right].
        left. by rewrite Hww.
      * exfalso. pose proof (modifier_run_stops p' t Hp') as Hs.
        rewrite Heq' in Hs. simpl in Hs. congruence.
Qed.

(** ** Lines that are not type declarations *)

Lemma not_modifier_blocked {R : Type} X :
  ¬ starts_with_modifier X → blocked (R := R) X.
Proof.
  intros Hno c k.
  destruct (rmatch one_modifier X c k) as [x|] eqn:E; [|done].
  apply rmatch_steps in E as (s' & c' & H & _).
  apply steps_one_modifier in H as (w & sp & Hw & Hsp & -> & _).
  exfalso. apply Hno. by apply spaces_starts.
Qed.

(** After the modifiers of a type declaration comes a keyword and
    whitespace: a text whose modifiers are followed by anything else is
    no type declaration. *)
Lemma klass_patterns_fail m X :
  modifier_run m → stops is_space X → ¬ starts_with_modifier X →
  (∀ (kw : string) a t, kw ∈ klass_words → is_space a = true →
                        X ≠ bytes kw ++ a :: t) →
  re_match Java.klass_pattern (m ++ X) = None
  ∧ re_match Android.klass_pattern (m ++ X) = None.
Proof.
  intros Hm HX Hno Hkw.
  assert (∀ pre (kw : string) sp t,
    modifier_run pre → kw ∈ klass_words → spaces sp →
    m ++ X = pre ++ bytes kw ++ sp ++ t → False) as Hcase.
  { intros pre kw sp t Hpre Hk Hsp Heq.
    destruct (klass_word_plain kw Hk) as (Hplain & _ & Hnm).
    destruct (modifier_prefix_cases m X pre _ Hm HX Hno Hpre Heq)
      as [[_ Heq']|[(w & a & t' & Hw & Ha & Heq')|(a & t' & Ha & Heq')]].
    - destruct Hsp as [Hne Hsp]. destruct Hsp as [|a sp Ha Hsp]; [done|].
      by eapply (Hkw kw a (sp ++ t)).
    - destruct (modifier_word_plain w Hw) as [Hp _].
      destruct (word_unique (bytes kw) (sp ++ t) (bytes w) (a :: t'))
        as [Hww _]; [done|done|by apply spaces_trailing|done|done|].
      apply bytes_inj in Hww. by subst.
    - unfold klass_words in Hk.
      repeat (apply elem_of_cons in Hk as [->|Hk];
              [cbn in Heq'; injection Heq' as <- _; by vm_compute in Ha|]).
      by apply elem_of_nil in Hk. }
  split.
  - destruct (re_match Java.klass_pattern (m ++ X)) as [c|] eqn:E; [|done].
    exfalso. apply re_match_steps in E as [s5 H].
    unfold Java.klass_pattern in H.
    apply steps_seq_inv in H as (s1 & c1 & Hmod & H).
    apply steps_modifiers_run in Hmod as (pre & Hpre & Heq & ->).
    apply steps_seq_inv in H
      as (s2 & c2 & (u1 & c1' & -> & Hk & ->)%steps_group_inv & H).
    apply steps_klass_type in Hk as (kw & Hk & Heq2 & ->).
    apply app_inv_tail in Heq2 as ->.
    apply steps_seq_inv in H
      as (s3 & c3 & (sp & -> & Hsp & ->)%steps_spaces & H).
    by eapply (Hcase pre kw sp s3).
  - destruct (re_match Android.klass_pattern (m ++ X)) as [c|] eqn:E; [|done].
    exfalso. apply re_match_steps in E as [s5 H].
    unfold Android.klass_pattern in H.
    apply steps_seq_inv in H as (s1 & c1 & Hmod & H).
    apply steps_modifiers_run in Hmod as (pre & Hpre & Heq & ->).
    apply steps_seq_inv in H as (s2 & c2 & [-> ->]%steps_lit_inv & H).
    apply steps_seq_inv in H
      as (s3 & c3 & (sp & -> & Hsp & ->)%steps_spaces & H).
    eapply (Hcase pre "class"%string sp s3); [done| |done..].
    unfold klass_words. set_solver.
Qed.

(** ** Classifier: members *)

Lemma space_LF : is_space LF = true.
Proof. done. Qed.

Lemma plain_is_dot a : is_space a = false → negb (Ascii.eqb a LF) = true.
Proof.
  intros Ha. destruct (Ascii.eqb_spec a LF) as [->|]; [|done].
  by rewrite space_LF in Ha.
Qed.

Section MemberFacts.
Context {R : Type}.
Implicit Types (k : cont (R := R)) (c : caps) (s w : str).

(** A greedy loop over a character class gives back what it took until
    the rest of the pattern matches: when that fails everywhere beyond
    [s], the match at [s] is the answer. *)
Lemma star_loop_cls_beyond (p : ascii → bool) s c k n :
  (∀ v1 v, s = v1 ++ v → v1 ≠ [] → k v c = None) →
  star_loop (rmatch (Cls p)) k n s c = k s c.
Proof.
  revert s. induction n as [|n IH]; intros s Hk; [done|].
  cbn [star_loop rmatch]. destruct s as [|a s]; [done|].
  destruct (p a); [|done]. rewrite IH.
  - by rewrite (Hk [a] s).
  - intros v1 v -> Hv1. by apply (Hk (a :: v1) v).
Qed.

Lemma star_loop_cls_back (p : ascii → bool) u s c k n x :
  Forall (λ a, p a = true) u →
  (∀ v1 v, s = v1 ++ v → v1 ≠ [] → k v c = None) →
  k s c = Some x → length u ≤ n →
  star_loop (rmatch (Cls p)) k n (u ++ s) c = Some x.
Proof.
  intros Hu Hbeyond Hk. revert n.
  induction Hu as [|a u Ha Hu IH]; intros n Hn.
  - cbn [app]. by rewrite star_loop_cls_beyond.
  - destruct n as [|n]; simpl in Hn; [lia|].
    cbn [star_loop rmatch app]. rewrite Ha, IH; [done|lia].
Qed.

Lemma rmatch_star_cls_back (p : ascii → bool) u s c k x :
  Forall (λ a, p a = true) u →
  (∀ v1 v, s = v1 ++ v → v1 ≠ [] → k v c = None) →
  k s c = Some x →
  rmatch (Star (Cls p)) (u ++ s) c k = Some x.
Proof.
  intros. cbn [rmatch]. apply star_loop_cls_back; [done..|].
  rewrite length_app. lia.
Qed.

(** A lazy loop of [.] over a word stops at the end of the word when
    whitespace must follow. *)
Lemma lazy_loop_word w sp s c k n x :
  Forall (λ a, is_space a = false) w → spaces sp → stops is_space s →
  length w ≤ n → k s c = Some x →
  lazy_loop (rmatch dot) (λ s' c', rmatch (Plus ws) s' c' k) n
    (w ++ sp ++ s) c = Some x.
Proof.
  intros Hw Hsp Hs. revert n.
  induction Hw as [|a w Ha Hw IH]; intros n Hn Hk.
  - assert (rmatch (Plus ws) (sp ++ s) c k = Some x) as Hrun
      by by apply rmatch_spaces.
    destruct n; cbn [lazy_loop app]; by rewrite Hrun.
  - destruct n as [|n]; simpl in Hn; [lia|].
    cbn [lazy_loop app]. unfold Plus at 1, ws at 1.
    cbn [rmatch]. rewrite Ha.
    unfold dot at 1. cbn [rmatch]. rewrite (plain_is_dot a Ha).
    apply IH; [lia|done].
Qed.

Lemma rmatch_object_type ty sp s c k x :
  word ty → spaces sp → stops is_space s → k s c = Some x →
  rmatch object_type (ty ++ sp ++ s) c k = Some x.
Proof.
  intros [Hne Hty] Hsp Hs Hk. destruct Hty as [|a ty Ha Hty]; [done|].
  unfold object_type, LazyPlus. rewrite !rmatch_seq.
  unfold dot at 1. cbn [rmatch app]. rewrite (plain_is_dot a Ha).
  apply lazy_loop_word; [done..| |done].
  rewrite !length_app. lia.
Qed.

(** [\S+\(.*\)] on a name and its parameters: the parenthesis after the
    name opens them, the last one of the text closes them. *)
Lemma rmatch_name_and_parameters name params cl c k x :
  word name → LF ∉ params → "("%char ∉ params →
  "("%char ∉ cl → ")"%char ∉ cl →
  k cl c = Some x →
  rmatch name_and_parameters (name ++ "("%char :: params ++ ")"%char :: cl) c k
  = Some x.
Proof.
  intros [Hne Hname] HLF Hopen Hopen' Hclose Hk.
  destruct Hname as [|a name Ha Hname]; [done|].
  unfold name_and_parameters, Plus. rewrite !rmatch_seq.
  unfold nws at 1. cbn [rmatch app]. rewrite Ha. cbn [negb].
  apply star_loop_cls_back.
  - eapply Forall_impl; [exact Hname|]. by intros b ->.
  - intros v1 v Heq Hv1. unfold chr at 1. cbn [rmatch].
    destruct v as [|b v]; [done|].
    destruct (Ascii.eqb_spec "(" b) as [<-|]; [|done]. exfalso.
    destruct v1 as [|b1 v1]; [done|]. injection Heq as <- Heq.
    assert ("("%char ∈ params ++ ")"%char :: cl) as Hin.
    { rewrite Heq. apply elem_of_app. right. left. }
    apply elem_of_app in Hin as [?|[?|?]%elem_of_cons]; done.
  - unfold chr at 1. cbn [rmatch]. rewrite Ascii.eqb_refl.
    apply star_loop_cls_back.
    + apply Forall_forall. intros b Hb.
      destruct (Ascii.eqb_spec b LF) as [->|]; done.
    + intros v1 v Heq Hv1. unfold chr. cbn [rmatch].
      destruct v as [|b v]; [done|].
      destruct (Ascii.eqb_spec ")" b) as [<-|]; [|done]. exfalso.
      destruct v1 as [|b1 v1]; [done|]. injection Heq as <- Heq.
      apply Hclose. rewrite Heq. apply elem_of_app. right. left.
    + unfold chr. cbn [rmatch]. by rewrite Ascii.eqb_refl.
    + rewrite length_app. lia.
  - rewrite length_app. lia.
Qed.
End MemberFacts.

Lemma take_consumed3 (a b c d : str) :
  take (length (a ++ b ++ c ++ d) - length d) (a ++ b ++ c ++ d) = a ++ b ++ c.
Proof.
  replace (a ++ b ++ c ++ d) with ((a ++ b ++ c) ++ d)
    by (by rewrite <- !app_assoc).
  apply take_consumed.
Qed.

Lemma signature_shape (name params cl : str) :
  (name ++ "("%char :: params ++ [")"%char]) ++ cl
  = name ++ "("%char :: params ++ ")"%char :: cl.
Proof. rewrite <- app_assoc. cbn [app]. by rewrite <- app_assoc. Qed.

Lemma rmatch_signature_group {R : Type} i name params cl c
    (k : cont (R := R)) x :
  word name → LF ∉ params → "("%char ∉ params →
  "("%char ∉ cl → ")"%char ∉ cl →
  k cl ((i, name ++ "("%char :: params ++ [")"%char]) :: c) = Some x →
  rmatch (Group i name_and_parameters)
    ((name ++ "("%char :: params ++ [")"%char]) ++ cl) c k
  = Some x.
Proof.
  intros Hname HLF Hopen Hopen' Hclose Hk. rewrite rmatch_group.
  assert (∀ K : cont (R := R), K cl c = Some x →
            rmatch name_and_parameters
              ((name ++ "("%char :: params ++ [")"%char]) ++ cl) c K
            = Some x) as Haux.
  { intros K HK. rewrite signature_shape.
    by apply rmatch_name_and_parameters. }
  apply Haux. by rewrite take_consumed.
Qed.

Lemma member_type_spec ty rest :
  member_type ty → trailing_clause rest →
  stops is_space (ty ++ rest) ∧ ¬ starts_with_modifier (ty ++ rest)
  ∧ ∀ (kw : string) a t, kw ∈ klass_words → is_space a = true →
                         ty ++ rest ≠ bytes kw ++ a :: t.
Proof.
  intros [Hty Hno] Hrest. apply Forall_app in Hno as [Hmod Hkl].
  rewrite Forall_forall in Hmod. rewrite Forall_forall in Hkl.
  split_and!.
  - by apply word_stops.
  - by apply word_not_modifier.
  - intros kw a t Hkw Ha Heq.
    destruct (klass_word_plain kw Hkw) as (Hplain & _).
    destruct (word_unique ty rest (bytes kw) (a :: t)) as [? _];
      [by destruct Hty|done..|].
    by eapply Hkl.
Qed.

Lemma field_patterns_match m ty sp w cl :
  modifier_run m → member_type ty → spaces sp → word w →
  trailing_clause cl →
  re_match Java.field_pattern (m ++ ty ++ sp ++ w ++ cl)
  = Some [(1, ty ++ sp ++ w); (2, w)]
  ∧ re_match Android.field_pattern (m ++ ty ++ sp ++ w ++ cl)
    = Some [(1, w)].
Proof.
  intros Hm Hty Hsp Hw Hcl.
  destruct (member_type_spec ty (sp ++ w ++ cl) Hty
              (spaces_trailing _ _ Hsp)) as (Hstop & Hno & _).
  destruct Hty as [Hty _].
  pose proof (word_stops w cl Hw) as Hstopw.
  split; unfold re_match.
  - unfold Java.field_pattern. rewrite rmatch_seq.
    apply rmatch_modifiers; [done|by apply not_modifier_blocked|done|].
    cbv beta. rewrite rmatch_group, rmatch_seq.
    apply rmatch_object_type; [done..|]. cbv beta.
    apply rmatch_word_group; [done..|]. by rewrite take_consumed3.
  - unfold Android.field_pattern. rewrite rmatch_seq.
    apply rmatch_modifiers; [done|by apply not_modifier_blocked|done|].
    cbv beta. rewrite rmatch_seq.
    apply rmatch_object_type; [done..|]. cbv beta.
    by apply rmatch_word_group.
Qed.

Lemma method_patterns_match m ty sp name params cl :
  modifier_run m → member_type ty → spaces sp → word name →
  LF ∉ params → "("%char ∉ params → "("%char ∉ cl → ")"%char ∉ cl →
  re_match Java.method_pattern
    (m ++ ty ++ sp ++ (name ++ "("%char :: params ++ [")"%char]) ++ cl)
  = Some [(1, ty ++ sp ++ name ++ "("%char :: params ++ [")"%char]);
          (2, name ++ "("%char :: params ++ [")"%char])]
  ∧ re_match Android.method_pattern
      (m ++ ty ++ sp ++ (name ++ "("%char :: params ++ [")"%char]) ++ cl)
    = Some [(1, name ++ "("%char :: params ++ [")"%char])].
Proof.
  intros Hm Hty Hsp Hname HLF Hopen Hopen' Hclose.
  destruct (member_type_spec ty
              (sp ++ (name ++ "("%char :: params ++ [")"%char]) ++ cl) Hty
              (spaces_trailing _ _ Hsp)) as (Hstop & Hno & _).
  destruct Hty as [Hty _].
  assert (stops is_space ((name ++ "("%char :: params ++ [")"%char]) ++ cl))
    as Hstopn by (rewrite <- app_assoc; by apply word_stops).
  split; unfold re_match.
  - unfold Java.method_pattern. rewrite rmatch_seq.
    apply rmatch_modifiers; [done|by apply not_modifier_blocked|done|].
    cbv beta. rewrite rmatch_seq, rmatch_group, rmatch_seq.
    apply rmatch_object_type; [done..|]. cbv beta.
    apply rmatch_signature_group; [done..|].
    apply rmatch_rest_of_line. intros _. by rewrite take_consumed3.
  - unfold Android.method_pattern. rewrite rmatch_seq.
    apply rmatch_modifiers; [done|by apply not_modifier_blocked|done|].
    cbv beta. rewrite rmatch_seq.
    apply rmatch_object_type; [done..|]. cbv beta. rewrite rmatch_seq.
    apply rmatch_signature_group; [done..|].
    by apply rmatch_rest_of_line.
Qed.

Lemma modifier_run_no_paren m : modifier_run m → "("%char ∉ m.
Proof.
  assert (∀ sp, spaces sp → "("%char ∉ sp) as Hsp.
  { intros sp [_ Hsp] Hin. rewrite Forall_forall in Hsp. by apply Hsp in Hin. }
  induction 1 as [w sp Hw Hs|w sp m Hw Hs Hm IH];
    destruct (modifier_word_plain w Hw) as [_ Hno];
    rewrite !elem_of_app; intros Hin.
  - destruct Hin as [?|?]; [done|]. by eapply Hsp.
  - destruct Hin as [?|[?|?]]; [done| |done]. by eapply Hsp.
Qed.

(** A text without an opening parenthesis is neither a method nor a
    constructor. *)
Lemma no_paren_no_parameters s :
  "("%char ∉ s →
  re_match Java.method_pattern s = None
  ∧ re_match Java.constructor_pattern s = None
  ∧ re_match Android.method_pattern s = None
  ∧ re_match Android.constructor_pattern s = None.
Proof.
  intros Hs. split_and!.
  - destruct (re_match Java.method_pattern s) as [c|] eqn:E; [|done].
    apply java_method_pattern_shape in E
      as (pre & ty & sp & name & params & post & -> & _).
    exfalso. apply Hs. clear. set_solver.
  - destruct (re_match Java.constructor_pattern s) as [c|] eqn:E; [|done].
    apply java_constructor_pattern_shape in E
      as (pre & name & params & post & -> & _).
    exfalso. apply Hs. clear. set_solver.
  - destruct (re_match Android.method_pattern s) as [c|] eqn:E; [|done].
    apply android_method_pattern_shape in E
      as (pre & ty & sp & name & params & post & -> & _).
    exfalso. apply Hs. clear. set_solver.
  - destruct (re_match Android.constructor_pattern s) as [c|] eqn:E; [|done].
    apply android_constructor_pattern_shape in E
      as (pre & name & params & post & -> & _).
    exfalso. apply Hs. clear. set_solver.
Qed.

(** *** Constructors *)

Lemma unique_split (a : ascii) l1 l2 r1 r2 :
  a ∉ r1 → a ∉ r2 → l1 ++ a :: l2 = r1 ++ a :: r2 → l1 = r1.
Proof.
  revert r1. induction l1 as [|b l1 IH]; intros r1 H1 H2 Heq.
  - destruct r1 as [|c r1]; [done|]. injection Heq as <- _.
    exfalso. apply H1. left.
  - destruct r1 as [|c r1]; simpl in Heq.
    + injection Heq as -> Heq. exfalso. apply H2. rewrite <- Heq.
      apply elem_of_app. right. left.
    + injection Heq as -> Heq. f_equal. apply (IH r1); [|done..].
      intros ?. apply H1. by right.
Qed.

(** A name and the parenthesis after it are not a word followed by
    whitespace. *)
Lemma name_paren_not_word name rest u a t :
  word name → Forall (λ b, is_space b = false) u → "("%char ∉ u →
  is_space a = true → name ++ "("%char :: rest ≠ u ++ a :: t.
Proof.
  intros [_ Hname] Hu Hno Ha Heq.
  destruct (run_prefix (λ b, negb (is_space b)) u (a :: t) name
              ("("%char :: rest)) as (d & -> & Hd).
  - simpl. by rewrite Ha.
  - eapply Forall_impl; [exact Hname|]. by intros b ->.
  - done.
  - destruct d as [|b d]; simpl in Hd.
    + injection Hd as <- _. done.
    + injection Hd as <- _. apply Hno. apply elem_of_app. right. left.
Qed.

Lemma constructor_text_spec name rest :
  word name →
  stops is_space (name ++ "("%char :: rest)
  ∧ ¬ starts_with_modifier (name ++ "("%char :: rest)
  ∧ ∀ (kw : string) a t, kw ∈ klass_words → is_space a = true →
                         name ++ "("%char :: rest ≠ bytes kw ++ a :: t.
Proof.
  intros Hname. split_and!.
  - by apply word_stops.
  - intros (w & a & t & Hw & Ha & Heq).
    destruct (modifier_word_plain w Hw) as [? ?].
    by eapply name_paren_not_word.
  - intros kw a t Hkw Ha.
    destruct (klass_word_plain kw Hkw) as (? & ? & _).
    by eapply name_paren_not_word.
Qed.

Lemma single_modifier_prefix (w : string) sp X pre t :
  w ∈ modifier_words → spaces sp → stops is_space X →
  ¬ starts_with_modifier X → modifier_run pre →
  bytes w ++ sp ++ X = pre ++ t →
  ∃ sp2 d, spaces sp2 ∧ sp = sp2 ++ d ∧ t = d ++ X.
Proof.
  intros Hw Hsp HX Hno Hpre Heq.
  destruct (modifier_word_plain w Hw) as [Hp _].
  assert (∀ (w2 : string) sp2 Z,
    w2 ∈ modifier_words → spaces sp2 →
    bytes w ++ sp ++ X = bytes w2 ++ sp2 ++ Z →
    ∃ d, sp = sp2 ++ d ∧ Z = d ++ X) as Htoken.
  { intros w2 sp2 Z Hw2 Hsp2 Heq2.
    destruct (modifier_word_plain w2 Hw2) as [Hp2 _].
    destruct (word_unique _ _ _ _ Hp Hp2 (spaces_trailing sp X Hsp)
                (spaces_trailing sp2 Z Hsp2) Heq2) as [_ Heq'].
    by apply (run_prefix is_space sp X sp2 Z HX (proj2 Hsp2)). }
  destruct Hpre as [w2 sp2 Hw2 Hsp2|w2 sp2 p' Hw2 Hsp2 Hp'];
    rewrite <- !app_assoc in Heq;
    destruct (Htoken _ _ _ Hw2 Hsp2 Heq) as (d & -> & Heq').
  - by exists sp2, d.
  - exfalso. destruct d as [|a d].
    + apply Hno. simpl in Heq'. rewrite <- Heq'.
      destruct (modifier_run_head _ Hp') as (w3 & sp3 & t3 & ? & ? & -> & _).
      rewrite <- !app_assoc. by apply spaces_starts.
    + pose proof (modifier_run_stops p' t Hp') as Hs.
      rewrite Heq' in Hs. simpl in Hs.
      destruct Hsp as [_ Hsp]. apply Forall_app in Hsp as [_ Hsp].
      apply Forall_cons in Hsp as [? _]. congruence.
Qed.

Lemma method_patterns_steps s c :
  re_match Java.method_pattern s = Some c
  ∨ re_match Android.method_pattern s = Some c →
  ∃ pre ty sp name t,
    modifier_run pre ∧ s = pre ++ ty ++ sp ++ name ++ "("%char :: t
    ∧ ty ≠ [] ∧ spaces sp ∧ word name.
Proof.
  intros [[s5 H]%re_match_steps|[s5 H]%re_match_steps].
  - unfold Java.method_pattern in H.
    apply steps_seq_inv in H as (s1 & c1 & Hm & H).
    apply steps_modifiers_run in Hm as (pre & Hpre & -> & ->).
    apply steps_seq_inv in H
      as (s2 & c2 & (u1 & c1' & _ & H1 & _)%steps_group_inv & _).
    apply steps_seq_inv in H1
      as (s3 & c3 & (ty & sp & -> & Hty & _ & Hsp & ->)%steps_object_type & H1).
    apply steps_group_inv in H1 as (u2 & c3' & _ & H1 & _).
    apply steps_name_and_parameters in H1 as (name & params & -> & Hname & _).
    by exists pre, ty, sp, name, (params ++ ")"%char :: s2).
  - unfold Android.method_pattern in H.
    apply steps_seq_inv in H as (s1 & c1 & Hm & H).
    apply steps_modifiers_run in Hm as (pre & Hpre & -> & ->).
    apply steps_seq_inv in H
      as (s2 & c2 & (ty & sp & -> & Hty & _ & Hsp & ->)%steps_object_type & H).
    apply steps_seq_inv in H
      as (s3 & c3 & (u1 & c1' & _ & H1 & _)%steps_group_inv & _).
    apply steps_name_and_parameters in H1 as (name & params & -> & Hname & _).
    by exists pre, ty, sp, name, (params ++ ")"%char :: s3).
Qed.

(** A constructor line is no method: nothing in it is a type, whitespace,
    a name and a parenthesis. *)
Lemma constructor_not_method (w : string) sp name rest c :
  w ∈ modifier_words → spaces sp → length sp ≤ 2 → word name →
  "("%char ∉ name → "("%char ∉ rest →
  ¬ (re_match Java.method_pattern (bytes w ++ sp ++ name ++ "("%char :: rest)
     = Some c
     ∨ re_match Android.method_pattern
         (bytes w ++ sp ++ name ++ "("%char :: rest) = Some c).
Proof.
  intros Hw Hsp Hlen Hname Hno Hno' Hmatch.
  apply method_patterns_steps in Hmatch
    as (pre & ty & sp' & name' & t & Hpre & Heq & Hty & Hsp' & Hname').
  destruct (constructor_text_spec name rest Hname) as (Hstop & Hnm & _).
  destruct (single_modifier_prefix w sp _ pre _ Hw Hsp Hstop Hnm Hpre Heq)
    as (sp2 & d & Hsp2 & -> & Heq').
  assert (ty ++ sp' ++ name' = d ++ name) as Hsplit.
  { apply (unique_split "(" _ t _ rest).
    - destruct Hsp as [_ Hsp]. apply Forall_app in Hsp as [_ Hd].
      intros [Hin|Hin]%elem_of_app; [|done].
      rewrite Forall_forall in Hd. by apply Hd in Hin.
    - done.
    - rewrite <- !app_assoc. exact Heq'. }
  assert (∀ u v, name = u ++ sp' ++ v → False) as Hbad.
  { intros u v ->. destruct Hname as [_ Hname].
    apply Forall_app in Hname as [_ Hname].
    apply Forall_app in Hname as [Hname _].
    destruct Hsp' as [Hne Hsp']. destruct Hsp' as [|a sp' Ha _]; [done|].
    apply Forall_cons in Hname as [? _]. congruence. }
  destruct Hsp2 as [Hne2 _]. rewrite length_app in Hlen.
  destruct sp2 as [|a2 sp2]; [done|]. simpl in Hlen.
  destruct d as [|a [|a' d]]; simpl in Hlen; [| |lia].
  - by eapply (Hbad ty name').
  - destruct ty as [|b ty]; [done|]. injection Hsplit as -> Hsplit.
    by eapply (Hbad ty name').
Qed.

Lemma constructor_patterns_match (w : string) sp name params cl :
  w ∈ modifier_words → spaces sp → word name →
  LF ∉ params → "("%char ∉ params → "("%char ∉ cl → ")"%char ∉ cl →
  re_match Java.constructor_pattern
    (bytes w ++ sp ++ (name ++ "("%char :: params ++ [")"%char]) ++ cl)
  = Some [(1, name ++ "("%char :: params ++ [")"%char])]
  ∧ re_match Android.constructor_pattern
      (bytes w ++ sp ++ (name ++ "("%char :: params ++ [")"%char]) ++ cl)
    = Some [(1, name ++ "("%char :: params ++ [")"%char])].
Proof.
  intros Hw Hsp Hname HLF Hopen Hopen' Hclose.
  destruct (constructor_text_spec name (params ++ ")"%char :: cl) Hname)
    as (Hstop & Hno & _).
  rewrite <- signature_shape in Hstop, Hno.
  assert (modifier_run (bytes w ++ sp)) as Hm by by constructor.
  rewrite !(app_assoc (bytes w) sp).
  split; unfold re_match.
  - unfold Java.constructor_pattern. rewrite rmatch_seq.
    apply rmatch_modifiers; [done|by apply not_modifier_blocked|done|].
    cbv beta. rewrite rmatch_seq.
    apply rmatch_signature_group; [done..|].
    by apply rmatch_rest_of_line.
  - unfold Android.constructor_pattern. rewrite rmatch_seq.
    apply rmatch_modifiers; [done|by apply not_modifier_blocked|done|].
    cbv beta. rewrite rmatch_seq.
    apply rmatch_signature_group; [done..|].
    by apply rmatch_rest_of_line.
Qed.

(** ** Lines that end a run *)

Lemma library_bad_line {D} (classify : str → result (Kind * str * D))
    files file m line e :
  raises_parse_errors_only classify →
  file ∈ files → readlines file !! m = Some line →
  m ≠ length (readlines file) - 1 →
  classify (definition_text line) = Raise e →
  ∃ t, _symbols_for_library classify files = Raise (CouldNotParse t).
Proof.
  intros Hraises Hfile Hm Hlast He.
  destruct (symbols_for_lines_bad_line classify (readlines file) m line e)
    as [e1 He1]; [done..|].
  destruct (library_loop_bad_file classify files ∅ file e1)
    as [e2 He2]; [done..|].
  destruct (library_raises classify files e2 Hraises He2) as [t ->].
  by exists t.
Qed.

Lemma java_bad_library_aborts old_path new_path :
  (∃ t, _symbols_for_library JavaRender.classify old_path
        = Raise (CouldNotParse t))
  ∨ (∃ t, _symbols_for_library JavaRender.classify new_path
          = Raise (CouldNotParse t)) →
  ∃ t, JavaRender.print_api_diff old_path new_path
       = mkOutcome [] (Some (CouldNotParse t)).
Proof.
  intros Hbad. unfold JavaRender.print_api_diff.
  destruct (_symbols_for_library JavaRender.classify old_path)
    as [old_symbols|e] eqn:Hold.
  - destruct Hbad as [[t Ht]|[t ->]]; [done|by exists t].
  - destruct (library_raises _ _ _ java_classify_raises Hold) as [t ->].
    by exists t.
Qed.

Lemma android_bad_library_aborts old_path new_path :
  (∃ t, _symbols_for_library AndroidRender.classify old_path
        = Raise (CouldNotParse t))
  ∨ (∃ t, _symbols_for_library AndroidRender.classify new_path
          = Raise (CouldNotParse t)) →
  ∃ t, AndroidRender.print_api_diff old_path new_path
       = mkOutcome [] (Some (CouldNotParse t)).
Proof.
  intros Hbad. unfold AndroidRender.print_api_diff.
  destruct (_symbols_for_library AndroidRender.classify old_path)
    as [old_symbols|e] eqn:Hold.
  - destruct Hbad as [[t Ht]|[t ->]]; [done|by exists t].
  - destruct (library_raises _ _ _ android_classify_raises Hold) as [t ->].
    by exists t.
Qed.

(** * Further theorems *)

(** X1.  In [java], printing a report that holds a Modification ends with
    the exception of reading the field [definition], which a Modification
    does not have. *)
Theorem java_modification_breaks_rendering
    (report : gmap str (list (Change Java.Definition_))) k cs c :
  report !! k = Some cs → c ∈ cs → is_modification c = true →
  raised (JavaRender._print_markdown report)
  = Some (AttributeError (bytes "definition")).
Proof.
  intros Hk Hc Hmod. unfold JavaRender._print_markdown.
  apply java_print_sections_modification. apply Exists_exists.
  exists (k, cs). split.
  - rewrite sorted_items_perm. by apply elem_of_map_to_list.
  - apply Exists_exists. by exists c.
Qed.

Lemma java_modification_breaks_rendering_witness :
  raised (JavaRender._print_markdown
    {[ bytes "Foo" :=
         [Modification (mkSymbolId (bytes "Foo") FIELD (bytes "x"))
            (java_definition "public int x" "int x" "field")
            (java_definition "public long x" "long x" "field")] ]})
  = Some (AttributeError (bytes "definition")).
Proof.
  eapply java_modification_breaks_rendering.
  - apply lookup_singleton_eq.
  - left.
  - reflexivity.
Defined.

(** X2.  In [java], when a symbol is in both snapshots with different full
    texts, the run ends with that exception: the renderer cannot print the
    Modification of the report. *)
Theorem java_run_breaks_on_modification old_path new_path
    old_symbols new_symbols i old_definition new_definition :
  _symbols_for_library JavaRender.classify old_path = Ok old_symbols →
  _symbols_for_library JavaRender.classify new_path = Ok new_symbols →
  old_symbols !! i = Some old_definition →
  new_symbols !! i = Some new_definition →
  Java.full old_definition ≠ Java.full new_definition →
  raised (JavaRender.print_api_diff old_path new_path)
  = Some (AttributeError (bytes "definition")).
Proof.
  intros Hold Hnew Ho Hn Hfull. unfold JavaRender.print_api_diff.
  rewrite Hold, Hnew.
  destruct (java_changes_modification _ _ _ _ _ Ho Hn Hfull)
    as (cs & Hcs & Hin).
  unfold JavaRender._print_markdown.
  apply java_print_sections_modification. apply Exists_exists.
  exists (klass i, cs). split.
  - rewrite sorted_items_perm. by apply elem_of_map_to_list.
  - apply Exists_exists. by eexists.
Qed.

Lemma java_run_breaks_on_modification_witness :
  raised (JavaRender.print_api_diff
            [file_of_lines ["public class Foo {"; "public int x;"; "}"]%string]
            [file_of_lines ["public class Foo {"; "public long x;"; "}"]%string])
  = Some (AttributeError (bytes "definition")).
Proof.
  destruct (lines_classified_parsed JavaRender.classify
    (file_of_lines ["public class Foo {"; "public int x;"; "}"]%string))
    as [old_symbols Hold]; [by vm_compute|].
  destruct (lines_classified_parsed JavaRender.classify
    (file_of_lines ["public class Foo {"; "public long x;"; "}"]%string))
    as [new_symbols Hnew]; [by vm_compute|].
  apply (java_run_breaks_on_modification _ _ old_symbols new_symbols
    (mkSymbolId (bytes "Foo") FIELD (bytes "x"))
    (java_definition "public int x" "int x" "field")
    (java_definition "public long x" "long x" "field")).
  - by apply single_file_library.
  - by apply single_file_library.
  - rewrite (symbols_for_lines_table _ _ _ _ Hold). by vm_compute.
  - rewrite (symbols_for_lines_table _ _ _ _ Hnew). by vm_compute.
  - by vm_compute.
Defined.

(** X3.  A report has no class without changes: no list of a report is
    empty, and a class is a key of the report exactly when the diff owes
    one of its identities a change. *)
Theorem report_classes_have_changes {D} (full_text : D → str)
    (old_symbols new_symbols : gmap SymbolId D) (k : str) :
  _changes full_text old_symbols new_symbols !! k ≠ Some []
  ∧ (is_Some (_changes full_text old_symbols new_symbols !! k)
     ↔ ∃ i, klass i = k
            ∧ expected_changes full_text old_symbols new_symbols i ≠ []).
Proof.
  split.
  - rewrite changes_as_fold. apply foldl_append_change_nonempty.
    by rewrite lookup_empty.
  - apply report_key.
Qed.

(** X4.  The changes of a class are its additions, then its deletions,
    then its modifications, each run in strictly ascending order of
    identity: no identity comes twice in a run. *)
Theorem report_entries_ordered {D} (full_text : D → str)
    (old_symbols new_symbols : gmap SymbolId D) (k : str) :
  ∃ added deleted modified,
    default [] (_changes full_text old_symbols new_symbols !! k)
    = added ++ deleted ++ modified
    ∧ Forall (λ c, is_addition c = true) added
    ∧ Forall (λ c, is_deletion c = true) deleted
    ∧ Forall (λ c, is_modification c = true) modified
    ∧ StronglySorted change_lt added
    ∧ StronglySorted change_lt deleted
    ∧ StronglySorted change_lt modified.
Proof.
  rewrite (report_lookup full_text). unfold all_changes.
  rewrite !filter_app. eexists _, _, _. split; [reflexivity|].
  assert (∀ (P : Change D → Prop) l,
    Forall P l → Forall P (filter (λ c, klass (symbol_id_of c) = k) l))
    as Hfilter.
  { intros P l Hl. apply Forall_forall. intros c [_ Hc]%list_elem_of_filter.
    rewrite Forall_forall in Hl. by apply Hl. }
  split_and!.
  - apply Hfilter, additions_shape.
  - apply Hfilter, deletions_shape.
  - apply Hfilter, (modifications_shape full_text).
  - apply StronglySorted_filter_changes, additions_shape, changed_ids_strict.
  - apply StronglySorted_filter_changes, deletions_shape, changed_ids_strict.
  - apply StronglySorted_filter_changes, (modifications_shape full_text),
      changed_ids_strict.
Qed.

(** X5.  The diff read backwards: with the two tables exchanged, every
    identity gets the reverse of its changes, a Deletion for an Addition
    and a Modification with its two definitions exchanged. *)
Theorem diff_reversed {D} (full_text : D → str)
    (old_symbols new_symbols : gmap SymbolId D) (i : SymbolId) :
  changes_about (_changes full_text new_symbols old_symbols) i
  = map reverse_change
      (changes_about (_changes full_text old_symbols new_symbols) i).
Proof.
  rewrite !(changes_about_spec full_text). apply expected_changes_reverse.
Qed.

(** X6.  The table of a file, entry by entry: a file of fewer than two
    lines has no entry; otherwise the entries are those of the class named
    by the first line, and the value of an identity is the one of the last
    line, the final line apart, classified with its kind and signature. *)
Theorem table_of_a_file {D} (classify : str → result (Kind * str * D))
    content T i :
  _symbols_for_klass classify content = Ok T →
  T !! i
  = match declaring_klass classify (readlines content) with
    | Some kl =>
        if decide (klass i = kl)
        then last_definition classify (length (readlines content)) 0
               (readlines content) (kind i) (signature i)
        else None
    | None => None
    end.
Proof. apply symbols_for_lines_table. Qed.

Lemma table_of_a_file_witness :
  ∃ T, _symbols_for_klass JavaRender.classify
         (file_of_lines ["public class Foo {"; "public int x;";
                         "public long x;"; "}"]%string)
       = Ok T
       ∧ T !! mkSymbolId (bytes "Foo") FIELD (bytes "x")
         = Some (java_definition "public long x" "long x" "field")
       ∧ T !! mkSymbolId (bytes "Bar") FIELD (bytes "x") = None.
Proof.
  destruct (lines_classified_parsed JavaRender.classify
    (file_of_lines ["public class Foo {"; "public int x;";
                    "public long x;"; "}"]%string))
    as [T HT]; [by vm_compute|].
  exists T. split_and!; [done|..].
  - rewrite (table_of_a_file _ _ _ _ HT). by vm_compute.
  - rewrite (table_of_a_file _ _ _ _ HT). by vm_compute.
Defined.

(** X7.  The last line of a file is never read: two lists of lines that
    differ in their last line only give the same result, table or
    exception. *)
Theorem last_line_is_ignored {D} (classify : str → result (Kind * str * D))
    (lines : list str) (l1 l2 : str) :
  symbols_for_lines classify (lines ++ [l1])
  = symbols_for_lines classify (lines ++ [l2]).
Proof.
  unfold symbols_for_lines. rewrite !length_app. simpl.
  apply symbols_loop_last_line. lia.
Qed.

(** X8.  A file is parsed exactly when each of its lines but the last is
    classified; otherwise the exception is that of the classifier. *)
Theorem file_parsed_iff_lines_classified {D}
    (classify : str → result (Kind * str * D)) content :
  raises_parse_errors_only classify →
  ((∃ T, _symbols_for_klass classify content = Ok T)
   ↔ ∀ m line, readlines content !! m = Some line →
               m ≠ length (readlines content) - 1 →
               ∃ r, classify (definition_text line) = Ok r)
  ∧ (∀ e, _symbols_for_klass classify content = Raise e →
          ∃ t, e = CouldNotParse t).
Proof.
  intros Hraises. split.
  - unfold _symbols_for_klass, symbols_for_lines.
    rewrite (symbols_loop_ok classify) by (done || by left). done.
  - intros e. by apply symbols_for_klass_raises.
Qed.

Lemma file_parsed_iff_lines_classified_witness :
  ∃ t, _symbols_for_klass JavaRender.classify
         (file_of_lines ["public class Foo {"; "int x;"; "}"]%string)
       = Raise (CouldNotParse t).
Proof.
  destruct (file_parsed_iff_lines_classified JavaRender.classify
              (file_of_lines ["public class Foo {"; "int x;"; "}"]%string)
              java_classify_raises) as [Hiff Hraise].
  destruct (_symbols_for_klass JavaRender.classify
              (file_of_lines ["public class Foo {"; "int x;"; "}"]%string))
    as [T|e].
  - destruct (proj1 Hiff (ex_intro _ T eq_refl) 1 (bytes "int x;" ++ NL))
      as [r Hr]; [done|by vm_compute|by vm_compute in Hr].
  - destruct (Hraise e eq_refl) as [t ->]. by exists t.
Defined.

(** X9.  In the table of a library the last file that defines an identity
    decides its value: the entry of a file stands when no file enumerated
    after it defines the identity. *)
Theorem last_file_wins {D} (classify : str → result (Kind * str * D))
    files1 file files2 T t i d :
  _symbols_for_library classify (files1 ++ file :: files2) = Ok T →
  _symbols_for_klass classify file = Ok t →
  t !! i = Some d →
  (∀ g tg, g ∈ files2 → _symbols_for_klass classify g = Ok tg →
           tg !! i = None) →
  T !! i = Some d.
Proof.
  unfold _symbols_for_library. rewrite library_loop_app.
  destruct (library_loop classify files1 ∅) as [S1|e]; [|done].
  intros Hloop Hfile Hi Hlater.
  assert (library_loop classify (file :: files2) S1 = Ok T) as Hloop'
    by exact Hloop.
  clear Hloop. rename Hloop' into Hloop.
  rewrite library_loop_cons, Hfile in Hloop.
  assert (library_loop classify files2 (t ∪ S1) = Ok T) as Hloop'
    by exact Hloop.
  clear Hloop. rename Hloop' into Hloop.
  rewrite (library_loop_untouched _ _ _ _ _ Hloop Hlater).
  apply lookup_union_Some_raw. by left.
Qed.

Lemma last_file_wins_witness :
  ∃ T, _symbols_for_library JavaRender.classify
         [file_of_lines ["public class Foo {"; "public int x;"; "}"];
          file_of_lines ["public class Foo {"; "public long x;"; "}"]]%string
       = Ok T
       ∧ T !! mkSymbolId (bytes "Foo") FIELD (bytes "x")
         = Some (java_definition "public long x" "long x" "field").
Proof.
  destruct (lines_classified_parsed JavaRender.classify
    (file_of_lines ["public class Foo {"; "public int x;"; "}"]%string))
    as [t1 Ht1]; [by vm_compute|].
  destruct (lines_classified_parsed JavaRender.classify
    (file_of_lines ["public class Foo {"; "public long x;"; "}"]%string))
    as [t2 Ht2]; [by vm_compute|].
  exists (t2 ∪ (t1 ∪ ∅)). split.
  - unfold _symbols_for_library.
    by rewrite (library_loop_parsed _ _ _ _ _ Ht1),
               (library_loop_parsed _ _ _ _ _ Ht2).
  - apply (last_file_wins JavaRender.classify
             [file_of_lines ["public class Foo {"; "public int x;"; "}"]%string]
             (file_of_lines ["public class Foo {"; "public long x;"; "}"]%string)
             [] _ t2).
    + unfold _symbols_for_library. cbn [app].
      by rewrite (library_loop_parsed _ _ _ _ _ Ht1),
                 (library_loop_parsed _ _ _ _ _ Ht2).
    + done.
    + rewrite (symbols_for_lines_table _ _ _ _ Ht2). by vm_compute.
    + intros g tg Hg. by apply elem_of_nil in Hg.
Defined.

(** X10.  The table of a library is built exactly when every file is
    parsed, and each of its entries is an entry of the table of one of the
    files. *)
Theorem library_parsed_iff_files_parsed {D}
    (classify : str → result (Kind * str * D)) files :
  ((∃ T, _symbols_for_library classify files = Ok T)
   ↔ Forall (λ f, ∃ t, _symbols_for_klass classify f = Ok t) files)
  ∧ (∀ T i d, _symbols_for_library classify files = Ok T →
              T !! i = Some d →
              ∃ f t, f ∈ files ∧ _symbols_for_klass classify f = Ok t
                     ∧ t !! i = Some d).
Proof.
  split.
  - apply library_loop_ok.
  - intros T i d HT Hi.
    destruct (library_loop_lookup classify _ _ _ _ _ HT Hi) as [Hempty|?];
      [|done].
    by rewrite lookup_empty in Hempty.
Qed.

(** X11.  The simplified form of a text holds neither [.] nor [$], in both
    programs. *)
Theorem simplified_text_has_no_separator (s : str) :
  ("."%char ∉ JavaRender._simplify s) ∧ ("$"%char ∉ JavaRender._simplify s)
  ∧ ("."%char ∉ AndroidRender._simplify s)
  ∧ ("$"%char ∉ AndroidRender._simplify s).
Proof.
  destruct (simplify_no_separator JavaRender.boundaries s).
  destruct (simplify_no_separator AndroidRender.boundaries s).
  done.
Qed.

(** X12.  A text that holds neither [.] nor [$] is its own simplified
    form: splitting and joining lose nothing. *)
Theorem plain_text_is_simplified (s : str) :
  "."%char ∉ s → "$"%char ∉ s →
  JavaRender._simplify s = s ∧ AndroidRender._simplify s = s.
Proof.
  intros Hdot Hdollar. split.
  - apply (simplify_plain _ java_boundary); [apply java_boundaries_match|done..].
  - apply (simplify_plain _ android_boundary);
      [apply android_boundaries_match|done..].
Qed.

Lemma plain_text_is_simplified_witness :
  JavaRender._simplify (bytes "public void draw(int x)")
  = bytes "public void draw(int x)"
  ∧ AndroidRender._simplify (bytes "public void draw(int x)")
    = bytes "public void draw(int x)".
Proof.
  apply plain_text_is_simplified; decide_closed.
Defined.

(** X13.  A qualified or nested name without boundary characters is
    simplified to what follows its last [.] or [$], when that holds no
    further [.] or [$]. *)
Theorem qualified_name_simplified (pre : str) (c : ascii) (name : str) :
  c = "."%char ∨ c = "$"%char →
  Forall (λ a, java_boundary a = false) (pre ++ c :: name) →
  "."%char ∉ name → "$"%char ∉ name →
  JavaRender._simplify (pre ++ c :: name) = name
  ∧ AndroidRender._simplify (pre ++ c :: name) = name.
Proof.
  intros Hc Hin Hdot Hdollar. split.
  - apply (simplify_qualified _ java_boundary);
      [apply java_boundaries_match|done..].
  - apply (simplify_qualified _ android_boundary);
      [apply android_boundaries_match|done| |done..].
    eapply Forall_impl; [exact Hin|]. intros a Ha. simpl in Ha.
    unfold java_boundary in Ha. by apply orb_false_iff in Ha as [? _].
Qed.

Lemma qualified_name_simplified_witness :
  JavaRender._simplify (bytes "com.google.Performer$Instance")
  = bytes "Instance"
  ∧ AndroidRender._simplify (bytes "com.google.Performer$Instance")
    = bytes "Instance".
Proof.
  apply (qualified_name_simplified (bytes "com.google.Performer") "$"
           (bytes "Instance")).
  - by right.
  - decide_closed.
  - decide_closed.
  - decide_closed.
Defined.

(** X14.  A snapshot compared with itself prints nothing and raises
    nothing, in both programs, when its files are parsed. *)
Theorem same_snapshot_prints_nothing files :
  (∀ T, _symbols_for_library JavaRender.classify files = Ok T →
        JavaRender.print_api_diff files files = mkOutcome [] None)
  ∧ (∀ T, _symbols_for_library AndroidRender.classify files = Ok T →
          AndroidRender.print_api_diff files files = mkOutcome [] None).
Proof.
  split; intros T HT.
  - unfold JavaRender.print_api_diff. rewrite HT, changes_same.
    unfold JavaRender._print_markdown, sorted_items.
    by rewrite map_to_list_empty.
  - unfold AndroidRender.print_api_diff. rewrite HT, changes_same.
    unfold AndroidRender._print_markdown, sorted_items.
    by rewrite map_to_list_empty.
Qed.

Lemma same_snapshot_prints_nothing_witness :
  JavaRender.print_api_diff
    [file_of_lines ["public class Foo {"; "public int x;"; "}"]%string]
    [file_of_lines ["public class Foo {"; "public int x;"; "}"]%string]
  = mkOutcome [] None.
Proof.
  destruct (lines_classified_parsed JavaRender.classify
    (file_of_lines ["public class Foo {"; "public int x;"; "}"]%string))
    as [T HT]; [by vm_compute|].
  apply (proj1 (same_snapshot_prints_nothing _) T).
  by apply single_file_library.
Defined.

(** X15.  A text that does not begin with a modifier keyword followed by
    whitespace is not classified: both classifiers raise the parse
    exception with the text. *)
Theorem unmodified_line_rejected (s : str) :
  ¬ starts_with_modifier s →
  Java._parse_full_definition s = Raise (CouldNotParse s)
  ∧ Android._kind_and_signature_for_definition s = Raise (CouldNotParse s).
Proof.
  intros Hs. split.
  - unfold Java._parse_full_definition, Java.klass_pattern,
      Java.method_pattern, Java.constructor_pattern, Java.field_pattern.
    by rewrite !re_match_needs_modifier.
  - unfold Android._kind_and_signature_for_definition, Android.klass_pattern,
      Android.method_pattern, Android.constructor_pattern,
      Android.field_pattern.
    by rewrite !re_match_needs_modifier.
Qed.

Lemma unmodified_line_rejected_witness :
  Java._parse_full_definition (bytes "int x")
  = Raise (CouldNotParse (bytes "int x"))
  ∧ Android._kind_and_signature_for_definition (bytes "int x")
    = Raise (CouldNotParse (bytes "int x")).
Proof.
  apply unmodified_line_rejected.
  intros (w & a & rest & Hw & _ & Heq). unfold modifier_words in Hw.
  repeat (apply elem_of_cons in Hw as [->|Hw]; [by vm_compute in Heq|]).
  by apply elem_of_nil in Hw.
Defined.

(** X16.  What [java] returns for a text it classifies.  The text begins
    with a modifier, the signature is a piece of the text, and by kind: a
    type has an identifier as signature, one of the three keywords as
    label and the identifier as short form, or the label annotation and
    the identifier after [@]; a method has a name and parameters in
    parentheses as signature and a type, whitespace and the signature as
    short form; a constructor has the same signature as short form; a
    field has an identifier as signature and a type, whitespace and the
    identifier as short form. *)
Theorem java_classification_shape s kd sg sh label :
  Java._parse_full_definition s = Ok (kd, sg, sh, label) →
  starts_with_modifier s
  ∧ (∃ pre post, s = pre ++ sg ++ post)
  ∧ match kd with
    | KLASS =>
        word sg
        ∧ ∃ kw : string, kw ∈ klass_words
            ∧ ((label = bytes kw ∧ sh = sg)
               ∨ (kw = "interface"%string ∧ label = bytes "annotation"
                  ∧ sh = bytes "@" ++ sg))
    | METHOD =>
        label = bytes "method"
        ∧ ∃ ty sp name params,
            sh = ty ++ sp ++ sg ∧ ty ≠ [] ∧ spaces sp
            ∧ sg = name ++ "("%char :: params ++ [")"%char]
            ∧ word name ∧ (LF ∉ params)
    | CONSTRUCTOR =>
        label = bytes "constructor" ∧ sh = sg
        ∧ ∃ name params,
            sg = name ++ "("%char :: params ++ [")"%char]
            ∧ word name ∧ (LF ∉ params)
    | FIELD =>
        label = bytes "field" ∧ word sg
        ∧ ∃ ty sp, sh = ty ++ sp ++ sg ∧ ty ≠ [] ∧ spaces sp
    end.
Proof.
  unfold Java._parse_full_definition.
  destruct (re_match Java.klass_pattern s) as [m|] eqn:Ek.
  { apply java_klass_pattern_shape in Ek
      as (pre & kw & sp & w & clause & post & -> & Hstart & Hkw & Hsp & Hw & ->).
    cbn [group Nat.eqb].
    destruct (bool_decide (bytes kw = bytes "interface")) eqn:Ei;
      destruct (bool_decide (clause = Java.annotation_clause));
      cbn [andb]; intros [= <- <- <- <-];
      (split_and!;
       [done
       |exists (pre ++ bytes kw ++ sp), (clause ++ post); by rewrite <- !app_assoc
       |done
       |exists kw; split; [done|]]).
    - right. apply bool_decide_eq_true_1, bytes_inj in Ei. by subst.
    - by left.
    - by left.
    - by left. }
  destruct (re_match Java.method_pattern s) as [m|] eqn:Em.
  { apply java_method_pattern_shape in Em
      as (pre & ty & sp & name & params & post & -> & Hstart & Hty & _ & Hsp
          & Hname & Hp & ->).
    cbn [group Nat.eqb]. intros [= <- <- <- <-]. split_and!; [done| |done|].
    - exists (pre ++ ty ++ sp), post. by rewrite <- !app_assoc.
    - by exists ty, sp, name, params. }
  destruct (re_match Java.constructor_pattern s) as [m|] eqn:Ec.
  { apply java_constructor_pattern_shape in Ec
      as (pre & name & params & post & -> & Hstart & Hname & Hp & ->).
    cbn [group Nat.eqb]. intros [= <- <- <- <-].
    split_and!; [done|by exists pre, post|done|done|by exists name, params]. }
  destruct (re_match Java.field_pattern s) as [m|] eqn:Ef; [|done].
  apply java_field_pattern_shape in Ef
    as (pre & ty & sp & w & post & -> & Hstart & Hty & _ & Hsp & Hw & ->).
  cbn [group Nat.eqb]. intros [= <- <- <- <-].
  split_and!; [done| |done|done|by exists ty, sp].
  exists (pre ++ ty ++ sp), post. by rewrite <- !app_assoc.
Qed.

Lemma java_classification_shape_witness :
  starts_with_modifier (bytes "public void draw(int x)")
  ∧ ∃ pre post, bytes "public void draw(int x)" = pre ++ bytes "draw(int x)" ++ post.
Proof.
  destruct (java_classification_shape (bytes "public void draw(int x)")
              METHOD (bytes "draw(int x)") (bytes "void draw(int x)")
              (bytes "method")) as (H1 & H2 & _).
  - by vm_compute.
  - by split.
Defined.

(** X17.  What [android] returns for a text it classifies: the text begins
    with a modifier, the signature is a piece of the text, an identifier
    for a type or a field, a name and parameters in parentheses for a
    method or a constructor. *)
Theorem android_classification_shape s kd sg :
  Android._kind_and_signature_for_definition s = Ok (kd, sg) →
  starts_with_modifier s
  ∧ (∃ pre post, s = pre ++ sg ++ post)
  ∧ match kd with
    | KLASS | FIELD => word sg
    | METHOD | CONSTRUCTOR =>
        ∃ name params,
          sg = name ++ "("%char :: params ++ [")"%char]
          ∧ word name ∧ (LF ∉ params)
    end.
Proof.
  unfold Android._kind_and_signature_for_definition.
  destruct (re_match Android.klass_pattern s) as [m|] eqn:Ek.
  { apply android_klass_pattern_shape in Ek
      as (pre & sp & w & post & -> & Hstart & Hsp & Hw & ->).
    cbn [group Nat.eqb]. intros [= <- <-]. split_and!; [done| |done].
    exists (pre ++ bytes "class" ++ sp), post. by rewrite <- !app_assoc. }
  destruct (re_match Android.method_pattern s) as [m|] eqn:Em.
  { apply android_method_pattern_shape in Em
      as (pre & ty & sp & name & params & post & -> & Hstart & Hty & Hsp
          & Hname & Hp & ->).
    cbn [group Nat.eqb]. intros [= <- <-]. split_and!; [done| |].
    - exists (pre ++ ty ++ sp), post. by rewrite <- !app_assoc.
    - by exists name, params. }
  destruct (re_match Android.constructor_pattern s) as [m|] eqn:Ec.
  { apply android_constructor_pattern_shape in Ec
      as (pre & name & params & post & -> & Hstart & Hname & Hp & ->).
    cbn [group Nat.eqb]. intros [= <- <-].
    split_and!; [done|by exists pre, post|by exists name, params]. }
  destruct (re_match Android.field_pattern s) as [m|] eqn:Ef; [|done].
  apply android_field_pattern_shape in Ef
    as (pre & ty & sp & w & post & -> & Hstart & Hty & Hsp & Hw & ->).
  cbn [group Nat.eqb]. intros [= <- <-]. split_and!; [done| |done].
  exists (pre ++ ty ++ sp), post. by rewrite <- !app_assoc.
Qed.

Lemma android_classification_shape_witness :
  starts_with_modifier (bytes "public interface Foo") ∧ word (bytes "Foo").
Proof.
  destruct (android_classification_shape (bytes "public interface Foo")
              FIELD (bytes "Foo")) as (H1 & _ & H2).
  - by vm_compute.
  - by split.
Defined.

(** X18.  A run of [java] ends without exception exactly when both
    snapshots are parsed and no identity of both has two different full
    texts.  An exception is the parse exception, with nothing printed, or
    that of the field [definition], after a heading was printed. *)
Theorem java_run_outcome old_path new_path :
  (raised (JavaRender.print_api_diff old_path new_path) = None
   ↔ ∃ old_symbols new_symbols,
       _symbols_for_library JavaRender.classify old_path = Ok old_symbols
       ∧ _symbols_for_library JavaRender.classify new_path = Ok new_symbols
       ∧ ∀ i od nd, old_symbols !! i = Some od → new_symbols !! i = Some nd →
                    Java.full od = Java.full nd)
  ∧ (∀ e, raised (JavaRender.print_api_diff old_path new_path) = Some e →
          ((∃ t, e = CouldNotParse t)
           ∧ stdout (JavaRender.print_api_diff old_path new_path) = [])
          ∨ (e = AttributeError (bytes "definition")
             ∧ ∃ more, stdout (JavaRender.print_api_diff old_path new_path)
                       = bytes "## " ++ more)).
Proof.
  unfold JavaRender.print_api_diff.
  destruct (_symbols_for_library JavaRender.classify old_path)
    as [old_symbols|eo] eqn:Hold.
  2:{ split.
      - split; [done|]. by intros (? & ? & ? & _).
      - cbn [raised stdout]. intros e [= <-]. left. split; [|done].
        eapply library_raises; [apply java_classify_raises|done]. }
  destruct (_symbols_for_library JavaRender.classify new_path)
    as [new_symbols|en] eqn:Hnew.
  2:{ split.
      - split; [done|]. by intros (? & ? & ? & ? & _).
      - cbn [raised stdout]. intros e [= <-]. left. split; [|done].
        eapply library_raises; [apply java_classify_raises|done]. }
  split.
  - split.
    + intros Hnone. exists old_symbols, new_symbols. split_and!; [done..|].
      intros i od nd Ho Hn.
      destruct (decide (Java.full od = Java.full nd)) as [|Hfull]; [done|].
      destruct (java_changes_modification _ _ _ _ _ Ho Hn Hfull)
        as (cs & Hcs & Hin).
      unfold JavaRender._print_markdown in Hnone.
      rewrite java_print_sections_modification in Hnone; [done|].
      apply Exists_exists. exists (klass i, cs). split.
      * rewrite sorted_items_perm. by apply elem_of_map_to_list.
      * apply Exists_exists. by eexists.
    + intros (old' & new' & [= <-] & [= <-] & Hsame).
      unfold JavaRender._print_markdown.
      destruct (java_print_sections_ok
                  (sorted_items (_changes Java.full old_symbols new_symbols))
                  []) as (entries & _ & ->); [|done].
      apply Forall_forall. intros [k cs] Hitem.
      rewrite sorted_items_perm in Hitem.
      apply elem_of_map_to_list in Hitem.
      apply Forall_forall. intros c Hc.
      destruct (is_modification c) eqn:Hmod; [|done].
      destruct (changes_modification _ _ _ _ _ _ Hitem Hc Hmod)
        as (i & od & nd & _ & Ho & Hn & Hfull).
      by specialize (Hsame _ _ _ Ho Hn).
  - intros e He. right. unfold JavaRender._print_markdown in *.
    apply java_print_sections_raised in He as (-> & _ & more & ->).
    split; [done|]. by exists more.
Qed.

(** X19.  A run of [android] ends without exception exactly when both
    snapshots are parsed; its only exception is the parse exception, and
    nothing is printed before it. *)
Theorem android_run_outcome old_path new_path :
  (raised (AndroidRender.print_api_diff old_path new_path) = None
   ↔ (∃ old_symbols,
        _symbols_for_library AndroidRender.classify old_path = Ok old_symbols)
     ∧ (∃ new_symbols,
          _symbols_for_library AndroidRender.classify new_path
          = Ok new_symbols))
  ∧ (∀ e, raised (AndroidRender.print_api_diff old_path new_path) = Some e →
          (∃ t, e = CouldNotParse t)
          ∧ stdout (AndroidRender.print_api_diff old_path new_path) = []).
Proof.
  unfold AndroidRender.print_api_diff.
  destruct (_symbols_for_library AndroidRender.classify old_path)
    as [old_symbols|eo] eqn:Hold.
  2:{ split.
      - split; [done|]. by intros [[? ?] _].
      - cbn [raised stdout]. intros e [= <-]. split; [|done].
        eapply library_raises; [apply android_classify_raises|done]. }
  destruct (_symbols_for_library AndroidRender.classify new_path)
    as [new_symbols|en] eqn:Hnew.
  2:{ split.
      - split; [done|]. by intros [_ [? ?]].
      - cbn [raised stdout]. intros e [= <-]. split; [|done].
        eapply library_raises; [apply android_classify_raises|done]. }
  split; [|done]. split; [|done]. intros _. split; by eexists.
Qed.

(** X20.  Where the printing of [java] stops: the sections of the classes
    before the first one with a Modification are printed in full, then the
    heading of that class and an empty line, and nothing after. *)
Theorem java_output_stops_at_modification
    (report : gmap str (list (Change Java.Definition_))) before k cs after :
  sorted_items report = before ++ (k, cs) :: after →
  Forall (λ item, Forall (λ c, is_modification c = false) item.2) before →
  Exists (λ c, is_modification c = true) cs →
  ∃ entries,
    Forall2 (λ item es, JavaRender.markdown_for_changes item.2 = Ok es)
      before entries
    ∧ JavaRender._print_markdown report
      = mkOutcome
          (concat (zip_with (λ item es,
                     section_text (JavaRender._simplify item.1) es)
                   before entries)
           ++ bytes "## " ++ JavaRender._simplify k ++ NL ++ NL)
          (Some (AttributeError (bytes "definition"))).
Proof.
  intros Hitems Hbefore Hcs. unfold JavaRender._print_markdown.
  rewrite Hitems.
  destruct (java_print_sections_ok before [] Hbefore) as (entries & Hall & _).
  exists entries. split; [done|].
  rewrite (java_print_sections_app _ _ _ _ Hall).
  cbn [JavaRender.print_sections app].
  rewrite (java_markdown_for_changes_modification _ Hcs).
  f_equal. by rewrite <- !app_assoc.
Qed.

Lemma java_output_stops_at_modification_witness :
  ∃ entries,
    Forall2 (λ item es, JavaRender.markdown_for_changes item.2 = Ok es)
      ([] : list (str * list (Change Java.Definition_))) entries
    ∧ JavaRender._print_markdown
        {[ bytes "a.Foo" :=
             [Modification (mkSymbolId (bytes "a.Foo") FIELD (bytes "x"))
                (java_definition "public int x" "int x" "field")
                (java_definition "public long x" "long x" "field")] ]}
      = mkOutcome
          (concat (zip_with (λ item es,
                     section_text (JavaRender._simplify item.1) es)
                   ([] : list (str * list (Change Java.Definition_)))
                   entries)
           ++ bytes "## " ++ JavaRender._simplify (bytes "a.Foo") ++ NL ++ NL)
          (Some (AttributeError (bytes "definition"))).
Proof.
  apply (java_output_stops_at_modification _ [] (bytes "a.Foo")
           [Modification (mkSymbolId (bytes "a.Foo") FIELD (bytes "x"))
              (java_definition "public int x" "int x" "field")
              (java_definition "public long x" "long x" "field")] []).
  - unfold sorted_items. by rewrite map_to_list_singleton.
  - constructor.
  - by left.
Defined.

(** X21.  Simplifying goes boundary by boundary: at a boundary character
    the simplified form of a text is the simplified form of what is before
    it, the character, and the simplified form of what is after it. *)
Theorem simplify_splits_at_boundary (s1 : str) (b : ascii) (s2 : str) :
  android_boundary b = true →
  JavaRender._simplify (s1 ++ b :: s2)
  = JavaRender._simplify s1 ++ b :: JavaRender._simplify s2
  ∧ AndroidRender._simplify (s1 ++ b :: s2)
    = AndroidRender._simplify s1 ++ b :: AndroidRender._simplify s2.
Proof.
  intros Hb. split.
  - apply (simplify_at_boundary _ java_boundary);
      [apply java_boundaries_match|done..|].
    unfold java_boundary. by rewrite Hb.
  - apply (simplify_at_boundary _ android_boundary);
      [apply android_boundaries_match|done..].
Qed.

Lemma simplify_splits_at_boundary_witness :
  JavaRender._simplify (bytes "java.lang.String" ++ " "%char :: bytes "a.b.name")
  = JavaRender._simplify (bytes "java.lang.String")
      ++ " "%char :: JavaRender._simplify (bytes "a.b.name")
  ∧ AndroidRender._simplify
      (bytes "java.lang.String" ++ " "%char :: bytes "a.b.name")
    = AndroidRender._simplify (bytes "java.lang.String")
        ++ " "%char :: AndroidRender._simplify (bytes "a.b.name").
Proof.
  apply simplify_splits_at_boundary. reflexivity.
Defined.

(** X22.  A field line: modifiers, a type, whitespace and a name, with
    no parenthesis after the modifiers.  Both programs classify it as a
    field whose signature is the name; in [java] the short form is the
    line without its modifiers and without what follows the name. *)
Theorem field_line_classified m ty sp w cl :
  modifier_run m → member_type ty → spaces sp → word w →
  trailing_clause cl → "("%char ∉ ty ++ sp ++ w ++ cl →
  Java._parse_full_definition (m ++ ty ++ sp ++ w ++ cl)
  = Ok (FIELD, w, ty ++ sp ++ w, bytes "field")
  ∧ Android._kind_and_signature_for_definition (m ++ ty ++ sp ++ w ++ cl)
    = Ok (FIELD, w).
Proof.
  intros Hm Hty Hsp Hw Hcl Hno.
  destruct (member_type_spec ty (sp ++ w ++ cl) Hty
              (spaces_trailing _ _ Hsp)) as (Hstop & Hnm & Hnk).
  destruct (klass_patterns_fail m _ Hm Hstop Hnm Hnk) as [Hjk Hak].
  destruct (no_paren_no_parameters (m ++ ty ++ sp ++ w ++ cl))
    as (Hjm & Hjc & Ham & Hac).
  { intros [Hin|Hin]%elem_of_app; [|done].
    by apply modifier_run_no_paren in Hin. }
  destruct (field_patterns_match m ty sp w cl) as [Hjf Haf]; [done..|].
  unfold Java._parse_full_definition, Android._kind_and_signature_for_definition.
  by rewrite Hjk, Hjm, Hjc, Hjf, Hak, Ham, Hac, Haf.
Qed.

Lemma field_line_classified_witness :
  Java._parse_full_definition (bytes "public static final int MAX_VALUE")
  = Ok (FIELD, bytes "MAX_VALUE", bytes "int MAX_VALUE", bytes "field")
  ∧ Android._kind_and_signature_for_definition
      (bytes "public static final int MAX_VALUE")
    = Ok (FIELD, bytes "MAX_VALUE").
Proof.
  apply (field_line_classified (bytes "public static final ") (bytes "int")
           (bytes " ") (bytes "MAX_VALUE") []).
  - apply (modifier_run_cons "public" (bytes " ") (bytes "static final ")).
    + decide_closed.
    + decide_closed.
    + apply (modifier_run_cons "static" (bytes " ") (bytes "final ")).
      * decide_closed.
      * decide_closed.
      * apply (modifier_run_one "final" (bytes " ")); decide_closed.
  - decide_closed.
  - decide_closed.
  - decide_closed.
  - exact I.
  - decide_closed.
Defined.

(** X23.  A method line: modifiers, a type, whitespace, a name, the
    parameters in parentheses and a clause without parentheses.  Both
    programs classify it as a method whose signature is the name with the
    parameters; in [java] the short form is the type, the whitespace and
    the signature. *)
Theorem method_line_classified m ty sp name params cl :
  modifier_run m → member_type ty → spaces sp → word name →
  LF ∉ params → "("%char ∉ params → "("%char ∉ cl → ")"%char ∉ cl →
  Java._parse_full_definition
    (m ++ ty ++ sp ++ (name ++ "("%char :: params ++ [")"%char]) ++ cl)
  = Ok (METHOD, name ++ "("%char :: params ++ [")"%char],
        ty ++ sp ++ name ++ "("%char :: params ++ [")"%char],
        bytes "method")
  ∧ Android._kind_and_signature_for_definition
      (m ++ ty ++ sp ++ (name ++ "("%char :: params ++ [")"%char]) ++ cl)
    = Ok (METHOD, name ++ "("%char :: params ++ [")"%char]).
Proof.
  intros Hm Hty Hsp Hname HLF Hopen Hopen' Hclose.
  destruct (member_type_spec ty
              (sp ++ (name ++ "("%char :: params ++ [")"%char]) ++ cl) Hty
              (spaces_trailing _ _ Hsp)) as (Hstop & Hnm & Hnk).
  destruct (klass_patterns_fail m _ Hm Hstop Hnm Hnk) as [Hjk Hak].
  destruct (method_patterns_match m ty sp name params cl) as [Hjm Ham];
    [done..|].
  unfold Java._parse_full_definition, Android._kind_and_signature_for_definition.
  by rewrite Hjk, Hjm, Hak, Ham.
Qed.

Lemma method_line_classified_witness :
  Java._parse_full_definition
    (bytes "public java.lang.String name(int, boolean) throws java.io.IOException")
  = Ok (METHOD, bytes "name(int, boolean)",
        bytes "java.lang.String name(int, boolean)", bytes "method")
  ∧ Android._kind_and_signature_for_definition
      (bytes "public java.lang.String name(int, boolean) throws java.io.IOException")
    = Ok (METHOD, bytes "name(int, boolean)").
Proof.
  apply (method_line_classified (bytes "public ") (bytes "java.lang.String")
           (bytes " ") (bytes "name") (bytes "int, boolean")
           (bytes " throws java.io.IOException")).
  - apply (modifier_run_one "public" (bytes " ")); decide_closed.
  - decide_closed.
  - decide_closed.
  - decide_closed.
  - decide_closed.
  - decide_closed.
  - decide_closed.
  - decide_closed.
Defined.

(** X24.  A constructor line: one modifier, one or two whitespace
    characters, a name, the parameters in parentheses and a clause without
    parentheses.  Both programs classify it as a constructor whose
    signature, and in [java] short form, is the name with the
    parameters. *)
Theorem constructor_line_classified (w : string) sp name params cl :
  w ∈ modifier_words → spaces sp → length sp ≤ 2 → word name →
  "("%char ∉ name → LF ∉ params → "("%char ∉ params →
  "("%char ∉ cl → ")"%char ∉ cl →
  Java._parse_full_definition
    (bytes w ++ sp ++ (name ++ "("%char :: params ++ [")"%char]) ++ cl)
  = Ok (CONSTRUCTOR, name ++ "("%char :: params ++ [")"%char],
        name ++ "("%char :: params ++ [")"%char], bytes "constructor")
  ∧ Android._kind_and_signature_for_definition
      (bytes w ++ sp ++ (name ++ "("%char :: params ++ [")"%char]) ++ cl)
    = Ok (CONSTRUCTOR, name ++ "("%char :: params ++ [")"%char]).
Proof.
  intros Hw Hsp Hlen Hname Hnoname HLF Hopen Hopen' Hclose.
  destruct (constructor_text_spec name (params ++ ")"%char :: cl) Hname)
    as (Hstop & Hnm & Hnk).
  assert (modifier_run (bytes w ++ sp)) as Hm by by constructor.
  destruct (klass_patterns_fail _ _ Hm Hstop Hnm Hnk) as [Hjk Hak].
  rewrite <- !app_assoc, <- signature_shape in Hjk, Hak.
  assert ("("%char ∉ params ++ ")"%char :: cl) as Hrest.
  { intros [?|[?|?]%elem_of_cons]%elem_of_app; done. }
  assert (re_match Java.method_pattern
            (bytes w ++ sp ++ (name ++ "("%char :: params ++ [")"%char]) ++ cl)
          = None) as Hjm.
  { rewrite signature_shape.
    destruct (re_match Java.method_pattern _) as [c|] eqn:E; [|done].
    exfalso. eapply constructor_not_method; [..|by left]; done. }
  assert (re_match Android.method_pattern
            (bytes w ++ sp ++ (name ++ "("%char :: params ++ [")"%char]) ++ cl)
          = None) as Ham.
  { rewrite signature_shape.
    destruct (re_match Android.method_pattern _) as [c|] eqn:E; [|done].
    exfalso. eapply constructor_not_method; [..|by right]; done. }
  destruct (constructor_patterns_match w sp name params cl) as [Hjc Hac];
    [done..|].
  unfold Java._parse_full_definition, Android._kind_and_signature_for_definition.
  by rewrite Hjk, Hjm, Hjc, Hak, Ham, Hac.
Qed.

Lemma constructor_line_classified_witness :
  Java._parse_full_definition
    (bytes "protected com.example.Widget(int, java.lang.String)")
  = Ok (CONSTRUCTOR, bytes "com.example.Widget(int, java.lang.String)",
        bytes "com.example.Widget(int, java.lang.String)",
        bytes "constructor")
  ∧ Android._kind_and_signature_for_definition
      (bytes "protected com.example.Widget(int, java.lang.String)")
    = Ok (CONSTRUCTOR, bytes "com.example.Widget(int, java.lang.String)").
Proof.
  apply (constructor_line_classified "protected" (bytes " ")
           (bytes "com.example.Widget") (bytes "int, java.lang.String") []).
  - decide_closed.
  - decide_closed.
  - simpl. lia.
  - decide_closed.
  - decide_closed.
  - decide_closed.
  - decide_closed.
  - decide_closed.
  - decide_closed.
Defined.

(** X25.  One line ends the run: when a line of a file of either snapshot,
    the last line of the file apart, gives a text that does not begin with
    a modifier keyword and whitespace, both programs print nothing and end
    with the parse exception. *)
Theorem unmodified_line_aborts_run old_path new_path file m line :
  file ∈ old_path ∨ file ∈ new_path →
  readlines file !! m = Some line →
  m ≠ length (readlines file) - 1 →
  ¬ starts_with_modifier (definition_text line) →
  (∃ t, JavaRender.print_api_diff old_path new_path
        = mkOutcome [] (Some (CouldNotParse t)))
  ∧ (∃ t, AndroidRender.print_api_diff old_path new_path
          = mkOutcome [] (Some (CouldNotParse t))).
Proof.
  intros Hfile Hm Hlast Hline. split.
  - apply java_bad_library_aborts.
    assert (JavaRender.classify (definition_text line)
            = Raise (CouldNotParse (definition_text line))) as He.
    { unfold JavaRender.classify, Java._parse_full_definition,
        Java.klass_pattern, Java.method_pattern, Java.constructor_pattern,
        Java.field_pattern.
      by rewrite !re_match_needs_modifier. }
    destruct Hfile as [Hfile|Hfile]; [left|right];
      by eapply library_bad_line; [apply java_classify_raises|..].
  - apply android_bad_library_aborts.
    assert (AndroidRender.classify (definition_text line)
            = Raise (CouldNotParse (definition_text line))) as He.
    { unfold AndroidRender.classify, Android._kind_and_signature_for_definition,
        Android.klass_pattern, Android.method_pattern,
        Android.constructor_pattern, Android.field_pattern.
      by rewrite !re_match_needs_modifier. }
    destruct Hfile as [Hfile|Hfile]; [left|right];
      by eapply library_bad_line; [apply android_classify_raises|..].
Qed.

Lemma unmodified_line_aborts_run_witness :
  (∃ t, JavaRender.print_api_diff []
          [file_of_lines ["public class Foo {"; "int x;"; "}"]%string]
        = mkOutcome [] (Some (CouldNotParse t)))
  ∧ (∃ t, AndroidRender.print_api_diff []
            [file_of_lines ["public class Foo {"; "int x;"; "}"]%string]
          = mkOutcome [] (Some (CouldNotParse t))).
Proof.
  apply (unmodified_line_aborts_run [] _
           (file_of_lines ["public class Foo {"; "int x;"; "}"]%string)
           1 (bytes "int x;" ++ NL)).
  - right. left.
  - reflexivity.
  - by vm_compute.
  - intros (w & a & rest & Hw & _ & Heq). unfold modifier_words in Hw.
    repeat (apply elem_of_cons in Hw as [->|Hw]; [by vm_compute in Heq|]).
    by apply elem_of_nil in Hw.
Defined.
